(** * AzureFilesUtils / recursiveSearch: a shallow embedding

    Two programs live in the repository:

    - [src/recursiveSearch/src/index.ts]: the TypeScript rewrite, of which the
      cache store ([DefaultCacheDb]) and the command line validation exist;
    - [src/recursiveSearch/recursiveSearch.ps1]: the PowerShell script, which
      resolves the scopes to search and runs the breadth-first traversal.

    Part I holds the definitions, translated function by function from the
    sources; Part II holds the statements proved about them. *)

From Stdlib Require Import ZArith Lia Bool Ascii String List Permutation Sorted.
From stdpp Require Import base option list gmap strings.

Import ListNotations.
Local Open Scope string_scope.
Local Open Scope list_scope.
Local Open Scope Z_scope.

(* ===================================================================== *)
(** * Part I: definitions                                                 *)
(* ===================================================================== *)

(** ** JavaScript values and results ([index.ts], region General) *)

Module Js.

(** The values a row of [bun:sqlite] or a command line option may hold.
    Numbers are the integers SQLite hands back. *)
Inductive Value : Type :=
| Undefined
| Null
| Bool (b : bool)
| Number (n : Z)
| Str (s : string).

(** [Boolean(v)], which is also what [z.coerce.boolean()] applies. *)
Definition toBoolean (v : Value) : bool :=
  match v with
  | Undefined | Null => false
  | Bool b => b
  | Number n => negb (n =? 0)
  | Str s => negb (String.eqb s EmptyString)
  end.

(** A thrown [Error]; only its message is kept. *)
Inductive Error : Type := MkError (message : string).

(** [type Result<T, E> = Success<T> | Failure<E>] *)
Inductive Result (T E : Type) : Type :=
| Success (data : T)
| Failure (error : E).
Arguments Success {T E} data.
Arguments Failure {T E} error.

Definition success {T E} (r : Result T E) : bool :=
  match r with Success _ => true | Failure _ => false end.

(** The double quote character, as template literals splice it into the
    queries. *)
Definition dquote : string := String (ascii_of_nat 34) EmptyString.

End Js.

(** ** The SQLite engine behind [bun:sqlite]

    The engine is a collaborator of the cache store, not part of the
    repository. This model covers the statements [DefaultCacheDb.init] issues:
    the two pragmas, [DROP TABLE IF EXISTS] and [CREATE TABLE]. A database is
    its tables; any statement can be refused by the engine (a locked file, an
    I/O error, a view standing where a table is dropped), which [rejects]
    decides. *)

Module Sqlite.

Import Js.

(** A row of [PRAGMA table_info] as [Statement.all] hands it over: [unknown]
    in the source, here the six properties the schema reads. *)
Record RawRow : Type := mkRawRow {
  raw_cid : Value;
  raw_name : Value;
  raw_type : Value;
  raw_notnull : Value;
  raw_dflt_value : Value;
  raw_pk : Value
}.

(** A column as the engine stores it: the declared type is free text, and
    [col_pk] is the 1-based place of the column in the primary key, 0 when it
    is not part of it. *)
Record ColumnDef : Type := mkColumnDef {
  col_name : string;
  col_type : string;
  col_notnull : bool;
  col_pk : Z
}.

Record Table : Type := mkTable {
  tbl_columns : list ColumnDef;
  tbl_strict : bool;
  tbl_rows : list (list Value)
}.

Record Database : Type := mkDatabase {
  tables : gmap string Table;
  journal_mode : string;
  rejects : string -> bool;
  history : list string
}.

Inductive Token : Type :=
| TWord (w : string)
| TQuoted (ident : string)
| TLParen
| TRParen
| TComma
| TEquals.

Definition isWordChar (c : ascii) : bool :=
  let n := nat_of_ascii c in
  ((65 <=? n) && (n <=? 90) || (97 <=? n) && (n <=? 122)
   || (48 <=? n) && (n <=? 57) || (n =? 95))%nat.

Inductive LexMode : Type :=
| InText (word : string)
| InQuotes (ident : string).

Definition flush (word : string) (ts : list Token) : list Token :=
  if String.eqb word EmptyString then ts else TWord word :: ts.

Definition snoc (s : string) (c : ascii) : string :=
  s +:+ String c EmptyString.

Fixpoint lex (mode : LexMode) (s : string) : option (list Token) :=
  match s, mode with
  | EmptyString, InText w => Some (flush w [])
  | EmptyString, InQuotes _ => None
  | String c rest, InQuotes q =>
      if (nat_of_ascii c =? 34)%nat
      then cons (TQuoted q) <$> lex (InText EmptyString) rest
      else lex (InQuotes (snoc q c)) rest
  | String c rest, InText w =>
      if isWordChar c then lex (InText (snoc w c)) rest
      else if (nat_of_ascii c =? 34)%nat
      then flush w <$> lex (InQuotes EmptyString) rest
      else if (nat_of_ascii c =? 32)%nat
      then flush w <$> lex (InText EmptyString) rest
      else if (nat_of_ascii c =? 40)%nat
      then (fun ts => flush w (TLParen :: ts)) <$> lex (InText EmptyString) rest
      else if (nat_of_ascii c =? 41)%nat
      then (fun ts => flush w (TRParen :: ts)) <$> lex (InText EmptyString) rest
      else if (nat_of_ascii c =? 44)%nat
      then (fun ts => flush w (TComma :: ts)) <$> lex (InText EmptyString) rest
      else if (nat_of_ascii c =? 61)%nat
      then (fun ts => flush w (TEquals :: ts)) <$> lex (InText EmptyString) rest
      else None
  end.

Inductive Statement : Type :=
| PragmaJournalMode (mode : string)
| PragmaTableInfo (table : string)
| DropTableIfExists (table : string)
| CreateTable (table : string) (columns : list (string * string * bool))
    (key : list string) (strict : bool).

Definition isWord (t : Token) (w : string) : bool :=
  match t with TWord x => String.eqb x w | _ => false end.

(** The quoted names of a [PRIMARY KEY (...)] clause, up to its closing
    parenthesis. *)
Fixpoint parseKey (ts : list Token) : option (list string * list Token) :=
  match ts with
  | TQuoted k :: TRParen :: rest => Some ([k], rest)
  | TQuoted k :: TComma :: rest =>
      match parseKey rest with
      | Some (ks, rest') => Some (k :: ks, rest')
      | None => None
      end
  | _ => None
  end.

(** The column definitions and the optional key clause of [CREATE TABLE], up
    to the parenthesis that closes them. *)
Fixpoint parseColumns (fuel : nat) (ts : list Token)
  : option (list (string * string * bool) * list string * list Token) :=
  match fuel with
  | O => None
  | S fuel' =>
      match ts with
      | TQuoted c :: TWord ty :: rest =>
          let '(notnull, rest1) :=
            match rest with
            | t1 :: t2 :: rest' =>
                if isWord t1 "NOT" && isWord t2 "NULL" then (true, rest')
                else (false, rest)
            | _ => (false, rest)
            end in
          match rest1 with
          | TRParen :: rest2 => Some ([(c, ty, notnull)], [], rest2)
          | TComma :: rest2 =>
              match parseColumns fuel' rest2 with
              | Some (cols, key, rest3) =>
                  Some ((c, ty, notnull) :: cols, key, rest3)
              | None => None
              end
          | _ => None
          end
      | t1 :: t2 :: TLParen :: rest =>
          if isWord t1 "PRIMARY" && isWord t2 "KEY" then
            match parseKey rest with
            | Some (key, TRParen :: rest1) => Some ([], key, rest1)
            | _ => None
            end
          else None
      | _ => None
      end
  end.

Definition tableName (t : Token) : option string :=
  match t with
  | TWord w => Some w
  | TQuoted q => Some q
  | _ => None
  end.

Definition parseTokens (ts : list Token) : option Statement :=
  match ts with
  | [t1; t2; TEquals; TWord mode] =>
      if isWord t1 "PRAGMA" && isWord t2 "journal_mode"
      then Some (PragmaJournalMode mode) else None
  | [t1; t2; TLParen; t; TRParen] =>
      if isWord t1 "PRAGMA" && isWord t2 "table_info"
      then PragmaTableInfo <$> tableName t else None
  | [t1; t2; t3; t4; t] =>
      if isWord t1 "DROP" && isWord t2 "TABLE" && isWord t3 "IF"
         && isWord t4 "EXISTS"
      then DropTableIfExists <$> tableName t else None
  | t1 :: t2 :: t :: TLParen :: rest =>
      if isWord t1 "CREATE" && isWord t2 "TABLE" then
        match tableName t, parseColumns (length rest) rest with
        | Some tbl, Some (cols, key, []) => Some (CreateTable tbl cols key false)
        | Some tbl, Some (cols, key, [t5]) =>
            if isWord t5 "STRICT" then Some (CreateTable tbl cols key true)
            else None
        | _, _ => None
        end
      else None
  | _ => None
  end.

Definition parse (query : string) : option Statement :=
  lex (InText EmptyString) query ≫= parseTokens.

(** The place of [c] in the key, counted from 1; 0 when it is not in it. *)
Fixpoint keyIndex (c : string) (key : list string) (i : Z) : Z :=
  match key with
  | [] => 0
  | k :: rest => if String.eqb k c then i else keyIndex c rest (i + 1)
  end.

(** The types a STRICT table admits. *)
Definition strictType (ty : string) : bool :=
  String.eqb ty "INT" || String.eqb ty "INTEGER" || String.eqb ty "REAL"
  || String.eqb ty "TEXT" || String.eqb ty "BLOB" || String.eqb ty "ANY".

Definition newTable (columns : list (string * string * bool))
    (key : list string) (strict : bool) : Table :=
  {| tbl_columns :=
       map (fun '(c, ty, notnull) => mkColumnDef c ty notnull (keyIndex c key 1))
         columns;
     tbl_strict := strict;
     tbl_rows := [] |}.

Definition submitted (query : string) (db : Database) : Database :=
  {| tables := tables db; journal_mode := journal_mode db;
     rejects := rejects db; history := history db ++ [query] |}.

Definition withTables (t : gmap string Table) (db : Database) : Database :=
  {| tables := t; journal_mode := journal_mode db;
     rejects := rejects db; history := history db |}.

Definition withJournalMode (m : string) (db : Database) : Database :=
  {| tables := tables db; journal_mode := m;
     rejects := rejects db; history := history db |}.

(** One statement applied to the tables; an [Error] is what the engine
    throws. *)
Definition apply (st : Statement) (db : Database) : Error + Database :=
  match st with
  | PragmaJournalMode m => inr (withJournalMode m db)
  | PragmaTableInfo _ => inr db
  | DropTableIfExists t => inr (withTables (delete t (tables db)) db)
  | CreateTable t cols key strict =>
      match tables db !! t with
      | Some _ => inl (MkError "table already exists")
      | None =>
          if strict && negb (forallb (fun '(_, ty, _) => strictType ty) cols)
          then inl (MkError "unknown datatype")
          else if negb (forallb
                          (fun k => existsb (fun '(c, _, _) => String.eqb c k) cols)
                          key)
          then inl (MkError "no such column")
          else inr (withTables (<[t := newTable cols key strict]> (tables db)) db)
      end
  end.

(** [Database.run(query)]: the database afterwards, or the error thrown; the
    query is recorded in the history either way. *)
Definition run (query : string) (db : Database) : (Error + unit) * Database :=
  let db1 := submitted query db in
  if rejects db query then (inl (MkError "SQLITE_ERROR"), db1)
  else match parse query with
       | None => (inl (MkError "syntax error"), db1)
       | Some st =>
           match apply st db1 with
           | inl e => (inl e, db1)
           | inr db2 => (inr tt, db2)
           end
       end.

(** The rows [PRAGMA table_info] gives for a table: none when there is no such
    table. *)
Fixpoint tableInfoRows (cid : Z) (columns : list ColumnDef) : list RawRow :=
  match columns with
  | [] => []
  | c :: rest =>
      mkRawRow (Number cid) (Str (col_name c)) (Str (col_type c))
        (Number (if col_notnull c then 1 else 0)) Null (Number (col_pk c))
      :: tableInfoRows (cid + 1) rest
  end.

Definition tableInfo (t : string) (db : Database) : list RawRow :=
  match tables db !! t with
  | None => []
  | Some tbl => tableInfoRows 0 (tbl_columns tbl)
  end.

(** [Database.prepare(query)] followed by [Statement.all()]. *)
Definition all (query : string) (db : Database)
  : (Error + list RawRow) * Database :=
  let db1 := submitted query db in
  if rejects db query then (inl (MkError "SQLITE_ERROR"), db1)
  else match parse query with
       | None => (inl (MkError "syntax error"), db1)
       | Some (PragmaTableInfo t) => (inr (tableInfo t db1), db1)
       | Some st =>
           match apply st db1 with
           | inl e => (inl e, db1)
           | inr db2 => (inr [], db2)
           end
       end.

End Sqlite.

(** ** The cache store ([index.ts], region SQLite logic) *)

Module CacheDb.

Import Js Sqlite.

(** [sqliteDataTypeSchema = z.enum([ INTEGER, REAL, TEXT, BLOB ])] *)
Inductive SqliteDataType : Type := INTEGER | REAL | TEXT | BLOB.

Definition SqliteDataType_eqb (a b : SqliteDataType) : bool :=
  match a, b with
  | INTEGER, INTEGER | REAL, REAL | TEXT, TEXT | BLOB, BLOB => true
  | _, _ => false
  end.

(** The text of a type, as a template literal prints it. *)
Definition typeText (t : SqliteDataType) : string :=
  match t with
  | INTEGER => "INTEGER" | REAL => "REAL" | TEXT => "TEXT" | BLOB => "BLOB"
  end.

(** What [sqliteDataTypeSchema] accepts. *)
Definition parseDataType (s : string) : option SqliteDataType :=
  if String.eqb s "INTEGER" then Some INTEGER
  else if String.eqb s "REAL" then Some REAL
  else if String.eqb s "TEXT" then Some TEXT
  else if String.eqb s "BLOB" then Some BLOB
  else None.

(** [type SqliteColumn] *)
Record SqliteColumn : Type := mkColumn {
  name : string;
  type : SqliteDataType;
  nullable : bool;
  primaryKey : bool
}.

(** An element of [SqliteSchema = z.infer<typeof sqliteSchemaSchema>]. *)
Record SchemaRow : Type := mkSchemaRow {
  row_cid : Z;
  row_name : string;
  row_type : option SqliteDataType;
  row_notnull : bool;
  row_dflt_value : Value;
  row_pk : Z
}.

Definition SqliteSchema : Type := list SchemaRow.

(** One object of [sqliteSchemaSchema]: [cid] a number at least 0, [name] a
    string, [type] one of the four types or null, [notnull] coerced to a
    boolean, [dflt_value] anything, [pk] a number. *)
Definition parseRow (r : RawRow) : option SchemaRow :=
  match raw_cid r, raw_name r, raw_pk r with
  | Number c, Str n, Number p =>
      if 0 <=? c then
        match raw_type r with
        | Null =>
            Some (mkSchemaRow c n None (toBoolean (raw_notnull r))
                    (raw_dflt_value r) p)
        | Str t =>
            match parseDataType t with
            | Some ty =>
                Some (mkSchemaRow c n (Some ty) (toBoolean (raw_notnull r))
                        (raw_dflt_value r) p)
            | None => None
            end
        | _ => None
        end
      else None
  | _, _, _ => None
  end.

(** A [ZodError]: the indices of the rows that did not validate. *)
Definition ZodError : Type := list nat.

Fixpoint parseRows (i : nat) (rows : list RawRow)
  : list SchemaRow * ZodError :=
  match rows with
  | [] => ([], [])
  | r :: rest =>
      let '(ok, bad) := parseRows (S i) rest in
      match parseRow r with
      | Some row => (row :: ok, bad)
      | None => (ok, i :: bad)
      end
  end.

(** [sqliteSchemaSchema.safeParse] *)
Definition safeParse (rows : list RawRow) : Result SqliteSchema ZodError :=
  match parseRows 0 rows with
  | (ok, []) => Success ok
  | (_, bad) => Failure bad
  end.

(** A [ReadonlyMap<string, SqliteColumn>] literal: the entries in insertion
    order, which is the order [values()] yields them in. *)
Definition ColumnMap : Type := list (string * SqliteColumn).

(** [Map.prototype.get] *)
Fixpoint get (m : ColumnMap) (key : string) : option SqliteColumn :=
  match m with
  | [] => None
  | (k, v) :: rest => if String.eqb k key then Some v else get rest key
  end.

(** [Map.prototype.values] *)
Definition values (m : ColumnMap) : list SqliteColumn := map snd m.

(** [fileSharesColumns] *)
Definition fileSharesColumns : ColumnMap :=
  [ ("fileShareId", mkColumn "fileShareId" TEXT false true);
    ("dataPlaneUri", mkColumn "dataPlaneUri" TEXT false true);
    ("resourceName", mkColumn "resourceName" TEXT false false);
    ("resourceType", mkColumn "resourceType" TEXT false false);
    ("resourceCreateDate", mkColumn "resourceCreateDate" INTEGER false false);
    ("fileShareName", mkColumn "fileShareName" TEXT false false);
    ("isSnapshot", mkColumn "isSnapshot" INTEGER false false);
    ("snapshotTime", mkColumn "snapshotTime" INTEGER false false) ].

(** [fileSystemEntriesColumns] *)
Definition fileSystemEntriesColumns : ColumnMap :=
  [ ("fileShareId", mkColumn "fileShareId" TEXT false true);
    ("dataPlaneUri", mkColumn "dataPlaneUri" TEXT false true);
    ("path", mkColumn "path" TEXT false true);
    ("entryName", mkColumn "entryName" TEXT false false) ].

(** The test both loops of [columnsMatch] apply to an expected column and the
    column found for it. The third disjunct compares the expected column's
    [primaryKey] with itself, as the source does. *)
Definition differs (expectedColumn foundColumn : SqliteColumn) : bool :=
  negb (SqliteDataType_eqb (type expectedColumn) (type foundColumn))
  || negb (Bool.eqb (nullable expectedColumn) (nullable foundColumn))
  || negb (Bool.eqb (primaryKey expectedColumn) (primaryKey expectedColumn)).

(** The first loop of [columnsMatch], over the introspected rows: [None] is
    its [return false], [Some foundColumns] the map it leaves behind. *)
Fixpoint collectFound (expectedColumns : ColumnMap) (sqliteSchema : SqliteSchema)
    (foundColumns : gmap string SqliteColumn)
  : option (gmap string SqliteColumn) :=
  match sqliteSchema with
  | [] => Some foundColumns
  | rawColumn :: rest =>
      match row_type rawColumn with
      | None => None
      | Some ty =>
          let foundColumn :=
            {| name := row_name rawColumn;
               type := ty;
               nullable := negb (row_notnull rawColumn);
               primaryKey := toBoolean (Number (row_pk rawColumn)) |} in
          match get expectedColumns (name foundColumn) with
          | None =>
              if negb (nullable foundColumn) then None
              else collectFound expectedColumns rest foundColumns
          | Some expectedColumn =>
              if differs expectedColumn foundColumn then None
              else collectFound expectedColumns rest
                     (<[name foundColumn := foundColumn]> foundColumns)
          end
      end
  end.

(** The second loop of [columnsMatch], over [expectedColumns.values()]. *)
Definition allExpectedFound (expectedColumns : ColumnMap)
    (foundColumns : gmap string SqliteColumn) : bool :=
  forallb
    (fun expectedColumn =>
       match foundColumns !! name expectedColumn with
       | None => false
       | Some foundColumn => negb (differs expectedColumn foundColumn)
       end)
    (values expectedColumns).

(** [DefaultCacheDb.columnsMatch] *)
Definition columnsMatch (expectedColumns : ColumnMap)
    (sqliteSchema : SqliteSchema) : bool :=
  match collectFound expectedColumns sqliteSchema ∅ with
  | None => false
  | Some foundColumns => allExpectedFound expectedColumns foundColumns
  end.

(** The first loop of [buildCreateTableQuery]: the query text so far, the
    [primaryKeys] array and the counter [i]. *)
Fixpoint appendColumns (columns : list SqliteColumn) (createTableQuery : string)
    (primaryKeys : list string) (i : nat) : string * list string :=
  match columns with
  | [] => (createTableQuery, primaryKeys)
  | column :: rest =>
      let q1 := if (0 <? i)%nat then createTableQuery +:+ ", "
                else createTableQuery in
      let keys := if primaryKey column then primaryKeys ++ [name column]
                  else primaryKeys in
      let q2 := q1 +:+ dquote +:+ name column +:+ dquote +:+ " "
                +:+ typeText (type column) in
      let q3 := if negb (nullable column) then q2 +:+ " NOT NULL" else q2 in
      appendColumns rest q3 keys (S i)
  end.

(** The second loop, over [primaryKeys], with its counter [j]. *)
Fixpoint appendKeys (primaryKeys : list string) (createTableQuery : string)
    (j : nat) : string :=
  match primaryKeys with
  | [] => createTableQuery
  | key :: rest =>
      let q1 := if (0 <? j)%nat then createTableQuery +:+ ", "
                else createTableQuery in
      appendKeys rest (q1 +:+ dquote +:+ key +:+ dquote) (S j)
  end.

(** [DefaultCacheDb.buildCreateTableQuery] *)
Definition buildCreateTableQuery (tableName : string) (columns : ColumnMap)
  : string :=
  let q0 := "CREATE TABLE " +:+ dquote +:+ tableName +:+ dquote +:+ " (" in
  let '(q1, primaryKeys) := appendColumns (values columns) q0 [] 0 in
  let q2 := if (0 <? length primaryKeys)%nat then q1 +:+ ", PRIMARY KEY ("
            else q1 in
  let q3 := appendKeys primaryKeys q2 0 in
  let q4 := if (0 <? length primaryKeys)%nat then q3 +:+ ")" else q3 in
  q4 +:+ ") STRICT".

(** *** The failures of [init] *)

Inductive CacheDbFailureDetail : Type :=
| CacheDbPathFailure (dbParentDirectory : string) (failureDetail : Error)
| CacheDbConnectionFailure (dbPath : string) (failureDetail : Error)
| CacheDbQueryFailure (dbPath : string) (query : string) (failureDetail : Error)
| CacheDbResultSchemaFailure (dbPath : string) (failureDetail : ZodError).

Inductive CacheDbInitFailure : Type :=
| MkCacheDbInitFailure (failureDetail : CacheDbFailureDetail).

(** *** The object and the world around it *)

(** An open [Database] handle. *)
Inductive Connection : Type := Handle (path : string).

(** The fields of a [DefaultCacheDb] that change or differ between objects. *)
Record DefaultCacheDb : Type := mkCacheDb {
  connection : option Connection;
  dbPath : string
}.

(** What the process runs against: how the promise of [FileSystem.mkdir]
    settles, whether opening the database throws, and the database at
    [dbPath] (an absent file is the empty database, which [create: true]
    makes of it). *)
Record World : Type := mkWorld {
  mkdirRejection : option Error;
  openError : option Error;
  database : Database
}.

Definition withDatabase (db : Database) (w : World) : World :=
  {| mkdirRejection := mkdirRejection w; openError := openError w;
     database := db |}.

Inductive Promise (A : Type) : Type :=
| Fulfilled (a : A)
| Rejected (e : Error).
Arguments Fulfilled {A} a.
Arguments Rejected {A} e.

(** *** Statements, early [return] and [throw]

    A method body runs on the object and the world and either goes on to the
    next statement, returns to the caller, or throws. *)

Inductive Flow (R A : Type) : Type :=
| Next (a : A)
| Return (r : R)
| Throw (e : Error).
Arguments Next {R A} a.
Arguments Return {R A} r.
Arguments Throw {R A} e.

Definition M (R A : Type) : Type :=
  DefaultCacheDb * World -> Flow R A * (DefaultCacheDb * World).

Definition pure {R A} (a : A) : M R A := fun s => (Next a, s).

Definition bind {R A B} (m : M R A) (k : A -> M R B) : M R B :=
  fun s =>
    match m s with
    | (Next a, s') => k a s'
    | (Return r, s') => (Return r, s')
    | (Throw e, s') => (Throw e, s')
    end.

Definition return_ {R A} (r : R) : M R A := fun s => (Return r, s).

Definition throw {R A} (e : Error) : M R A := fun s => (Throw e, s).

(** [try { body } catch (error) { handler }] *)
Definition tryCatch {R A} (body : M R A) (handler : Error -> M R A) : M R A :=
  fun s =>
    match body s with
    | (Throw e, s') => handler e s'
    | other => other
    end.

#[export] Instance M_bind {R} : MBind (M R) := fun A B k m => bind m k.
#[export] Instance M_ret {R} : MRet (M R) := fun A a => pure a.

Definition thisDbPath {R} : M R string := fun s => (Next (dbPath (fst s)), s).

Definition thisConnection {R} : M R (option Connection) :=
  fun s => (Next (connection (fst s)), s).

Definition setConnection {R} (c : Connection) : M R unit :=
  fun s => (Next tt, (mkCacheDb (Some c) (dbPath (fst s)), snd s)).

(** [FileSystem.mkdir] of [fs/promises]: it hands back a promise and does not
    throw; a failure to create the directory is the rejection of that
    promise. *)
Definition mkdir {R} (path : string) : M R (Promise unit) :=
  fun s =>
    (Next (match mkdirRejection (snd s) with
           | None => Fulfilled tt
           | Some e => Rejected e
           end), s).

(** [new Database(path, { create: true })] *)
Definition newDatabase {R} (path : string) : M R Connection :=
  fun s =>
    match openError (snd s) with
    | Some e => (Throw e, s)
    | None => (Next (Handle path), s)
    end.

(** [this.connection.run(query)] *)
Definition connectionRun {R} (query : string) : M R unit :=
  fun s =>
    match connection (fst s) with
    | None => (Throw (MkError "TypeError: null is not an object"), s)
    | Some _ =>
        match Sqlite.run query (database (snd s)) with
        | (inl e, db) => (Throw e, (fst s, withDatabase db (snd s)))
        | (inr _, db) => (Next tt, (fst s, withDatabase db (snd s)))
        end
    end.

(** [this.connection.prepare(query)] and [all()] on the statement *)
Definition connectionAll {R} (query : string) : M R (list RawRow) :=
  fun s =>
    match connection (fst s) with
    | None => (Throw (MkError "TypeError: null is not an object"), s)
    | Some _ =>
        match Sqlite.all query (database (snd s)) with
        | (inl e, db) => (Throw e, (fst s, withDatabase db (snd s)))
        | (inr rows, db) => (Next rows, (fst s, withDatabase db (snd s)))
        end
    end.

(** [Path.dirname], for a path with no trailing separator. *)
Fixpoint beforeLastSlash (s : string) : option string :=
  match s with
  | EmptyString => None
  | String c rest =>
      match beforeLastSlash rest with
      | Some d => Some (String c d)
      | None => if (nat_of_ascii c =? 47)%nat then Some EmptyString else None
      end
  end.

Definition dirname (path : string) : string :=
  match beforeLastSlash path with
  | None => "."
  | Some d => if String.eqb d EmptyString then "/" else d
  end.

Definition queryFailure {A} (dbPath query : string) (error : Error)
  : M (Result unit CacheDbInitFailure) A :=
  return_ (Failure (MkCacheDbInitFailure
                      (CacheDbQueryFailure dbPath query error))).

Definition schemaFailure {A} (dbPath : string) (error : ZodError)
  : M (Result unit CacheDbInitFailure) A :=
  return_ (Failure (MkCacheDbInitFailure
                      (CacheDbResultSchemaFailure dbPath error))).

(** [createFsTable] and [createEntriesTable]: whether the table is to be
    created, from its parsed introspection. *)
Definition createTable (expectedColumns : ColumnMap) (data : SqliteSchema)
  : bool :=
  if (length data =? 0)%nat then true
  else negb (columnsMatch expectedColumns data).

(** The body of [DefaultCacheDb.init], statement by statement. *)
Definition initBody
  : M (Result unit CacheDbInitFailure) (Result unit CacheDbInitFailure) :=
  dbPath ← thisDbPath;
  (* Create containing directory if it doesn't exist *)
  let parentDirectory := dirname dbPath in
  tryCatch
    (_ ← mkdir parentDirectory; pure tt)
    (fun error =>
       return_ (Failure (MkCacheDbInitFailure
                           (CacheDbPathFailure parentDirectory error)))) ;;
  (* Create connection to SQLite database *)
  current ← thisConnection;
  match current with
  | Some _ =>
      throw (MkError ("CacheDb has already been initialized (db path: "
                      +:+ dbPath +:+ ")."))
  | None => pure tt
  end ;;
  tryCatch
    (c ← newDatabase dbPath; setConnection c)
    (fun error =>
       return_ (Failure (MkCacheDbInitFailure
                           (CacheDbConnectionFailure dbPath error)))) ;;
  (* Set up connection *)
  connectionRun "PRAGMA journal_mode=WAL" ;;
  (* Validate the FileShares table if it exists *)
  let fsSchemaQuery := "PRAGMA table_info(FileShares)" in
  fsSchemaQueryResult ←
    tryCatch (connectionAll fsSchemaQuery)
      (queryFailure dbPath fsSchemaQuery);
  parsedFsSchema ←
    match safeParse fsSchemaQueryResult with
    | Failure error => schemaFailure dbPath error
    | Success data => pure data
    end;
  let createFsTable := createTable fileSharesColumns parsedFsSchema in
  (if createFsTable then
     let dropFsTableQuery := "DROP TABLE IF EXISTS FileShares" in
     tryCatch (connectionRun dropFsTableQuery)
       (queryFailure dbPath dropFsTableQuery) ;;
     let dropEntriesTableQuery := "DROP TABLE IF EXISTS FileSystemEntries" in
     tryCatch (connectionRun dropEntriesTableQuery)
       (queryFailure dbPath dropFsTableQuery) ;;
     let createFsTableQuery :=
       buildCreateTableQuery "FileShares" fileSharesColumns in
     tryCatch (connectionRun createFsTableQuery)
       (queryFailure dbPath createFsTableQuery)
   else pure tt) ;;
  (* Validate the FileSystemEntries table if it exists *)
  let entriesSchemaQuery := "PRAGMA table_info(FileSystemEntries)" in
  entriesSchemaQueryResult ←
    tryCatch (connectionAll entriesSchemaQuery)
      (queryFailure dbPath entriesSchemaQuery);
  parsedEntriesSchema ←
    match safeParse entriesSchemaQueryResult with
    | Failure error => schemaFailure dbPath error
    | Success data => pure data
    end;
  let createEntriesTable :=
    createTable fileSystemEntriesColumns parsedEntriesSchema in
  (if createEntriesTable then
     let dropEntriesTableQuery := "DROP TABLE IF EXISTS FileSystemEntries" in
     tryCatch (connectionRun dropEntriesTableQuery)
       (queryFailure dbPath dropEntriesTableQuery) ;;
     let createEntriesTblQuery :=
       buildCreateTableQuery "FileSystemEntries" fileSystemEntriesColumns in
     tryCatch (connectionRun createEntriesTblQuery)
       (queryFailure dbPath createEntriesTblQuery)
   else pure tt) ;;
  pure (Success tt).

(** How a call ends for the caller: with the value returned, or with the
    exception thrown. *)
Inductive Outcome (R : Type) : Type :=
| Returned (r : R)
| Thrown (e : Error).
Arguments Returned {R} r.
Arguments Thrown {R} e.

(** [DefaultCacheDb.init]: the outcome of the call, the object and the world
    afterwards. *)
Definition init (this : DefaultCacheDb) (w : World)
  : Outcome (Result unit CacheDbInitFailure) * DefaultCacheDb * World :=
  match initBody (this, w) with
  | (Next r, (this', w')) => (Returned r, this', w')
  | (Return r, (this', w')) => (Returned r, this', w')
  | (Throw e, (this', w')) => (Thrown e, this', w')
  end.

(** The process environment the constructor reads. *)
Record Os : Type := mkOs {
  platform : string;
  LOCALAPPDATA : option string;
  homedir : string
}.

(** [Path.join] of a base path and two names, with the separator of the
    platform. *)
Definition join3 (os : Os) (a b c : string) : string :=
  let sep := if String.eqb (platform os) "win32" then "\" else "/" in
  a +:+ sep +:+ b +:+ sep +:+ c.

(** [new DefaultCacheDb(dbPath?)] *)
Definition constructor (os : Os) (dbPath : option string) : DefaultCacheDb :=
  let path :=
    match dbPath with
    | Some p => p
    | None =>
        let basePath :=
          match String.eqb (platform os) "win32", LOCALAPPDATA os with
          | true, Some dir => dir
          | _, _ => homedir os
          end in
        join3 os basePath ".recursiveSearch" "cache.db"
    end in
  {| connection := None; dbPath := path |}.

(** *** Descriptions used in the statements *)

(** The column the first loop of [columnsMatch] makes of a row. *)
Definition foundColumn (row : SchemaRow) (ty : SqliteDataType) : SqliteColumn :=
  {| name := row_name row; type := ty; nullable := negb (row_notnull row);
     primaryKey := toBoolean (Number (row_pk row)) |}.

(** What the first loop accepts of a row: it has a type and, when the
    expected set knows its name, the expected type and nullability; when it
    does not, the row is nullable. *)
Definition accepted (expected : ColumnMap) (row : SchemaRow) : Prop :=
  exists ty,
    row_type row = Some ty
    /\ match get expected (row_name row) with
       | None => row_notnull row = false
       | Some e => type e = ty /\ nullable e = negb (row_notnull row)
       end.

(** The keys of a map literal are the names of its columns, each once. *)
Definition keyedByName (m : ColumnMap) : Prop :=
  Forall (fun kv => fst kv = name (snd kv)) m /\ List.NoDup (map fst m).

(** A table [init] takes as to be created: there is none, or its
    introspection validates and [columnsMatch] rejects it. *)
Definition Dirty (expected : ColumnMap) (table : string) (db : Database)
  : Prop :=
  tables db !! table = None
  \/ exists schema,
       safeParse (tableInfo table db) = Success schema
       /\ columnsMatch expected schema = false.

(** A table [init] leaves alone. *)
Definition Clean (expected : ColumnMap) (table : string) (db : Database)
  : Prop :=
  exists schema,
    safeParse (tableInfo table db) = Success schema
    /\ schema <> []
    /\ columnsMatch expected schema = true.

(** *** Descriptions used in the statements about every row and every path
    of [init] *)

(** A row of the introspection with another value of [pk]. *)
Definition withPk (pk : Z) (row : SchemaRow) : SchemaRow :=
  {| row_cid := row_cid row; row_name := row_name row; row_type := row_type row;
     row_notnull := row_notnull row; row_dflt_value := row_dflt_value row;
     row_pk := pk |}.

(** Two found columns that agree but for the primary-key flag. *)
Definition sameButKey (a b : SqliteColumn) : Prop :=
  name a = name b /\ type a = type b /\ nullable a = nullable b.

(** A triple for a method body: from a state that satisfies [P], the body
    goes on in a state that satisfies [QN], returns in one that satisfies
    [QR], or throws in one that satisfies [QT]. *)
Definition hoare {R A} (P : DefaultCacheDb * World -> Prop) (m : M R A)
    (QN : A -> DefaultCacheDb * World -> Prop)
    (QR : R -> DefaultCacheDb * World -> Prop)
    (QT : Error -> DefaultCacheDb * World -> Prop) : Prop :=
  forall s, P s ->
    match m s with
    | (Next a, s') => QN a s'
    | (Return r, s') => QR r s'
    | (Throw e, s') => QT e s'
    end.

(** What [init] leaves as it is in the world: how promises and opening
    behave, what the engine refuses, the statements submitted before, and
    every table but its two. *)
Definition Frame (w0 w : World) : Prop :=
  mkdirRejection w = mkdirRejection w0
  /\ openError w = openError w0
  /\ rejects (database w) = rejects (database w0)
  /\ history (database w0) `prefix_of` history (database w)
  /\ forall t, t <> "FileShares" -> t <> "FileSystemEntries" ->
               tables (database w) !! t = tables (database w0) !! t.

(** The statements that name no table but the two of the store. *)
Definition ownStatement (st : Statement) : Prop :=
  match st with
  | DropTableIfExists t | CreateTable t _ _ _ =>
      t = "FileShares" \/ t = "FileSystemEntries"
  | _ => True
  end.

(** The state of [init] once the connection is open. *)
Definition Opened (this0 : DefaultCacheDb) (w0 : World)
    (s : DefaultCacheDb * World) : Prop :=
  connection (fst s) = Some (Handle (dbPath this0))
  /\ dbPath (fst s) = dbPath this0
  /\ Frame w0 (snd s).

(** The statement submitted last. *)
Definition lastQuery (s : DefaultCacheDb * World) : option string :=
  last (history (database (snd s))).

(** What the result returned by [init] says, against what happened: a
    success, that the store opened, the three statements that look at it were
    accepted and both tables are clean; a query failure, the path of the
    store and the statement submitted last, but for the failure to drop
    FileSystemEntries in the reset of FileShares, which names the statement
    before it; a failure of the schema of a result, the path and one of the
    two introspections; a connection failure, the path and the error of
    opening, with nothing submitted. A path failure is never returned. *)
Definition Reported (this0 : DefaultCacheDb) (w0 : World)
    (r : Result unit CacheDbInitFailure) (s : DefaultCacheDb * World) : Prop :=
  match r with
  | Success _ =>
      connection (fst s) = Some (Handle (dbPath this0))
      /\ openError w0 = None
      /\ rejects (database w0) "PRAGMA journal_mode=WAL" = false
      /\ rejects (database w0) "PRAGMA table_info(FileShares)" = false
      /\ rejects (database w0) "PRAGMA table_info(FileSystemEntries)" = false
      /\ Clean fileSharesColumns "FileShares" (database (snd s))
      /\ Clean fileSystemEntriesColumns "FileSystemEntries"
           (database (snd s))
  | Failure (MkCacheDbInitFailure (CacheDbQueryFailure path query _)) =>
      connection (fst s) = Some (Handle (dbPath this0))
      /\ path = dbPath this0
      /\ (lastQuery s = Some query
          \/ (query = "DROP TABLE IF EXISTS FileShares"
              /\ lastQuery s = Some "DROP TABLE IF EXISTS FileSystemEntries"))
  | Failure (MkCacheDbInitFailure (CacheDbResultSchemaFailure path _)) =>
      connection (fst s) = Some (Handle (dbPath this0))
      /\ path = dbPath this0
      /\ (lastQuery s = Some "PRAGMA table_info(FileShares)"
          \/ lastQuery s = Some "PRAGMA table_info(FileSystemEntries)")
  | Failure (MkCacheDbInitFailure (CacheDbConnectionFailure path e)) =>
      connection (fst s) = None
      /\ path = dbPath this0 /\ openError w0 = Some e
      /\ history (database (snd s)) = history (database w0)
  | Failure (MkCacheDbInitFailure (CacheDbPathFailure _ _)) => False
  end.

(** The text of one column in a [CREATE TABLE] statement. *)
Definition columnText (c : SqliteColumn) : string :=
  dquote +:+ name c +:+ dquote +:+ " " +:+ typeText (type c)
  +:+ (if nullable c then EmptyString else " NOT NULL").

(** The clause of the primary key, when there is one. *)
Definition keyClause (keys : list string) : list string :=
  match keys with
  | [] => []
  | _ => [ "PRIMARY KEY ("
           +:+ String.concat ", " (map (fun k => dquote +:+ k +:+ dquote) keys)
           +:+ ")" ]
  end.

End CacheDb.

(** ** The command line ([index.ts], region CLI logic) *)

Module Cli.

Import Js Sqlite CacheDb.

(** *** Regular expressions

    The patterns of the schemas, matched the way a backtracking engine does:
    [matchHere r s k] tries [r] at the head of [s] and hands what is left to
    the continuation [k]. Both patterns start with [^], so a match is tried
    at the first character only; [Eos] is [$]. *)

Inductive Regex : Type :=
| Class (ranges : list (ascii * ascii))
| Lit (c : ascii)
| Alt (r1 r2 : Regex)
| Seq (r1 r2 : Regex)
| Repeat (r : Regex) (min max : nat)
| NotFollowedBy (r : Regex)
| Eos.

Definition inRange (c : ascii) (range : ascii * ascii) : bool :=
  ((nat_of_ascii (fst range) <=? nat_of_ascii c)
   && (nat_of_ascii c <=? nat_of_ascii (snd range)))%nat.

Fixpoint exactly (m : string -> (string -> bool) -> bool) (n : nat)
    (s : string) (k : string -> bool) : bool :=
  match n with
  | O => k s
  | S n' => m s (fun s' => exactly m n' s' k)
  end.

Fixpoint upTo (m : string -> (string -> bool) -> bool) (n : nat)
    (s : string) (k : string -> bool) : bool :=
  match n with
  | O => k s
  | S n' => if m s (fun s' => upTo m n' s' k) then true else k s
  end.

Fixpoint matchHere (r : Regex) (s : string) (k : string -> bool) : bool :=
  match r with
  | Class ranges =>
      match s with
      | String c rest => if existsb (inRange c) ranges then k rest else false
      | EmptyString => false
      end
  | Lit c =>
      match s with
      | String c' rest => if Ascii.eqb c c' then k rest else false
      | EmptyString => false
      end
  | Alt r1 r2 => if matchHere r1 s k then true else matchHere r2 s k
  | Seq r1 r2 => matchHere r1 s (fun s' => matchHere r2 s' k)
  | Repeat r' min max =>
      exactly (matchHere r') min s
        (fun s' => upTo (matchHere r') (max - min) s' k)
  | NotFollowedBy r' => if matchHere r' s (fun _ => true) then false else k s
  | Eos => match s with EmptyString => k s | _ => false end
  end.

(** [RegExp.prototype.test] for a pattern that starts with [^]. *)
Definition test (r : Regex) (s : string) : bool :=
  matchHere r s (fun _ => true).

Definition lower : Regex := Class [("a", "z")]%char.
Definition digit : Regex := Class [("0", "9")]%char.

(** [/^([a-z]|[0-9])([a-z]|[0-9]|(-(?!-))){1,61}([a-z]|[0-9])$/] *)
Definition fileShareRegex : Regex :=
  Seq (Alt lower digit)
    (Seq (Repeat
            (Alt lower (Alt digit (Seq (Lit "-") (NotFollowedBy (Lit "-")))))
            1 61)
       (Seq (Alt lower digit) Eos)).

(** [/^[a-z0-9]{3,24}$/] *)
Definition storageAccountRegex : Regex :=
  Seq (Repeat (Class [("a", "z"); ("0", "9")]%char) 3 24) Eos.

(** *** The schemas *)

(** [searchScopeSchema] *)
Inductive SearchScope : Type := Both | FileShare | FileShareSnapshots.

(** [matchBehaviorSchema] *)
Inductive MatchBehavior : Type := End_ | ScopeEnd | Continue.

Definition parseSearchScope (s : string) : option SearchScope :=
  if String.eqb s "Both" then Some Both
  else if String.eqb s "FileShare" then Some FileShare
  else if String.eqb s "FileShareSnapshots" then Some FileShareSnapshots
  else None.

Definition parseMatchBehavior (s : string) : option MatchBehavior :=
  if String.eqb s "End" then Some End_
  else if String.eqb s "ScopeEnd" then Some ScopeEnd
  else if String.eqb s "Continue" then Some Continue
  else None.

(** The options object commander hands to the action: every option of the
    command takes a value and is either required or has a default, so each
    property is a string. *)
Record Options : Type := mkOptions {
  opt_subscription : string;
  opt_resourceGroup : string;
  opt_storageAccount : string;
  opt_fileShare : string;
  opt_targetItem : string;
  opt_searchScope : string;
  opt_matchBehavior : string
}.

(** [z.infer<typeof searchArgsSchema>] *)
Record SearchArgs : Type := mkSearchArgs {
  subscription : string;
  resourceGroup : string;
  storageAccount : string;
  fileShare : string;
  targetItem : string;
  searchScope : SearchScope;
  matchBehavior : MatchBehavior
}.

(** [String.prototype.length]. A JavaScript string is held here as the
    bytes of its UTF-8 encoding, and its length is the number of its UTF-16
    code units: one for a character of the basic plane, which takes one, two
    or three bytes, and two for a character beyond it, which takes four. A
    byte that continues a sequence counts for nothing. *)
Definition codeUnits (c : ascii) : nat :=
  let n := nat_of_ascii c in
  if (n <? 128)%nat then 1%nat
  else if (n <? 192)%nat then 0%nat
  else if (n <? 240)%nat then 1%nat
  else 2%nat.

Fixpoint utf16Length (s : string) : nat :=
  match s with
  | EmptyString => 0%nat
  | String c rest => (codeUnits c + utf16Length rest)%nat
  end.

Section Schema.

(** [z.string().uuid()] is zod's; what it accepts is left open. *)
Variable isUuid : string -> bool.

(** The properties of [searchArgsSchema] that do not validate, in the order
    of the schema. [min] and [max] compare the length of the string, in
    UTF-16 code units. [targetItem] is [z.string()]: every string
    validates. *)
Definition issues (args : Options) : list string :=
  (if isUuid (opt_subscription args) then [] else ["subscription"])
  ++ (if ((1 <=? utf16Length (opt_resourceGroup args))
          && (utf16Length (opt_resourceGroup args) <=? 90))%nat
      then [] else ["resourceGroup"])
  ++ (if test storageAccountRegex (opt_storageAccount args)
      then [] else ["storageAccount"])
  ++ (if test fileShareRegex (opt_fileShare args) then [] else ["fileShare"])
  ++ (match parseSearchScope (opt_searchScope args) with
      | Some _ => [] | None => ["searchScope"] end)
  ++ (match parseMatchBehavior (opt_matchBehavior args) with
      | Some _ => [] | None => ["matchBehavior"] end).

(** [searchArgsSchema.safeParse] *)
Definition safeParseArgs (args : Options) : Result SearchArgs (list string) :=
  match issues args,
        parseSearchScope (opt_searchScope args),
        parseMatchBehavior (opt_matchBehavior args) with
  | [], Some scope, Some behavior =>
      Success (mkSearchArgs (opt_subscription args) (opt_resourceGroup args)
                 (opt_storageAccount args) (opt_fileShare args)
                 (opt_targetItem args) scope behavior)
  | errors, _, _ => Failure errors
  end.

(** What [console.error(JSON.stringify(...))] prints. *)
Inductive ErrorPayload : Type :=
| ArgsError (error : list string)
| InitError (error : CacheDbInitFailure).

(** How the action ends: [process.exit(1)] after a line on the error stream,
    an exception nobody catches, or the end of its body. *)
Inductive ActionEnd : Type :=
| Exited (code : Z) (stderr : ErrorPayload)
| Uncaught (e : Error)
| Completed.

(** The action of the [search] command. The world is what it was when the
    arguments do not validate: nothing is opened or queried before that. *)
Definition action (os : Os) (args : Options) (w : World)
  : ActionEnd * World :=
  match safeParseArgs args with
  | Failure error => (Exited 1 (ArgsError error), w)
  | Success searchArgs =>
      let cacheDb := constructor os None in
      match init cacheDb w with
      | (Thrown e, _, w') => (Uncaught e, w')
      | (Returned (Failure error), _, w') => (Exited 1 (InitError error), w')
      | (Returned (Success _), _, w') => (Completed, w')
      end
  end.

End Schema.

(** *** Descriptions used in the statements about the patterns *)

Definition lowerOrDigit (c : ascii) : bool :=
  existsb (inRange c) [("a", "z"); ("0", "9")]%char.

Definition isHyphen (c : ascii) : bool := Ascii.eqb "-" c.

Definition firstIs (f : ascii -> bool) (s : string) : bool :=
  match s with
  | String c _ => f c
  | EmptyString => false
  end.

Fixpoint lastIs (f : ascii -> bool) (s : string) : bool :=
  match s with
  | EmptyString => false
  | String c EmptyString => f c
  | String _ rest => lastIs f rest
  end.

Fixpoint allChars (f : ascii -> bool) (s : string) : bool :=
  match s with
  | EmptyString => true
  | String c rest => if f c then allChars f rest else false
  end.

Fixpoint noDoubleHyphen (s : string) : bool :=
  match s with
  | EmptyString => true
  | String c rest =>
      if isHyphen c && firstIs isHyphen rest then false
      else noDoubleHyphen rest
  end.

(** The names the pattern of [fileShare] is written for: 3 to 63 characters,
    lower case letters, digits and hyphens, a letter or digit first and
    last, and no two hyphens in a row. *)
Definition shareNameShape (s : string) : bool :=
  (3 <=? String.length s)%nat && (String.length s <=? 63)%nat
  && firstIs lowerOrDigit s && lastIs lowerOrDigit s
  && allChars (fun c => lowerOrDigit c || isHyphen c) s
  && noDoubleHyphen s.

(** The names the pattern of [storageAccount] is written for. *)
Definition accountNameShape (s : string) : bool :=
  (3 <=? String.length s)%nat && (String.length s <=? 24)%nat
  && allChars lowerOrDigit s.

(** What is left of [s] after [n] characters that each pass [step], which
    sees the character and what follows it. *)
Fixpoint steps (step : ascii -> string -> bool) (n : nat) (s : string)
  : option string :=
  match n with
  | O => Some s
  | S n' =>
      match s with
      | String c rest => if step c rest then steps step n' rest else None
      | EmptyString => None
      end
  end.

(** The step of the middle part of the share name pattern: a letter, a
    digit, or a hyphen that no hyphen follows. *)
Definition middle (c : ascii) (rest : string) : bool :=
  lowerOrDigit c || (isHyphen c && negb (firstIs isHyphen rest)).

End Cli.

(** ** The PowerShell script ([recursiveSearch.ps1]) *)

Module Script.

(** [-SearchScope], a [ValidateSet]. *)
Inductive SearchScope : Type := FileShare | FileShareSnapshots | Both.

(** [-MatchBehavior], a [ValidateSet]. *)
Inductive MatchBehavior : Type := End_ | ScopeEnd | Continue.

(** The parameters of the script. *)
Record Params : Type := mkParams {
  ResourceGroupName : string;
  StorageAccountName : string;
  FileShareName : string;
  TargetItemName : string;
  SearchScope_ : SearchScope;
  MatchBehavior_ : MatchBehavior
}.

(** A [System.Uri] of the data plane: [UriBuilder] edits the path and keeps
    the rest (a snapshot is told apart by its query). *)
Module Uri.
Record t : Type := mk {
  Authority : string;
  Path : string;
  Query : string
}.
End Uri.

(** An element of [GetFilesAndDirectories()]. *)
Module DirItem.
Record t : Type := mk {
  Name : string;
  IsDirectory : bool
}.
End DirItem.

(** An element of [Get-AzStorageShare]: the properties the script reads.
    [SnapshotTime] is counted in ticks and is null for the live share. *)
Module Share.
Record t : Type := mk {
  Name : string;
  IsDeleted : bool;
  IsSnapshot : bool;
  SnapshotTime : option Z;
  Uri : Uri.t
}.
End Share.

(** [StorageSharedKeyCredential] *)
Record StorageSharedKeyCredential : Type := mkCredential {
  AccountName : string;
  AccountKey : string
}.

(** A storage account as [Get-AzStorageAccount] returns it, with what the
    cmdlets piped from it give: [Keys] is [None] when
    [Get-AzStorageAccountKey] throws. *)
Record StorageAccount : Type := mkStorageAccount {
  AccountResourceGroup : string;
  Account : string;
  AllowSharedKeyAccess : option bool;
  Keys : option (list (string * string));
  Shares : list Share.t
}.

(** What the cmdlets answer from: the signed in context, the resource groups
    and storage accounts of the subscription, and the directories of the data
    plane. *)
Record Azure : Type := mkAzure {
  Context : option string;
  ResourceGroups : list string;
  StorageAccounts : list StorageAccount;
  GetFilesAndDirectories : Uri.t -> list DirItem.t
}.

(** The terminating errors, one for each [Write-Error -ErrorAction Stop]. *)
Inductive ScriptError : Type :=
| NotConnected
| ResourceGroupNotFound
| StorageAccountNotFound
| SharedKeyDisabled
| SharedKeyUnavailable
| FileShareNotFound
| NoFileShareSnapshots.

(** The object the script writes for a match. *)
Record Match : Type := mkMatch {
  m_ResourceGroupName : string;
  m_StorageAccountName : string;
  m_FileShareName : string;
  m_SnapshotTime : option Z;
  m_Path : string
}.

(** The lines of the verbose and debug streams of the traversal. *)
Inductive Message : Type :=
| Enumerating (endpointUri : Uri.t)
| EnumeratingDirectory (currentUri : Uri.t)
| Item (path : string).

Section WithEq.

(** PowerShell's [-eq] on strings, which does not tell case apart. The script
    is modelled for any comparison. *)
Variable eq : string -> string -> bool.

(** *** Scope resolution (lines 196 to 237) *)

(** Order of [SnapshotTime] values, null below every time. *)
Definition timeLeb (a b : option Z) : bool :=
  match a, b with
  | None, _ => true
  | Some _, None => false
  | Some x, Some y => x <=? y
  end.

(** [Sort-Object -Property SnapshotTime -Descending], as a stable insertion
    sort. *)
Fixpoint insertDescending (s : Share.t) (sorted : list Share.t)
  : list Share.t :=
  match sorted with
  | [] => [s]
  | x :: rest =>
      if timeLeb (Share.SnapshotTime x) (Share.SnapshotTime s)
      then s :: x :: rest
      else x :: insertDescending s rest
  end.

Fixpoint sortDescending (l : list Share.t) : list Share.t :=
  match l with
  | [] => []
  | s :: rest => insertDescending s (sortDescending rest)
  end.

Definition startsWith (pre s : string) : bool := String.prefix pre s.

(** [Get-AzStorageShare -Context ... -Prefix $FileShareName] *)
Definition GetAzStorageShare (account : StorageAccount) (prefix : string)
  : list Share.t :=
  List.filter (fun s => startsWith prefix (Share.Name s)) (Shares account).

(** [$fileSharesMatchingName], the [Tee-Object] variable. *)
Definition fileSharesMatchingName (account : StorageAccount) (p : Params)
  : list Share.t :=
  List.filter
    (fun s => eq (Share.Name s) (FileShareName p) && negb (Share.IsDeleted s))
    (GetAzStorageShare account (FileShareName p)).

(** [$fileShare] *)
Definition fileShare (account : StorageAccount) (p : Params) : list Share.t :=
  List.filter (fun s => negb (Share.IsSnapshot s))
    (fileSharesMatchingName account p).

(** [$fileShareSnapshots] *)
Definition fileShareSnapshots (account : StorageAccount) (p : Params)
  : list Share.t :=
  sortDescending
    (List.filter Share.IsSnapshot (fileSharesMatchingName account p)).

(** [$targetScopes], or the error that stops the script. An empty pipeline
    result is [$null]. *)
Definition targetScopes (account : StorageAccount) (p : Params)
  : ScriptError + list Share.t :=
  match fileShare account p with
  | [] => inl FileShareNotFound
  | live =>
      let scopes :=
        match SearchScope_ p with
        | FileShare | Both => [] ++ live
        | FileShareSnapshots => []
        end in
      match SearchScope_ p with
      | FileShare => inr scopes
      | FileShareSnapshots =>
          match fileShareSnapshots account p with
          | [] => inl NoFileShareSnapshots
          | snapshots => inr (scopes ++ snapshots)
          end
      | Both =>
          match fileShareSnapshots account p with
          | [] => inr scopes
          | snapshots => inr (scopes ++ snapshots)
          end
      end
  end.

(** *** The checks before (lines 113 to 193) and the credential (line 241) *)

(** [$key]: the value of the key named key1. *)
Definition key1 (account : StorageAccount) : option string :=
  match Keys account with
  | None => None
  | Some keys =>
      match List.filter (fun kv => eq (fst kv) "key1") keys with
      | [] => None
      | kv :: _ => Some (snd kv)
      end
  end.

(** [$sharedKeyCred] *)
Definition sharedKeyCred (key : string) : StorageSharedKeyCredential :=
  {| AccountName := "wgriesmfsressa2"; AccountKey := key |}.

(** Everything up to the traversal: the scopes to search and the credential
    the directory clients are made with. *)
Definition prepare (az : Azure) (p : Params)
  : ScriptError + (list Share.t * StorageSharedKeyCredential) :=
  match Context az with
  | None => inl NotConnected
  | Some _ =>
      match List.filter (fun g => eq g (ResourceGroupName p))
              (ResourceGroups az) with
      | [] => inl ResourceGroupNotFound
      | _ =>
          match List.filter
                  (fun a => eq (AccountResourceGroup a) (ResourceGroupName p)
                            && eq (Account a) (StorageAccountName p))
                  (StorageAccounts az) with
          | [] => inl StorageAccountNotFound
          | storageAccount :: _ =>
              match AllowSharedKeyAccess storageAccount with
              | Some true =>
                  match key1 storageAccount with
                  | None => inl SharedKeyUnavailable
                  | Some key =>
                      match targetScopes storageAccount p with
                      | inl e => inl e
                      | inr scopes => inr (scopes, sharedKeyCred key)
                      end
                  end
              | _ => inl SharedKeyDisabled
              end
          end
      end
  end.

(** *** The traversal (lines 243 to 303) *)

(** The variables of the loops and the streams written so far. *)
Record Engine : Type := mkEngine {
  queue : list string;
  shouldBreak : bool;
  output : list Match;
  messages : list Message
}.

(** [$uriBuilder.Path += $dirPath] *)
Definition currentUri (endpointUri : Uri.t) (dirPath : string) : Uri.t :=
  {| Uri.Authority := Uri.Authority endpointUri;
     Uri.Path := Uri.Path endpointUri +:+ dirPath;
     Uri.Query := Uri.Query endpointUri |}.

Section Traversal.

Variable az : Azure.
Variable p : Params.

(** The [foreach ($dirItem in $dirEnum)] loop over what is left of the
    listing of [dirPath]. *)
Fixpoint forEachDirItem (targetScope : Share.t) (dirPath : string)
    (dirEnum : list DirItem.t) (st : Engine) : Engine :=
  match dirEnum with
  | [] => st
  | dirItem :: rest =>
      let path := dirPath +:+ DirItem.Name dirItem in
      let st1 :=
        {| queue := queue st; shouldBreak := shouldBreak st;
           output := output st; messages := messages st ++ [Item path] |} in
      let enqueue (s : Engine) : Engine :=
        if DirItem.IsDirectory dirItem
        then {| queue := queue s ++ [path +:+ "/"];
                shouldBreak := shouldBreak s;
                output := output s; messages := messages s |}
        else s in
      if eq (DirItem.Name dirItem) (TargetItemName p) then
        let obj :=
          {| m_ResourceGroupName := ResourceGroupName p;
             m_StorageAccountName := StorageAccountName p;
             m_FileShareName := FileShareName p;
             m_SnapshotTime := Share.SnapshotTime targetScope;
             m_Path := path |} in
        let st2 :=
          {| queue := queue st1; shouldBreak := shouldBreak st1;
             output := output st1 ++ [obj]; messages := messages st1 |} in
        match MatchBehavior_ p with
        | End_ =>
            {| queue := []; shouldBreak := true;
               output := output st2; messages := messages st2 |}
        | ScopeEnd =>
            forEachDirItem targetScope dirPath rest
              (enqueue {| queue := queue st2; shouldBreak := true;
                          output := output st2; messages := messages st2 |})
        | Continue =>
            forEachDirItem targetScope dirPath rest (enqueue st2)
        end
      else forEachDirItem targetScope dirPath rest (enqueue st1)
  end.

(** One turn of [while ($queue.Count -gt 0)], for the path at the head of the
    queue. *)
Definition whileBody (targetScope : Share.t) (dirPath : string)
    (st : Engine) : Engine :=
  let uri := currentUri (Share.Uri targetScope) dirPath in
  let dirEnum := GetFilesAndDirectories az uri in
  forEachDirItem targetScope dirPath dirEnum
    {| queue := queue st; shouldBreak := shouldBreak st;
       output := output st;
       messages := messages st ++ [EnumeratingDirectory uri] |}.

(** A run that is cut after [fuel] directories is [Cut]; the remote tree is
    not known to be finite. *)
Inductive Run : Type :=
| Finished (st : Engine)
| Cut (st : Engine).

Definition state (r : Run) : Engine :=
  match r with Finished st | Cut st => st end.

(** The [while] loop. *)
Fixpoint whileQueue (fuel : nat) (targetScope : Share.t) (st : Engine) : Run :=
  match queue st with
  | [] => Finished st
  | dirPath :: rest =>
      match fuel with
      | O => Cut st
      | S fuel' =>
          whileQueue fuel' targetScope
            (whileBody targetScope dirPath
               {| queue := rest; shouldBreak := shouldBreak st;
                  output := output st; messages := messages st |})
      end
  end.

(** The first statements of the body of [foreach ($targetScope in
    $targetScopes)]: the verbose line, a queue holding the root, and
    [$shouldBreak] reset. *)
Definition enterScope (targetScope : Share.t) (st : Engine) : Engine :=
  {| queue := ["/"]; shouldBreak := false; output := output st;
     messages := messages st ++ [Enumerating (Share.Uri targetScope)] |}.

(** The [foreach ($targetScope in $targetScopes)] loop, and the rest of a
    scope's turn from a state inside it. *)
Fixpoint forEachScope (fuel : nat) (scopes : list Share.t) (st : Engine)
  : Run :=
  match scopes with
  | [] => Finished st
  | targetScope :: later =>
      match whileQueue fuel targetScope (enterScope targetScope st) with
      | Cut st' => Cut st'
      | Finished st' =>
          if shouldBreak st' then Finished st'
          else forEachScope fuel later st'
      end
  end.

Definition resume (fuel : nat) (targetScope : Share.t) (later : list Share.t)
    (st : Engine) : Run :=
  match whileQueue fuel targetScope st with
  | Cut st' => Cut st'
  | Finished st' =>
      if shouldBreak st' then Finished st'
      else forEachScope fuel later st'
  end.

End Traversal.

Definition start : Engine :=
  {| queue := []; shouldBreak := false; output := []; messages := [] |}.

(** The script: the error that stops it, or the run of the traversal. *)
Definition recursiveSearch (fuel : nat) (az : Azure) (p : Params)
  : ScriptError + Run :=
  match prepare az p with
  | inl e => inl e
  | inr (scopes, _) => inr (forEachScope az p fuel scopes start)
  end.

End WithEq.

(** *** Descriptions used in the statements *)

Section Descriptions.

Variable eq : string -> string -> bool.
Variable az : Azure.
Variable p : Params.

(** The listing of a directory of a scope. *)
Definition listing (targetScope : Share.t) (dirPath : string)
  : list DirItem.t :=
  GetFilesAndDirectories az (currentUri (Share.Uri targetScope) dirPath).

(** The path the script gives an item, and the path it enqueues for a
    directory. *)
Definition itemPath (dirPath : string) (dirItem : DirItem.t) : string :=
  dirPath +:+ DirItem.Name dirItem.

Definition directoryPath (dirPath : string) (dirItem : DirItem.t) : string :=
  itemPath dirPath dirItem +:+ "/".

Definition subdirectories (dirPath : string) (dirEnum : list DirItem.t)
  : list string :=
  map (directoryPath dirPath) (List.filter DirItem.IsDirectory dirEnum).

Definition isTarget (dirItem : DirItem.t) : bool :=
  eq (DirItem.Name dirItem) (TargetItemName p).

(** [$shouldBreak] after a listing that was gone through to its end, from
    its value before and whether the listing held the target. *)
Definition flagAfter (flag found : bool) : bool :=
  match MatchBehavior_ p with
  | Continue => flag
  | _ => flag || found
  end.

(** The object written for the item at [path] of a scope. *)
Definition matchAt (targetScope : Share.t) (path : string) : Match :=
  {| m_ResourceGroupName := ResourceGroupName p;
     m_StorageAccountName := StorageAccountName p;
     m_FileShareName := FileShareName p;
     m_SnapshotTime := Share.SnapshotTime targetScope;
     m_Path := path |}.

Definition matchesIn (targetScope : Share.t) (dirPath : string)
    (dirEnum : list DirItem.t) : list Match :=
  map (fun i => matchAt targetScope (itemPath dirPath i))
    (List.filter isTarget dirEnum).

(** The directories of a scope at or below [dirPath]. *)
Inductive Below (targetScope : Share.t) : string -> string -> Prop :=
| below_here dirPath : Below targetScope dirPath dirPath
| below_step dirPath dirItem dir :
    In dirItem (listing targetScope dirPath) ->
    DirItem.IsDirectory dirItem = true ->
    Below targetScope (directoryPath dirPath dirItem) dir ->
    Below targetScope dirPath dir.

(** [m] is the object of an item named as the target, somewhere at or below
    [dirPath]. *)
Definition OccursBelow (targetScope : Share.t) (dirPath : string) (m : Match)
  : Prop :=
  exists dir dirItem,
    Below targetScope dirPath dir
    /\ In dirItem (listing targetScope dir)
    /\ isTarget dirItem = true
    /\ m = matchAt targetScope (itemPath dir dirItem).

(** An occurrence of the target anywhere in the scope. *)
Definition Occurs (targetScope : Share.t) (m : Match) : Prop :=
  OccursBelow targetScope "/" m.

(** The tree below [dirPath] has fewer than [h] levels of directories. *)
Fixpoint heightBelow (h : nat) (targetScope : Share.t) (dirPath : string)
  : Prop :=
  match h with
  | O => False
  | S h' =>
      Forall
        (fun i => DirItem.IsDirectory i = true ->
                  heightBelow h' targetScope (directoryPath dirPath i))
        (listing targetScope dirPath)
  end.

(** The number of directories at or below [dirPath], down to [h] levels. *)
Fixpoint directoryCount (h : nat) (targetScope : Share.t) (dirPath : string)
  : nat :=
  match h with
  | O => O
  | S h' =>
      S (list_sum
           (map (fun i => if DirItem.IsDirectory i
                          then directoryCount h' targetScope
                                 (directoryPath dirPath i)
                          else O)
              (listing targetScope dirPath)))
  end.

End Descriptions.

(** [a] was taken strictly after [b]. *)
Definition after (a b : Share.t) : Prop :=
  timeLeb (Share.SnapshotTime a) (Share.SnapshotTime b) = false.

(** [a] was not taken before [b]. *)
Definition notBefore (a b : Share.t) : Prop :=
  timeLeb (Share.SnapshotTime b) (Share.SnapshotTime a) = true.

(** A queue with a height for each of its paths: the directories still to be
    enumerated from it, and whether each tree fits its height. *)
Definition cost (az : Azure) (targetScope : Share.t)
    (l : list (nat * string)) : nat :=
  list_sum (map (fun hd => directoryCount az (fst hd) targetScope (snd hd)) l).

Definition fits (az : Azure) (targetScope : Share.t)
    (l : list (nat * string)) : Prop :=
  Forall (fun hd => heightBelow az (fst hd) targetScope (snd hd)) l.

(** The paths of the [Item] lines among the messages. *)
Definition itemPaths (ms : list Message) : list string :=
  flat_map (fun m => match m with Item path => [path] | _ => [] end) ms.

(** The directories enumerated, from the messages. *)
Definition enumerated (ms : list Message) : list Uri.t :=
  flat_map (fun m => match m with
                     | EnumeratingDirectory uri => [uri] | _ => [] end) ms.

(** The same invocation for another storage account. *)
Definition withStorageAccountName (account : string) (p : Params) : Params :=
  {| ResourceGroupName := ResourceGroupName p;
     StorageAccountName := account;
     FileShareName := FileShareName p;
     TargetItemName := TargetItemName p;
     SearchScope_ := SearchScope_ p;
     MatchBehavior_ := MatchBehavior_ p |}.

(** *** The shape of paths *)

Definition isSlash (c : ascii) : bool := (nat_of_ascii c =? 47)%nat.

Definition startsWithSlash (s : string) : bool :=
  match s with
  | String c _ => isSlash c
  | EmptyString => false
  end.

Fixpoint endsWithSlash (s : string) : bool :=
  match s with
  | EmptyString => false
  | String c EmptyString => isSlash c
  | String _ rest => endsWithSlash rest
  end.

Fixpoint containsSlash (s : string) : bool :=
  match s with
  | EmptyString => false
  | String c rest => isSlash c || containsSlash rest
  end.

Fixpoint noDoubleSlash (s : string) : bool :=
  match s with
  | EmptyString => true
  | String c rest =>
      negb (isSlash c && startsWithSlash rest) && noDoubleSlash rest
  end.

(** One slash in front, and no two slashes in a row anywhere. *)
Definition wellFormed (path : string) : bool :=
  startsWithSlash path && noDoubleSlash path.

(** The shape of the paths in the queue: well formed, with a slash at the
    end. *)
Definition directoryShaped (path : string) : bool :=
  wellFormed path && endsWithSlash path.

(** A name as the service gives them: not empty, without a slash. *)
Definition validName (n : string) : bool :=
  negb (String.eqb n EmptyString) && negb (containsSlash n).

(** Every path the engine holds or has written is well formed. *)
Definition PathsOk (st : Engine) : Prop :=
  Forall (fun d => directoryShaped d = true) (queue st)
  /\ Forall (fun m => wellFormed (m_Path m) = true) (output st)
  /\ Forall (fun path => wellFormed path = true) (itemPaths (messages st)).

(** *** Descriptions used in the statements about whole runs *)

(** A share of the account that bears the requested name and is not
    deleted. *)
Definition named (eq : string -> string -> bool) (p : Params) (s : Share.t)
  : bool :=
  startsWith (FileShareName p) (Share.Name s)
  && eq (Share.Name s) (FileShareName p)
  && negb (Share.IsDeleted s).

(** A share the search scope asks for. *)
Definition selected (eq : string -> string -> bool) (p : Params)
    (s : Share.t) : bool :=
  named eq p s
  && match SearchScope_ p with
     | FileShare => negb (Share.IsSnapshot s)
     | FileShareSnapshots => Share.IsSnapshot s
     | Both => true
     end.

(** [a] may come before [b] among the scopes: it is the live share, or both
    are snapshots and [a] was not taken before [b]. *)
Definition searchedBefore (a b : Share.t) : Prop :=
  Share.IsSnapshot a = false
  \/ (Share.IsSnapshot b = true /\ notBefore a b).

(** The same invocation with another match behavior. *)
Definition withMatchBehavior (b : MatchBehavior) (p : Params) : Params :=
  {| ResourceGroupName := ResourceGroupName p;
     StorageAccountName := StorageAccountName p;
     FileShareName := FileShareName p;
     TargetItemName := TargetItemName p;
     SearchScope_ := SearchScope_ p;
     MatchBehavior_ := b |}.

(** [dir] is [n] levels of directories below [dirPath]. *)
Inductive BelowAt (az : Azure) (targetScope : Share.t)
  : nat -> string -> string -> Prop :=
| below_at_here dirPath : BelowAt az targetScope O dirPath dirPath
| below_at_step n dirPath dirItem dir :
    In dirItem (listing az targetScope dirPath) ->
    DirItem.IsDirectory dirItem = true ->
    BelowAt az targetScope n (directoryPath dirPath dirItem) dir ->
    BelowAt az targetScope (S n) dirPath dir.

(** The target is listed in a directory [n] levels below [dirPath], and [m]
    is the object of that item. *)
Definition OccursAt (eq : string -> string -> bool) (az : Azure) (p : Params)
    (targetScope : Share.t) (n : nat) (dirPath : string) (m : Match) : Prop :=
  exists dir dirItem,
    BelowAt az targetScope n dirPath dir
    /\ In dirItem (listing az targetScope dir)
    /\ isTarget eq p dirItem = true
    /\ m = matchAt p targetScope (itemPath dir dirItem).

(** Two states of the engine that differ at most in [$shouldBreak]. *)
Definition sameButFlag (a b : Engine) : Prop :=
  queue a = queue b /\ output a = output b /\ messages a = messages b.

(** A queue with the level of each of its paths, as the loop keeps it: the
    levels do not go down along the queue and differ by one at most. *)
Definition Leveled (l : list (nat * string)) : Prop :=
  StronglySorted le (map fst l)
  /\ forall a b, In a (map fst l) -> In b (map fst l) -> (b <= S a)%nat.

(** The target is listed [n] levels down, counted from the levels of the
    paths of a queue. *)
Definition OccursFrom (eq : string -> string -> bool) (az : Azure)
    (p : Params) (targetScope : Share.t) (l : list (nat * string))
    (n : nat) (m : Match) : Prop :=
  exists level dirPath j,
    In (level, dirPath) l
    /\ OccursAt eq az p targetScope j dirPath m
    /\ n = (level + j)%nat.

(** A line the traversal writes when it lists the directory [dirPath] of a
    scope: the line of the directory, with the address the directory client
    is made for, or the line of one of its items, with the path the script
    gives it. *)
Definition Listed (az : Azure) (targetScope : Share.t) (dirPath : string)
    (msg : Message) : Prop :=
  msg = EnumeratingDirectory (currentUri (Share.Uri targetScope) dirPath)
  \/ exists dirItem,
       In dirItem (listing az targetScope dirPath)
       /\ msg = Item (itemPath dirPath dirItem).

(** No listing of the scope stops a run under End: under End, no directory
    of the scope lists the target. *)
Definition NoStop (eq : string -> string -> bool) (az : Azure) (p : Params)
    (targetScope : Share.t) : Prop :=
  MatchBehavior_ p = End_ ->
  forall dirPath,
    Below az targetScope "/" dirPath ->
    existsb (isTarget eq p) (listing az targetScope dirPath) = false.

End Script.

(** ** The comparison the specification describes

    Section 4.2 of the specification, in its own words, next to
    [CacheDb.columnsMatch]: every actual column the expected set does not
    recognize is nullable, and every expected column is present in the actual
    set with identical type, nullability and primary-key flag. *)

Module Spec.

Import Js Sqlite CacheDb.

Definition unrecognizedAreNullable (expected : ColumnMap)
    (actual : SqliteSchema) : bool :=
  forallb
    (fun row =>
       match get expected (row_name row) with
       | Some _ => true
       | None => negb (row_notnull row)
       end)
    actual.

Definition identical (e : SqliteColumn) (row : SchemaRow) : bool :=
  String.eqb (row_name row) (name e)
  && match row_type row with
     | Some ty => SqliteDataType_eqb ty (type e)
     | None => false
     end
  && Bool.eqb (negb (row_notnull row)) (nullable e)
  && Bool.eqb (toBoolean (Number (row_pk row))) (primaryKey e).

Definition expectedArePresent (expected : ColumnMap)
    (actual : SqliteSchema) : bool :=
  forallb (fun e => existsb (identical e) actual) (values expected).

Definition symmetricMatch (expected : ColumnMap) (actual : SqliteSchema)
  : bool :=
  unrecognizedAreNullable expected actual && expectedArePresent expected actual.

(** The table [CREATE TABLE] is to produce for an expected column set: every
    column with its type and nullability, and the key made of the columns
    marked primary, in their order. *)
Definition keyOf (expected : ColumnMap) : list string :=
  map name (List.filter primaryKey (values expected)).

Definition tableFor (expected : ColumnMap) : Table :=
  {| tbl_columns :=
       map (fun e => mkColumnDef (name e) (typeText (type e))
                       (negb (nullable e))
                       (keyIndex (name e) (keyOf expected) 1))
         (values expected);
     tbl_strict := true;
     tbl_rows := [] |}.

(** The statements a reset of both tables submits, in order. *)
Definition resetStatements : list string :=
  [ "PRAGMA journal_mode=WAL";
    "PRAGMA table_info(FileShares)";
    "DROP TABLE IF EXISTS FileShares";
    "DROP TABLE IF EXISTS FileSystemEntries";
    buildCreateTableQuery "FileShares" fileSharesColumns;
    "PRAGMA table_info(FileSystemEntries)";
    "DROP TABLE IF EXISTS FileSystemEntries";
    buildCreateTableQuery "FileSystemEntries" fileSystemEntriesColumns ].

End Spec.

(** ** Sample inputs *)

Module Samples.

Import Js Sqlite CacheDb.

(** The introspection of a FileShares table that has every expected column
    with its type and NOT NULL, and no primary key at all. *)
Definition fileSharesWithoutKey : SqliteSchema :=
  [ mkSchemaRow 0 "fileShareId" (Some TEXT) true Null 0;
    mkSchemaRow 1 "dataPlaneUri" (Some TEXT) true Null 0;
    mkSchemaRow 2 "resourceName" (Some TEXT) true Null 0;
    mkSchemaRow 3 "resourceType" (Some TEXT) true Null 0;
    mkSchemaRow 4 "resourceCreateDate" (Some INTEGER) true Null 0;
    mkSchemaRow 5 "fileShareName" (Some TEXT) true Null 0;
    mkSchemaRow 6 "isSnapshot" (Some INTEGER) true Null 0;
    mkSchemaRow 7 "snapshotTime" (Some INTEGER) true Null 0 ].

Definition cachePath : string := "/home/user/.recursiveSearch/cache.db".

Definition fresh : DefaultCacheDb := constructor (mkOs "linux" None "/home/user") None.

Definition noTables : Database :=
  {| tables := ∅; journal_mode := "delete"; rejects := fun _ => false;
     history := [] |}.

(** A cache file of an earlier layout: FileShares lacks the column
    snapshotTime, FileSystemEntries is as expected and holds a row. *)
Definition olderLayout : Database :=
  {| tables :=
       <["FileShares" :=
           {| tbl_columns :=
                [ mkColumnDef "fileShareId" "TEXT" true 1;
                  mkColumnDef "dataPlaneUri" "TEXT" true 2;
                  mkColumnDef "resourceName" "TEXT" true 0;
                  mkColumnDef "resourceType" "TEXT" true 0;
                  mkColumnDef "resourceCreateDate" "INTEGER" true 0;
                  mkColumnDef "fileShareName" "TEXT" true 0;
                  mkColumnDef "isSnapshot" "INTEGER" true 0 ];
              tbl_strict := true;
              tbl_rows := [] |}]>
         (<["FileSystemEntries" :=
              {| tbl_columns := tbl_columns (Spec.tableFor fileSystemEntriesColumns);
                 tbl_strict := true;
                 tbl_rows := [[Str "id"; Str "https://a"; Str "/x"; Str "x"]] |}]>
            ∅);
     journal_mode := "wal"; rejects := fun _ => false; history := [] |}.

(** A cache file whose FileShares table lacks every expected column and
    declares a type outside the four of [sqliteDataTypeSchema]. *)
Definition foreignLayout : Database :=
  {| tables :=
       <["FileShares" :=
           {| tbl_columns := [ mkColumnDef "share" "VARCHAR" false 0 ];
              tbl_strict := false;
              tbl_rows := [] |}]> ∅;
     journal_mode := "delete"; rejects := fun _ => false; history := [] |}.

(** An engine that refuses to drop FileSystemEntries, as SQLite does when a
    view stands under that name. *)
Definition entriesCannotBeDropped : Database :=
  {| tables := ∅; journal_mode := "delete";
     rejects := fun q => String.eqb q "DROP TABLE IF EXISTS FileSystemEntries";
     history := [] |}.

(** An engine that refuses the journal mode pragma. *)
Definition journalModeRefused : Database :=
  {| tables := ∅; journal_mode := "delete";
     rejects := fun q => String.eqb q "PRAGMA journal_mode=WAL";
     history := [] |}.

Definition world (db : Database) : World :=
  {| mkdirRejection := None; openError := None; database := db |}.

(** A world in which the containing directory cannot be created. *)
Definition noDirectory (db : Database) : World :=
  {| mkdirRejection := Some (MkError "EACCES: permission denied, mkdir");
     openError := None; database := db |}.


(** *** Inputs of the command line *)

Import Cli.

Definition hex : Regex := Class [("0", "9"); ("a", "f"); ("A", "F")]%char.

(** A stand-in for [z.string().uuid()]: five groups of hexadecimal digits. *)
Definition uuidShape (s : string) : bool :=
  test (Seq (Repeat hex 8 8) (Seq (Lit "-")
       (Seq (Repeat hex 4 4) (Seq (Lit "-")
       (Seq (Repeat hex 4 4) (Seq (Lit "-")
       (Seq (Repeat hex 4 4) (Seq (Lit "-")
       (Seq (Repeat hex 12 12) Eos))))))))) s.

Definition linux : Os := mkOs "linux" None "/home/user".

(** A request whose target item name is empty. *)
Definition emptyTarget : Options :=
  {| opt_subscription := "1d16f9b3-bbe3-48d4-930a-27a74dca003b";
     opt_resourceGroup := "testrg";
     opt_storageAccount := "testsa";
     opt_fileShare := "testshare";
     opt_targetItem := EmptyString;
     opt_searchScope := "Both";
     opt_matchBehavior := "ScopeEnd" |}.

(** The first example of the documentation. *)
Definition testRequest : Options :=
  {| opt_subscription := "1d16f9b3-bbe3-48d4-930a-27a74dca003b";
     opt_resourceGroup := "testrg";
     opt_storageAccount := "testsa";
     opt_fileShare := "testshare";
     opt_targetItem := "testfile.docx";
     opt_searchScope := "Both";
     opt_matchBehavior := "ScopeEnd" |}.

(** A request whose share name has two hyphens in a row. *)
Definition badShareName : Options :=
  {| opt_subscription := "1d16f9b3-bbe3-48d4-930a-27a74dca003b";
     opt_resourceGroup := "testrg";
     opt_storageAccount := "testsa";
     opt_fileShare := "test--share";
     opt_targetItem := "testfile.docx";
     opt_searchScope := "Both";
     opt_matchBehavior := "ScopeEnd" |}.


(** *** Inputs of the script *)

Import Script.

Definition lowerCase (c : ascii) : ascii :=
  let n := nat_of_ascii c in
  if ((65 <=? n) && (n <=? 90))%nat then ascii_of_nat (n + 32) else c.

(** A comparison that does not tell case apart, for strings of ASCII
    characters. *)
Fixpoint ieq (a b : string) : bool :=
  match a, b with
  | EmptyString, EmptyString => true
  | String x a', String y b' =>
      Ascii.eqb (lowerCase x) (lowerCase y) && ieq a' b'
  | _, _ => false
  end.

Definition liveUri : Uri.t :=
  Uri.mk "https://testsa.file.core.windows.net" "/testshare" EmptyString.

Definition snapshotUri (stamp : string) : Uri.t :=
  Uri.mk "https://testsa.file.core.windows.net" "/testshare"
    ("?sharesnapshot=" +:+ stamp).

Definition live : Share.t := Share.mk "testshare" false false None liveUri.

Definition snapshot1 : Share.t :=
  Share.mk "testshare" false true (Some 100) (snapshotUri "100").

Definition snapshot2 : Share.t :=
  Share.mk "testshare" false true (Some 200) (snapshotUri "200").

Definition snapshot3 : Share.t :=
  Share.mk "testshare" false true (Some 300) (snapshotUri "300").

(** A share with a longer name, which the prefix also finds, and a deleted
    one. *)
Definition otherShare : Share.t :=
  Share.mk "testshare2" false false None
    (Uri.mk "https://testsa.file.core.windows.net" "/testshare2" EmptyString).

Definition deletedSnapshot : Share.t :=
  Share.mk "testshare" true true (Some 400) (snapshotUri "400").

(** The tree of every scope of the sample: directories A and B under the
    root; A holds a file, a directory named report and another file; that
    directory holds a file named report; B holds a file named report. *)
Definition tree (uri : Uri.t) : list DirItem.t :=
  let path := Uri.Path uri in
  if String.eqb path "/testshare/" then
    [ DirItem.mk "A" true; DirItem.mk "B" true ]
  else if String.eqb path "/testshare/A/" then
    [ DirItem.mk "notes.txt" false; DirItem.mk "report" true;
      DirItem.mk "zeta" true ]
  else if String.eqb path "/testshare/A/report/" then
    [ DirItem.mk "report" false ]
  else if String.eqb path "/testshare/B/" then
    [ DirItem.mk "report" false ]
  else [].

Definition testsa : StorageAccount :=
  {| AccountResourceGroup := "testrg"; Account := "testsa";
     AllowSharedKeyAccess := Some true;
     Keys := Some [("key1", "a2V5LW9mLXRlc3RzYQ=="); ("key2", "b3RoZXI=")];
     Shares := [ snapshot1; otherShare; snapshot3; live; deletedSnapshot;
                 snapshot2 ] |}.

Definition testsb : StorageAccount :=
  {| AccountResourceGroup := "testrg"; Account := "testsb";
     AllowSharedKeyAccess := Some true;
     Keys := Some [("key1", "a2V5LW9mLXRlc3RzYg==")];
     Shares := [ live ] |}.

Definition azure : Azure :=
  {| Context := Some "user@example.com";
     ResourceGroups := [ "testrg" ];
     StorageAccounts := [ testsa; testsb ];
     GetFilesAndDirectories := tree |}.

Definition request (scope : SearchScope) (behavior : MatchBehavior) : Params :=
  {| ResourceGroupName := "testrg"; StorageAccountName := "testsa";
     FileShareName := "testshare"; TargetItemName := "report";
     SearchScope_ := scope; MatchBehavior_ := behavior |}.

(** The engine inside the live scope, about to enumerate A, with B waiting. *)
Definition atA : Engine :=
  {| queue := [ "/A/"; "/B/" ]; shouldBreak := false; output := [];
     messages := [ Enumerating liveUri;
                   EnumeratingDirectory (currentUri liveUri "/");
                   Item "/A"; Item "/B" ] |}.

(** The same engine once A is taken off the queue and its listing is about
    to be gone through. *)
Definition insideA : Engine :=
  {| queue := [ "/B/" ]; shouldBreak := false; output := [];
     messages := messages atA
                 ++ [ EnumeratingDirectory (currentUri liveUri "/A/") ] |}.

(** *** Further inputs *)

(** A world in which the store cannot be opened. *)
Definition cannotOpen : World :=
  {| mkdirRejection := None; openError := Some (MkError "SQLITE_CANTOPEN");
     database := noTables |}.

(** A request that differs from the first example in every argument but
    the subscription and the resource group. *)
Definition otherRequest : Options :=
  {| opt_subscription := "1d16f9b3-bbe3-48d4-930a-27a74dca003b";
     opt_resourceGroup := "testrg";
     opt_storageAccount := "othersa";
     opt_fileShare := "other-share";
     opt_targetItem := "notes.txt";
     opt_searchScope := "FileShare";
     opt_matchBehavior := "End" |}.

(** The letter e with an acute accent: two bytes, one UTF-16 code unit. *)
Definition eAcute : string :=
  String (ascii_of_nat 195) (String (ascii_of_nat 169) EmptyString).

(** A character beyond the basic plane: four bytes, two UTF-16 code
    units. *)
Definition beyondTheBasicPlane : string :=
  String (ascii_of_nat 240) (String (ascii_of_nat 159)
    (String (ascii_of_nat 152) (String (ascii_of_nat 128) EmptyString))).

Fixpoint repeated (n : nat) (s : string) : string :=
  match n with
  | O => EmptyString
  | S n' => s +:+ repeated n' s
  end.

(** A request whose resource group is 46 accented letters: 92 bytes, 46
    code units. *)
Definition accentedGroup : Options :=
  {| opt_subscription := "1d16f9b3-bbe3-48d4-930a-27a74dca003b";
     opt_resourceGroup := repeated 46 eAcute;
     opt_storageAccount := "testsa";
     opt_fileShare := "testshare";
     opt_targetItem := "testfile.docx";
     opt_searchScope := "Both";
     opt_matchBehavior := "ScopeEnd" |}.

(** A share whose root holds a directory foo and a file; foo holds a file
    and an empty directory. *)
Definition fooTree (uri : Uri.t) : list DirItem.t :=
  let path := Uri.Path uri in
  if String.eqb path "/testshare/" then
    [ DirItem.mk "foo" true; DirItem.mk "readme.txt" false ]
  else if String.eqb path "/testshare/foo/" then
    [ DirItem.mk "bar.txt" false; DirItem.mk "baz" true ]
  else [].

Definition fooAzure : Azure :=
  {| Context := Context azure;
     ResourceGroups := ResourceGroups azure;
     StorageAccounts := StorageAccounts azure;
     GetFilesAndDirectories := fooTree |}.

End Samples.

(* ===================================================================== *)
(** * Part II: statements and proofs                                      *)
(* ===================================================================== *)

(** ** The cache store *)

Module CacheDbFacts.

Import Js Sqlite CacheDb Samples.

(** *** Stepping through a method body *)

Section Steps.

Context {R A B : Type}.

Lemma bind_next (m : M R A) (k : A -> M R B) s a s' :
  m s = (Next a, s') -> (m ≫= k) s = k a s'.
Proof. intros H. unfold mbind, M_bind, bind. by rewrite H. Qed.

Lemma tryCatch_next (m : M R A) h s a s' :
  m s = (Next a, s') -> tryCatch m h s = (Next a, s').
Proof. intros H. unfold tryCatch. by rewrite H. Qed.

End Steps.

(** *** Statements the engine accepts *)

Lemma run_accepted query st db db' :
  rejects db query = false ->
  Sqlite.parse query = Some st ->
  Sqlite.apply st (submitted query db) = inr db' ->
  Sqlite.run query db = (inr tt, db').
Proof. intros Hr Hp Ha. unfold Sqlite.run. by rewrite Hr, Hp, Ha. Qed.

Lemma all_tableInfo query t db :
  rejects db query = false ->
  Sqlite.parse query = Some (PragmaTableInfo t) ->
  Sqlite.all query db = (inr (tableInfo t db), submitted query db).
Proof. intros Hr Hp. unfold Sqlite.all. by rewrite Hr, Hp. Qed.

Lemma connectionRun_accepted {R} query st this w c db' :
  connection this = Some c ->
  rejects (database w) query = false ->
  Sqlite.parse query = Some st ->
  Sqlite.apply st (submitted query (database w)) = inr db' ->
  @connectionRun R query (this, w) = (Next tt, (this, withDatabase db' w)).
Proof.
  intros Hc Hr Hp Ha. unfold connectionRun. cbn [fst snd]. rewrite Hc.
  by rewrite (run_accepted _ _ _ _ Hr Hp Ha).
Qed.

Lemma connectionAll_tableInfo {R} query t this w c :
  connection this = Some c ->
  rejects (database w) query = false ->
  Sqlite.parse query = Some (PragmaTableInfo t) ->
  @connectionAll R query (this, w)
  = (Next (tableInfo t (database w)),
     (this, withDatabase (submitted query (database w)) w)).
Proof.
  intros Hc Hr Hp. unfold connectionAll. cbn [fst snd]. rewrite Hc.
  by rewrite (all_tableInfo _ _ _ Hr Hp).
Qed.

Lemma apply_create t cols key db :
  tables db !! t = None ->
  forallb (fun '(_, ty, _) => strictType ty) cols = true ->
  forallb (fun k => existsb (fun '(c, _, _) => String.eqb c k) cols) key = true ->
  Sqlite.apply (CreateTable t cols key true) db
  = inr (withTables (<[t := newTable cols key true]> (tables db)) db).
Proof. intros Ht Hs Hk. unfold Sqlite.apply. by rewrite Ht, Hs, Hk. Qed.

(** The engine reads the queries [buildCreateTableQuery] writes as the tables
    of the expected column sets. *)
Lemma FileShares_query_parses :
  Sqlite.parse (buildCreateTableQuery "FileShares" fileSharesColumns)
  = Some (CreateTable "FileShares"
            [ ("fileShareId", "TEXT", true); ("dataPlaneUri", "TEXT", true);
              ("resourceName", "TEXT", true); ("resourceType", "TEXT", true);
              ("resourceCreateDate", "INTEGER", true);
              ("fileShareName", "TEXT", true); ("isSnapshot", "INTEGER", true);
              ("snapshotTime", "INTEGER", true) ]
            [ "fileShareId"; "dataPlaneUri" ] true).
Proof. vm_compute. reflexivity. Qed.

Lemma FileSystemEntries_query_parses :
  Sqlite.parse
    (buildCreateTableQuery "FileSystemEntries" fileSystemEntriesColumns)
  = Some (CreateTable "FileSystemEntries"
            [ ("fileShareId", "TEXT", true); ("dataPlaneUri", "TEXT", true);
              ("path", "TEXT", true); ("entryName", "TEXT", true) ]
            [ "fileShareId"; "dataPlaneUri"; "path" ] true).
Proof. vm_compute. reflexivity. Qed.

(** A table made for an expected column set passes the comparison of the
    specification, primary key included, and [columnsMatch] as well. *)
Lemma tableFor_matches :
  safeParse (tableInfoRows 0 (tbl_columns (Spec.tableFor fileSharesColumns)))
  = Success
      [ mkSchemaRow 0 "fileShareId" (Some TEXT) true Null 1;
        mkSchemaRow 1 "dataPlaneUri" (Some TEXT) true Null 2;
        mkSchemaRow 2 "resourceName" (Some TEXT) true Null 0;
        mkSchemaRow 3 "resourceType" (Some TEXT) true Null 0;
        mkSchemaRow 4 "resourceCreateDate" (Some INTEGER) true Null 0;
        mkSchemaRow 5 "fileShareName" (Some TEXT) true Null 0;
        mkSchemaRow 6 "isSnapshot" (Some INTEGER) true Null 0;
        mkSchemaRow 7 "snapshotTime" (Some INTEGER) true Null 0 ]
  /\ (forall s,
        safeParse (tableInfoRows 0 (tbl_columns (Spec.tableFor fileSharesColumns)))
        = Success s ->
        Spec.symmetricMatch fileSharesColumns s = true
        /\ columnsMatch fileSharesColumns s = true).
Proof.
  split; [vm_compute; reflexivity |].
  intros s Hs. vm_compute in Hs. injection Hs as <-.
  split; vm_compute; reflexivity.
Qed.

Ltac normalize_database :=
  cbv [tables submitted withTables withJournalMode withDatabase database
       journal_mode rejects history].

Ltac accepted Hr :=
  eapply connectionRun_accepted;
  [ reflexivity | cbn; apply Hr | vm_compute; reflexivity | ].

(** *** What [columnsMatch] accepts *)

Lemma SqliteDataType_eqb_eq a b : SqliteDataType_eqb a b = true <-> a = b.
Proof. destruct a, b; cbn; split; congruence. Qed.

Lemma differs_false e f :
  differs e f = false <-> type e = type f /\ nullable e = nullable f.
Proof.
  unfold differs. rewrite Bool.eqb_reflx. cbn. rewrite orb_false_r.
  rewrite orb_false_iff, !negb_false_iff, SqliteDataType_eqb_eq.
  rewrite Bool.eqb_true_iff. tauto.
Qed.

Lemma collectFound_Some expected a : forall f0 f,
  collectFound expected a f0 = Some f ->
  Forall (accepted expected) a
  /\ (forall n fc, f !! n = Some fc ->
        f0 !! n = Some fc
        \/ exists row ty, In row a /\ row_name row = n
             /\ row_type row = Some ty /\ fc = foundColumn row ty)
  /\ (forall n, is_Some (f0 !! n)
                \/ (exists row, In row a /\ row_name row = n
                                /\ is_Some (get expected n)) ->
                is_Some (f !! n)).
Proof.
  induction a as [| row a IH]; intros f0 f H.
  - injection H as <-. split; [constructor |]. split; [auto |].
    intros n [Hn | (row & [] & _)]. done.
  - cbn [collectFound] in H.
    destruct (row_type row) as [ty |] eqn:Hty; [| discriminate].
    cbn [name nullable] in H.
    destruct (get expected (row_name row)) as [e |] eqn:He.
    + destruct (differs e _) eqn:Hd; [discriminate |].
      apply differs_false in Hd as [Ht Hnl]. cbn in Ht, Hnl.
      apply IH in H as (Hacc & Hfrom & Hto).
      split; [| split].
      * constructor; [| done]. exists ty. by rewrite He.
      * intros n fc Hf. destruct (Hfrom n fc Hf) as [H0 | (r & t & Hr & Hrest)].
        -- destruct (decide (row_name row = n)) as [<- | Hne].
           ++ rewrite lookup_insert_eq in H0. injection H0 as <-.
              right. exists row, ty. split; [by left | done].
           ++ rewrite lookup_insert_ne in H0 by done. by left.
        -- right. exists r, t. split; [by right | done].
      * intros n Hn. apply Hto.
        destruct Hn as [Hn | (r & [<- | Hr] & Hrn & Hrs)].
        -- left. destruct (decide (row_name row = n)) as [<- | Hne].
           ++ by rewrite lookup_insert_eq.
           ++ by rewrite lookup_insert_ne.
        -- left. subst n. by rewrite lookup_insert_eq.
        -- right. eauto.
    + destruct (negb (negb (row_notnull row))) eqn:Hnn; [discriminate |].
      rewrite negb_involutive in Hnn.
      apply IH in H as (Hacc & Hfrom & Hto).
      split; [| split].
      * constructor; [| done]. exists ty. by rewrite He.
      * intros n fc Hf. destruct (Hfrom n fc Hf) as [H0 | (r & t & Hr & Hrest)];
          [by left |]. right. exists r, t. split; [by right | done].
      * intros n Hn. apply Hto.
        destruct Hn as [Hn | (r & [<- | Hr] & Hrn & Hrs)]; [by left | | eauto].
        subst n. rewrite He in Hrs. by destruct Hrs.
Qed.

Lemma collectFound_total expected a : forall f0,
  Forall (accepted expected) a ->
  exists f, collectFound expected a f0 = Some f.
Proof.
  induction a as [| row a IH]; intros f0 H; [by eexists |].
  apply Forall_cons in H as [(ty & Hty & Hrow) H].
  cbn [collectFound]. rewrite Hty. cbn [name nullable].
  destruct (get expected (row_name row)) as [e |].
  - destruct Hrow as [Ht Hn].
    assert (Hd : differs e {| name := row_name row; type := ty;
                             nullable := negb (row_notnull row);
                             primaryKey := toBoolean (Number (row_pk row)) |}
                 = false) by (by apply differs_false).
    rewrite Hd. by apply IH.
  - rewrite Hrow. cbn. by apply IH.
Qed.

Lemma get_of_value m e :
  keyedByName m -> In e (values m) -> get m (name e) = Some e.
Proof.
  intros [Hk Hn]. induction m as [| [k v] m IH]; [done |].
  apply Forall_cons in Hk as [Hkv Hk]. cbn in Hkv. subst k.
  apply List.NoDup_cons_iff in Hn as [Hnotin Hn]. cbn in Hnotin.
  cbn. intros [-> | He].
  - by rewrite String.eqb_refl.
  - destruct (String.eqb_spec (name v) (name e)) as [Heq | Hne]; [| by apply IH].
    exfalso. apply Hnotin. rewrite Heq.
    unfold values in He. apply in_map_iff in He as ([k e'] & <- & He).
    rewrite List.Forall_forall in Hk. rewrite <- (Hk _ He).
    by apply (in_map fst) in He.
Qed.

(** [columnsMatch] holds exactly when every row is accepted and every
    expected column has a row of its name: type and nullability are compared,
    the primary key is not. *)
Lemma columnsMatch_characterisation expected a :
  keyedByName expected ->
  columnsMatch expected a = true <->
  Forall (accepted expected) a
  /\ Forall (fun e => exists row, In row a /\ row_name row = name e)
       (values expected).
Proof.
  intros Hkeyed. unfold columnsMatch, allExpectedFound. split.
  - destruct (collectFound expected a ∅) as [f |] eqn:Hf; [| discriminate].
    apply collectFound_Some in Hf as (Hacc & Hfrom & _).
    rewrite forallb_forall. intros H. split; [done |].
    apply List.Forall_forall. intros e He. specialize (H e He).
    destruct (f !! name e) as [fc |] eqn:Hfc; [| discriminate].
    destruct (Hfrom _ _ Hfc) as [H0 | (row & ty & Hrow & Hn & _)];
      [by rewrite lookup_empty in H0 | eauto].
  - intros [Hacc Hpresent].
    destruct (collectFound_total expected a ∅ Hacc) as [f Hf]. rewrite Hf.
    apply collectFound_Some in Hf as (_ & Hfrom & Hto).
    apply forallb_forall. intros e He.
    rewrite List.Forall_forall in Hpresent.
    destruct (Hpresent e He) as (row & Hrow & Hname).
    pose proof (get_of_value _ _ Hkeyed He) as Hget.
    destruct (Hto (name e)) as [fc Hfc].
    { right. exists row. by rewrite Hget. }
    rewrite Hfc. apply negb_true_iff, differs_false.
    destruct (Hfrom _ _ Hfc) as [H0 | (r & ty & Hr & Hrn & Hrt & ->)];
      [by rewrite lookup_empty in H0 |].
    rewrite List.Forall_forall in Hacc.
    destruct (Hacc r Hr) as (ty' & Hty' & Hr').
    rewrite Hrn, Hget in Hr'. destruct Hr' as [Ht Hnl]. cbn.
    split; congruence.
Qed.

Lemma fileSharesColumns_keyed : keyedByName fileSharesColumns.
Proof.
  split; [by repeat constructor |].
  cbn. repeat (constructor; [cbn; intuition discriminate |]). constructor.
Qed.

Lemma fileSystemEntriesColumns_keyed : keyedByName fileSystemEntriesColumns.
Proof.
  split; [by repeat constructor |].
  cbn. repeat (constructor; [cbn; intuition discriminate |]). constructor.
Qed.

(** C1. The comparison does not look at the primary key: a FileShares table
    that has every expected column with its type and nullability but no
    primary key is reported clean by [columnsMatch], while the symmetric
    matching of the specification rejects it. *)
Theorem columnsMatch_ignores_primaryKey :
  columnsMatch fileSharesColumns fileSharesWithoutKey = true
  /\ Spec.symmetricMatch fileSharesColumns fileSharesWithoutKey = false.
Proof. split; vm_compute; reflexivity. Qed.

(** C2, as stated, fails: the FileShares table of [foreignLayout] lacks every
    expected column and no statement is refused, yet [init] returns a
    failure (the introspection does not validate) and leaves the table where
    it is. *)
Lemma init_keeps_foreign_FileShares :
  (forall r, In r (tableInfo "FileShares" foreignLayout) ->
             get fileSharesColumns
               (match raw_name r with Str n => n | _ => EmptyString end) = None)
  /\ (forall q, rejects foreignLayout q = false)
  /\ fst (fst (init fresh (world foreignLayout)))
     = Returned (Failure (MkCacheDbInitFailure
                            (CacheDbResultSchemaFailure cachePath [0%nat])))
  /\ tables (database (snd (init fresh (world foreignLayout))))
     = tables foreignLayout.
Proof.
  split; [| split; [| split]].
  - intros r [<- | []]. reflexivity.
  - reflexivity.
  - vm_compute. reflexivity.
  - vm_compute. reflexivity.
Qed.

Lemma init_resets_when_createFsTable this w schema :
  connection this = None ->
  openError w = None ->
  (forall q, rejects (database w) q = false) ->
  safeParse (tableInfo "FileShares" (database w)) = Success schema ->
  createTable fileSharesColumns schema = true ->
  let '(outcome, this', w') := init this w in
  outcome = Returned (Success tt)
  /\ connection this' = Some (Handle (dbPath this))
  /\ tables (database w')
     = <["FileSystemEntries" := Spec.tableFor fileSystemEntriesColumns]>
         (<["FileShares" := Spec.tableFor fileSharesColumns]>
            (delete "FileSystemEntries"
               (delete "FileShares" (tables (database w)))))
  /\ history (database w') = history (database w) ++ Spec.resetStatements.
Proof.
  intros Hc Ho Hr Hp Hd.
  unfold init, initBody.
  do 3 (erewrite bind_next; [| reflexivity]).
  erewrite bind_next;
    [| unfold thisConnection; cbn [fst]; rewrite Hc; reflexivity].
  erewrite bind_next;
    [| apply tryCatch_next;
       unfold newDatabase, setConnection, mbind, M_bind, bind; cbn [fst snd];
       rewrite Ho; reflexivity].
  cbn [fst snd].
  erewrite bind_next; [| accepted Hr; reflexivity].
  erewrite bind_next;
    [| apply tryCatch_next; eapply connectionAll_tableInfo;
       [reflexivity | cbn; apply Hr | vm_compute; reflexivity] ].
  cbn [database withDatabase].
  replace (tableInfo "FileShares" _)
    with (tableInfo "FileShares" (database w)) by reflexivity.
  rewrite Hp.
  erewrite bind_next; [| reflexivity].
  rewrite Hd.
  erewrite bind_next.
  2:{ do 2 (erewrite bind_next;
              [| apply tryCatch_next; accepted Hr; reflexivity]).
      apply tryCatch_next. accepted Hr.
      apply apply_create; [| vm_compute; reflexivity ..].
      normalize_database.
      rewrite lookup_delete_ne by done. apply lookup_delete_eq. }
  normalize_database.
  erewrite bind_next;
    [| apply tryCatch_next; eapply connectionAll_tableInfo;
       [reflexivity | cbn; apply Hr | vm_compute; reflexivity] ].
  normalize_database.
  unfold tableInfo at 1. cbv [tables].
  rewrite lookup_insert_ne by done. rewrite lookup_delete_eq.
  erewrite bind_next; [| reflexivity].
  change (createTable fileSystemEntriesColumns []) with true. cbv iota.
  erewrite bind_next.
  2:{ erewrite bind_next; [| apply tryCatch_next; accepted Hr; reflexivity].
      apply tryCatch_next. accepted Hr.
      apply apply_create; [| vm_compute; reflexivity ..].
      normalize_database. apply lookup_delete_eq. }
  normalize_database.
  split; [reflexivity |]. split; [reflexivity |]. split.
  - rewrite delete_insert_ne by done. rewrite delete_delete_eq. reflexivity.
  - rewrite <- !app_assoc. reflexivity.
Qed.

Lemma Dirty_createTable expected table db :
  Dirty expected table db ->
  exists schema,
    safeParse (tableInfo table db) = Success schema
    /\ createTable expected schema = true.
Proof.
  intros [Hnone | (schema & Hp & Hm)].
  - exists []. unfold tableInfo. by rewrite Hnone.
  - exists schema. split; [done |]. unfold createTable. rewrite Hm.
    by destruct (length schema =? 0)%nat.
Qed.

(** C2, amended. When the store opens, no statement is refused and the
    FileShares table is dirty for [init] (there is none, or its introspection
    validates and [columnsMatch] rejects it), [init] returns success; both
    tables are dropped and created anew from the expected column sets, every
    other table is left alone, and the statements submitted are those of the
    reset, in order. *)
Theorem init_resets_dirty_FileShares this w :
  connection this = None ->
  openError w = None ->
  (forall q, rejects (database w) q = false) ->
  Dirty fileSharesColumns "FileShares" (database w) ->
  let '(outcome, this', w') := init this w in
  outcome = Returned (Success tt)
  /\ connection this' = Some (Handle (dbPath this))
  /\ tables (database w')
     = <["FileSystemEntries" := Spec.tableFor fileSystemEntriesColumns]>
         (<["FileShares" := Spec.tableFor fileSharesColumns]>
            (delete "FileSystemEntries"
               (delete "FileShares" (tables (database w)))))
  /\ history (database w') = history (database w) ++ Spec.resetStatements.
Proof.
  intros Hc Ho Hr Hd.
  apply Dirty_createTable in Hd as (schema & Hp & Hd).
  by apply (init_resets_when_createFsTable this w schema).
Qed.

(** Opening a store whose two tables are clean submits the three statements
    that look at it and changes no table. *)
Lemma init_keeps_clean_tables this w :
  connection this = None ->
  openError w = None ->
  (forall q, rejects (database w) q = false) ->
  Clean fileSharesColumns "FileShares" (database w) ->
  Clean fileSystemEntriesColumns "FileSystemEntries" (database w) ->
  let '(outcome, this', w') := init this w in
  outcome = Returned (Success tt)
  /\ tables (database w') = tables (database w)
  /\ history (database w')
     = history (database w)
       ++ [ "PRAGMA journal_mode=WAL"; "PRAGMA table_info(FileShares)";
            "PRAGMA table_info(FileSystemEntries)" ].
Proof.
  intros Hc Ho Hr (fs & Hfs & Hfs0 & Hfsm) (en & Hen & Hen0 & Henm).
  assert (Hcreate : forall e schema,
            schema <> [] -> columnsMatch e schema = true ->
            createTable e schema = false).
  { intros e [| r schema] H0 Hm; [done |]. unfold createTable. by rewrite Hm. }
  unfold init, initBody.
  do 3 (erewrite bind_next; [| reflexivity]).
  erewrite bind_next;
    [| unfold thisConnection; cbn [fst]; rewrite Hc; reflexivity].
  erewrite bind_next;
    [| apply tryCatch_next;
       unfold newDatabase, setConnection, mbind, M_bind, bind; cbn [fst snd];
       rewrite Ho; reflexivity].
  cbn [fst snd].
  erewrite bind_next; [| accepted Hr; reflexivity].
  erewrite bind_next;
    [| apply tryCatch_next; eapply connectionAll_tableInfo;
       [reflexivity | cbn; apply Hr | vm_compute; reflexivity] ].
  cbn [database withDatabase].
  replace (tableInfo "FileShares" _)
    with (tableInfo "FileShares" (database w)) by reflexivity.
  rewrite Hfs.
  erewrite bind_next; [| reflexivity].
  rewrite (Hcreate _ _ Hfs0 Hfsm).
  erewrite bind_next; [| reflexivity].
  erewrite bind_next;
    [| apply tryCatch_next; eapply connectionAll_tableInfo;
       [reflexivity | cbn; apply Hr | vm_compute; reflexivity] ].
  cbn [database withDatabase].
  replace (tableInfo "FileSystemEntries" _)
    with (tableInfo "FileSystemEntries" (database w)) by reflexivity.
  rewrite Hen.
  erewrite bind_next; [| reflexivity].
  rewrite (Hcreate _ _ Hen0 Henm).
  erewrite bind_next; [| reflexivity].
  normalize_database.
  split; [reflexivity |]. split; [reflexivity |].
  rewrite <- !app_assoc. reflexivity.
Qed.

(** The reset at work on a cache file of an earlier layout, whose FileShares
    table lacks the column snapshotTime. *)
Lemma init_resets_olderLayout :
  let '(outcome, this', w') := init fresh (world olderLayout) in
  outcome = Returned (Success tt)
  /\ connection this' = Some (Handle (dbPath fresh))
  /\ tables (database w')
     = <["FileSystemEntries" := Spec.tableFor fileSystemEntriesColumns]>
         (<["FileShares" := Spec.tableFor fileSharesColumns]>
            (delete "FileSystemEntries"
               (delete "FileShares" (tables (database (world olderLayout))))))
  /\ history (database w')
     = history (database (world olderLayout)) ++ Spec.resetStatements.
Proof.
  apply (init_resets_dirty_FileShares fresh (world olderLayout)).
  - reflexivity.
  - reflexivity.
  - intros q. reflexivity.
  - right. eexists. split; vm_compute; reflexivity.
Defined.

(** C7. Three failures of [init] that do not reach the caller as the claim
    says. When the engine refuses to drop FileSystemEntries, the failure
    returned names the query that drops FileShares, not the one refused; the
    action then ends the process with code 1. When the journal mode pragma is
    refused, [init] throws. When the containing directory cannot be created,
    [init] does not report it and returns success. *)
Theorem init_misreports_failures :
  (fst (fst (init fresh (world entriesCannotBeDropped)))
   = Returned (Failure (MkCacheDbInitFailure
                          (CacheDbQueryFailure cachePath
                             "DROP TABLE IF EXISTS FileShares"
                             (MkError "SQLITE_ERROR"))))
   /\ last (history (database (snd (init fresh (world entriesCannotBeDropped)))))
      = Some "DROP TABLE IF EXISTS FileSystemEntries"
   /\ fst (Cli.action uuidShape linux testRequest (world entriesCannotBeDropped))
      = Cli.Exited 1
          (Cli.InitError
             (MkCacheDbInitFailure
                (CacheDbQueryFailure cachePath
                   "DROP TABLE IF EXISTS FileShares"
                   (MkError "SQLITE_ERROR")))))
  /\ fst (fst (init fresh (world journalModeRefused)))
     = Thrown (MkError "SQLITE_ERROR")
  /\ fst (fst (init fresh (noDirectory noTables))) = Returned (Success tt).
Proof. repeat split; vm_compute; reflexivity. Qed.

End CacheDbFacts.

(** ** The command line *)

Module CliFacts.

Import Js Sqlite CacheDb Cli Samples.

(** The share name pattern at work: hyphens inside, never two in a row, never
    first or last, 3 to 63 characters. *)
Example fileShareRegex_examples :
  map (test fileShareRegex)
    [ "testshare"; "a-b"; "a-b-c"; "a--b"; "ab"; "-ab"; "ab-"; "aBc";
      "abcdefghijklmnopqrstuvwxyz0123456789abcdefghijklmnopqrstuvwxyz0";
      "abcdefghijklmnopqrstuvwxyz0123456789abcdefghijklmnopqrstuvwxyz01" ]
  = [ true; true; true; false; false; false; false; false; true; false ].
Proof. vm_compute. reflexivity. Qed.

Lemma issues_nil isUuid args :
  issues isUuid args = [] <->
  isUuid (opt_subscription args) = true
  /\ (1 <= utf16Length (opt_resourceGroup args) <= 90)%nat
  /\ test storageAccountRegex (opt_storageAccount args) = true
  /\ test fileShareRegex (opt_fileShare args) = true
  /\ parseSearchScope (opt_searchScope args) <> None
  /\ parseMatchBehavior (opt_matchBehavior args) <> None.
Proof.
  unfold issues.
  destruct (isUuid _), (test storageAccountRegex _), (test fileShareRegex _),
    (parseSearchScope _), (parseMatchBehavior _);
    destruct (Nat.leb_spec 1 (utf16Length (opt_resourceGroup args)));
    destruct (Nat.leb_spec (utf16Length (opt_resourceGroup args)) 90);
    cbn; split; try discriminate; try (intros; repeat split; (lia || congruence));
    intros (? & ? & ? & ? & ? & ?); try congruence; try lia.
Qed.

(** C8, as stated, fails: a request with an empty target item name validates,
    and the action goes on to open the cache store. *)
Lemma empty_targetItem_validates :
  opt_targetItem emptyTarget = EmptyString
  /\ safeParseArgs uuidShape emptyTarget
     = Success (mkSearchArgs "1d16f9b3-bbe3-48d4-930a-27a74dca003b" "testrg"
                  "testsa" "testshare" EmptyString Both ScopeEnd)
  /\ fst (action uuidShape linux emptyTarget (world noTables)) = Completed
  /\ history (database (snd (action uuidShape linux emptyTarget (world noTables))))
     = Spec.resetStatements.
Proof. repeat split; vm_compute; reflexivity. Qed.

(** C8, amended. A request validates exactly when its subscription is a
    UUID, its resource group has a length of 1 to 90 UTF-16 code units, its
    storage account and share names match their patterns and its search
    scope and match behavior are among the three values each; the target
    item name plays no part. A request that does not validate ends the
    process with code 1 and the issues on the error stream, the world
    untouched. *)
Theorem validation_ignores_targetItem isUuid os args w :
  (success (safeParseArgs isUuid args) = true <->
   isUuid (opt_subscription args) = true
   /\ (1 <= utf16Length (opt_resourceGroup args) <= 90)%nat
   /\ test storageAccountRegex (opt_storageAccount args) = true
   /\ test fileShareRegex (opt_fileShare args) = true
   /\ parseSearchScope (opt_searchScope args) <> None
   /\ parseMatchBehavior (opt_matchBehavior args) <> None)
  /\ (forall data, safeParseArgs isUuid args = Success data ->
                   targetItem data = opt_targetItem args)
  /\ (forall error, safeParseArgs isUuid args = Failure error ->
                    action isUuid os args w = (Exited 1 (ArgsError error), w)).
Proof.
  split; [| split].
  - rewrite <- issues_nil. unfold safeParseArgs.
    destruct (issues isUuid args) eqn:Hi.
    + apply issues_nil in Hi as (_ & _ & _ & _ & Hs & Hb).
      destruct (parseSearchScope _); [| congruence].
      destruct (parseMatchBehavior _); [| congruence].
      done.
    + cbn. split; discriminate.
  - unfold safeParseArgs. intros data.
    destruct (issues isUuid args); [| discriminate].
    destruct (parseSearchScope _); [| discriminate].
    destruct (parseMatchBehavior _); [| discriminate].
    by intros [= <-].
  - intros error He. unfold action. by rewrite He.
Qed.

(** A request with two hyphens in a row in its share name is turned away
    before the store is touched. *)
Lemma badShareName_is_rejected :
  action uuidShape linux badShareName (world noTables)
  = (Exited 1 (ArgsError ["fileShare"]), world noTables).
Proof.
  apply (validation_ignores_targetItem uuidShape linux badShareName
           (world noTables)).
  vm_compute. reflexivity.
Defined.

(** The length [min] and [max] compare is counted in UTF-16 code units, not
    in bytes: a resource group of 46 accented letters validates, and one of
    46 characters beyond the basic plane, 92 code units, does not. *)
Example resourceGroup_is_measured_in_code_units :
  String.length (opt_resourceGroup accentedGroup) = 92%nat
  /\ utf16Length (opt_resourceGroup accentedGroup) = 46%nat
  /\ issues uuidShape accentedGroup = []
  /\ utf16Length (repeated 46 beyondTheBasicPlane) = 92%nat
  /\ issues uuidShape
       {| opt_subscription := opt_subscription accentedGroup;
          opt_resourceGroup := repeated 46 beyondTheBasicPlane;
          opt_storageAccount := "testsa";
          opt_fileShare := "testshare";
          opt_targetItem := "testfile.docx";
          opt_searchScope := "Both";
          opt_matchBehavior := "ScopeEnd" |}
     = ["resourceGroup"].
Proof. repeat split; vm_compute; reflexivity. Qed.

End CliFacts.

(** ** The script *)

Module ScriptFacts.

Import Script Samples.

(** *** Sort-Object *)

Lemma timeLeb_total a b : timeLeb a b = true \/ timeLeb b a = true.
Proof. destruct a, b; cbn; auto. lia. Qed.

Lemma timeLeb_trans a b c :
  timeLeb a b = true -> timeLeb b c = true -> timeLeb a c = true.
Proof. destruct a, b, c; cbn; try done. lia. Qed.

Lemma timeLeb_antisym a b :
  timeLeb a b = true -> timeLeb b a = true -> a = b.
Proof. destruct a, b; cbn; try done. intros. f_equal. lia. Qed.

Lemma insertDescending_perm s l : Permutation (insertDescending s l) (s :: l).
Proof.
  induction l as [| x l IH]; cbn; [done |].
  destruct (timeLeb _ _); [done |].
  rewrite IH. apply perm_swap.
Qed.

Lemma sortDescending_perm l : Permutation (sortDescending l) l.
Proof.
  induction l as [| s l IH]; cbn; [done |].
  rewrite insertDescending_perm. by constructor.
Qed.

Lemma insertDescending_sorted s l :
  StronglySorted notBefore l -> StronglySorted notBefore (insertDescending s l).
Proof.
  induction 1 as [| x l Hs IH Hx]; cbn.
  - repeat constructor.
  - destruct (timeLeb (Share.SnapshotTime x) (Share.SnapshotTime s)) eqn:E.
    + constructor; [by constructor |].
      constructor; [exact E |].
      eapply Forall_impl; [exact Hx |].
      intros y Hy. unfold notBefore in *. eauto using timeLeb_trans.
    + constructor; [exact IH |].
      eapply Permutation_Forall; [symmetry; apply insertDescending_perm |].
      constructor; [| exact Hx].
      unfold notBefore. destruct (timeLeb_total (Share.SnapshotTime x) (Share.SnapshotTime s)); congruence.
Qed.

Lemma sortDescending_sorted l : StronglySorted notBefore (sortDescending l).
Proof.
  induction l; cbn; [constructor | by apply insertDescending_sorted].
Qed.

Lemma strictly_descending l :
  StronglySorted notBefore l ->
  List.NoDup (map Share.SnapshotTime l) ->
  StronglySorted after l.
Proof.
  induction 1 as [| x l Hs IH Hx]; cbn; intros Hn; [constructor |].
  apply List.NoDup_cons_iff in Hn as [Hx' Hn].
  constructor; [auto |].
  rewrite List.Forall_forall in Hx |- *. intros y Hy.
  specialize (Hx y Hy). unfold notBefore in Hx. unfold after.
  destruct (timeLeb (Share.SnapshotTime x) (Share.SnapshotTime y)) eqn:E; [| done].
  exfalso. apply Hx'. rewrite (timeLeb_antisym _ _ E Hx).
  apply in_map, Hy.
Qed.

Section WithEq.
Variable eq : string -> string -> bool.

(** C5. With search scope Both, the scopes are the live share followed by
    the snapshots; every snapshot of the share is among them, and, snapshot
    times being distinct, each snapshot was taken strictly after all those
    that follow it. *)
Theorem Both_puts_live_before_snapshots account p scopes :
  SearchScope_ p = Both ->
  targetScopes eq account p = inr scopes ->
  List.NoDup (map Share.SnapshotTime
           (List.filter Share.IsSnapshot (fileSharesMatchingName eq account p))) ->
  exists live snapshots,
    scopes = live ++ snapshots
    /\ live = fileShare eq account p
    /\ live <> []
    /\ Forall (fun s => Share.IsSnapshot s = false) live
    /\ Forall (fun s => Share.IsSnapshot s = true) snapshots
    /\ Permutation snapshots
         (List.filter Share.IsSnapshot (fileSharesMatchingName eq account p))
    /\ StronglySorted after snapshots.
Proof.
  intros Hb Ht Hn. unfold targetScopes in Ht. rewrite Hb in Ht.
  exists (fileShare eq account p), (fileShareSnapshots eq account p).
  assert (Hp : Permutation (fileShareSnapshots eq account p)
                 (List.filter Share.IsSnapshot (fileSharesMatchingName eq account p)))
    by apply sortDescending_perm.
  destruct (fileShare eq account p) as [| l0 live] eqn:Hl; [discriminate |].
  split.
  { cbn in Ht. destruct (fileShareSnapshots eq account p); [rewrite app_nil_r |]; cbn in Ht; by injection Ht as <-. }
  split; [done |]. split; [done |]. split.
  { rewrite <- Hl. unfold fileShare. apply List.Forall_forall. intros s Hs.
    apply filter_In in Hs as [_ Hs]. by destruct (Share.IsSnapshot s). }
  split.
  { eapply Permutation_Forall; [symmetry; exact Hp |].
    apply List.Forall_forall. intros s Hs. by apply filter_In in Hs as [_ Hs]. }
  split; [exact Hp |].
  apply strictly_descending; [apply sortDescending_sorted |].
  eapply Permutation_NoDup; [| exact Hn].
  apply Permutation_map. by symmetry.
Qed.

Lemma prepare_credential az p r :
  prepare eq az p = inr r -> AccountName (snd r) = "wgriesmfsressa2".
Proof.
  unfold prepare. intros H.
  repeat match type of H with
         | match ?x with _ => _ end = _ => destruct x; try discriminate
         end.
  by injection H as <-.
Qed.

(** C6. Two invocations that differ only in the storage account name and
    both reach the traversal make their shared-key credential with the same
    account name, the constant wgriesmfsressa2. *)
Theorem credential_account_is_constant az p account r r' :
  prepare eq az p = inr r ->
  prepare eq az (withStorageAccountName account p) = inr r' ->
  AccountName (snd r) = "wgriesmfsressa2"
  /\ AccountName (snd r') = AccountName (snd r).
Proof.
  intros H H'. apply prepare_credential in H, H'. by rewrite H, H'.
Qed.
End WithEq.

Section Traversal.
Variable eq : string -> string -> bool.
Variable az : Azure.
Variable p : Params.

Local Abbreviation isTarget := (isTarget eq p).
Local Abbreviation matchesIn := (matchesIn eq p).
Local Abbreviation forEachDirItem := (forEachDirItem eq p).
Local Abbreviation whileBody := (whileBody eq az p).
Local Abbreviation whileQueue := (whileQueue eq az p).
Local Abbreviation forEachScope := (forEachScope eq az p).
Local Abbreviation resume := (resume eq az p).
Local Abbreviation listing := (listing az).

Local Abbreviation flagAfter := (flagAfter p).

Lemma forEachDirItem_whole scope d items st :
  (MatchBehavior_ p = End_ -> existsb isTarget items = false) ->
  forEachDirItem scope d items st
  = {| queue := queue st ++ subdirectories d items;
       shouldBreak := flagAfter (shouldBreak st) (existsb isTarget items);
       output := output st ++ matchesIn scope d items;
       messages := messages st ++ map (fun i => Item (itemPath d i)) items |}.
Proof.
  revert st. induction items as [| i items IH]; intros st Hend.
  - cbn. unfold Script.flagAfter. rewrite !app_nil_r, orb_false_r.
    destruct st, (MatchBehavior_ p); reflexivity.
  - cbn [Script.forEachDirItem].
    unfold subdirectories, Script.matchesIn, Script.flagAfter in *.
    cbn [existsb List.filter map] in *.
    fold (isTarget i) in *.
    destruct (isTarget i) eqn:Ht.
    + destruct (MatchBehavior_ p) eqn:Hb.
      * specialize (Hend eq_refl). discriminate.
      * rewrite IH by (intros ?; discriminate).
        destruct (DirItem.IsDirectory i); cbn;
          rewrite <- ?app_assoc, ?orb_true_r; reflexivity.
      * rewrite IH by (intros ?; discriminate).
        destruct (DirItem.IsDirectory i); cbn;
          rewrite <- ?app_assoc; reflexivity.
    + rewrite IH by (intros Hb; apply Hend in Hb; exact Hb).
      destruct (DirItem.IsDirectory i); cbn;
        rewrite <- ?app_assoc; reflexivity.
Qed.

Lemma forEachDirItem_first_match scope d pre item post st :
  MatchBehavior_ p = End_ ->
  existsb isTarget pre = false ->
  isTarget item = true ->
  forEachDirItem scope d (pre ++ item :: post) st
  = {| queue := [];
       shouldBreak := true;
       output := output st ++ [matchAt p scope (itemPath d item)];
       messages := messages st
                   ++ map (fun i => Item (itemPath d i)) (pre ++ [item]) |}.
Proof.
  intros Hb. revert st. induction pre as [| i pre IH]; intros st Hpre Hitem.
  - cbn. unfold Script.isTarget in Hitem. rewrite Hitem, Hb. reflexivity.
  - cbn in Hpre. apply orb_false_elim in Hpre as [Hi Hpre].
    cbn [app Script.forEachDirItem]. unfold Script.isTarget in Hi. rewrite Hi.
    rewrite IH by assumption.
    destruct (DirItem.IsDirectory i); cbn; rewrite <- ?app_assoc; reflexivity.
Qed.

Lemma first_match {A} (f : A -> bool) l :
  existsb f l = true ->
  exists pre x post, l = pre ++ x :: post /\ existsb f pre = false /\ f x = true.
Proof.
  induction l as [| a l IH]; [discriminate |]. cbn.
  destruct (f a) eqn:Ha.
  - intros _. by exists [], a, l.
  - cbn. intros H. destruct (IH H) as (pre & x & post & -> & Hpre & Hx).
    exists (a :: pre), x, post. cbn. by rewrite Ha.
Qed.

Lemma whileQueue_nil fuel scope st :
  queue st = [] -> whileQueue fuel scope st = Finished st.
Proof. intros H. destruct fuel; cbn; by rewrite H. Qed.

Lemma whileQueue_step fuel scope st d rest :
  queue st = d :: rest ->
  whileQueue (S fuel) scope st
  = whileQueue fuel scope
      (whileBody scope d
         {| queue := rest; shouldBreak := shouldBreak st;
            output := output st; messages := messages st |}).
Proof. intros H. cbn. by rewrite H. Qed.

(** The turn of a scope is the rest of a turn from its first state. *)
Lemma forEachScope_resume fuel scope later st :
  forEachScope fuel (scope :: later) st
  = resume fuel scope later (enterScope scope st).
Proof. reflexivity. Qed.

Lemma whileBody_whole scope d st :
  (MatchBehavior_ p = End_ -> existsb isTarget (listing scope d) = false) ->
  whileBody scope d st
  = {| queue := queue st ++ subdirectories d (listing scope d);
       shouldBreak :=
         flagAfter (shouldBreak st) (existsb isTarget (listing scope d));
       output := output st ++ matchesIn scope d (listing scope d);
       messages :=
         messages st
         ++ EnumeratingDirectory (currentUri (Share.Uri scope) d)
            :: map (fun i => Item (itemPath d i)) (listing scope d) |}.
Proof.
  intros H. unfold Script.whileBody. fold (listing scope d).
  rewrite forEachDirItem_whole by exact H. cbn.
  rewrite <- app_assoc. reflexivity.
Qed.

Lemma whileBody_first_match scope d pre item post st :
  MatchBehavior_ p = End_ ->
  listing scope d = pre ++ item :: post ->
  existsb isTarget pre = false ->
  isTarget item = true ->
  whileBody scope d st
  = {| queue := [];
       shouldBreak := true;
       output := output st ++ [matchAt p scope (itemPath d item)];
       messages :=
         messages st
         ++ EnumeratingDirectory (currentUri (Share.Uri scope) d)
            :: map (fun i => Item (itemPath d i)) (pre ++ [item]) |}.
Proof.
  intros Hb Hl Hpre Hitem. unfold Script.whileBody. fold (listing scope d).
  rewrite Hl, forEachDirItem_first_match by assumption. cbn.
  rewrite <- app_assoc. reflexivity.
Qed.

(** *** Match behavior End *)

Lemma matchesIn_nil scope d items :
  existsb isTarget items = false -> matchesIn scope d items = [].
Proof.
  unfold Script.matchesIn. induction items as [| i items IH]; [done |].
  cbn. intros H. apply orb_false_elim in H as [Hi H].
  unfold Script.isTarget in Hi |- *. rewrite Hi. by apply IH.
Qed.

Lemma last_of_listed ms uri d pre item :
  last (ms ++ EnumeratingDirectory uri
           :: map (fun i => Item (itemPath d i)) (pre ++ [item]))
  = Some (Item (itemPath d item)).
Proof.
  rewrite map_app. cbn [map].
  change (ms ++ EnumeratingDirectory uri
             :: (map (fun i => Item (itemPath d i)) pre
                 ++ [Item (itemPath d item)]))
    with (ms ++ (EnumeratingDirectory uri
                   :: map (fun i => Item (itemPath d i)) pre)
                ++ [Item (itemPath d item)]).
  by rewrite app_assoc, last_snoc.
Qed.

Lemma End_whileBody scope d st :
  MatchBehavior_ p = End_ ->
  output st = [] -> shouldBreak st = false ->
  (output (whileBody scope d st) = []
   /\ shouldBreak (whileBody scope d st) = false)
  \/ (exists m, output (whileBody scope d st) = [m]
                /\ queue (whileBody scope d st) = []
                /\ shouldBreak (whileBody scope d st) = true
                /\ last (messages (whileBody scope d st))
                   = Some (Item (m_Path m))).
Proof.
  intros Hb Ho Hs.
  destruct (existsb isTarget (listing scope d)) eqn:E.
  - destruct (first_match _ _ E) as (pre & x & post & Hl & Hpre & Hx).
    right. rewrite (whileBody_first_match _ _ _ _ _ _ Hb Hl Hpre Hx). cbn.
    rewrite Ho. eexists. split; [reflexivity |]. split; [done |].
    split; [done |]. apply last_of_listed.
  - left. rewrite whileBody_whole by done. cbn.
    rewrite Ho, Hs, (matchesIn_nil _ _ _ E), E.
    unfold Script.flagAfter. by rewrite Hb.
Qed.

Lemma End_whileQueue scope fuel :
  MatchBehavior_ p = End_ ->
  forall st,
    output st = [] -> shouldBreak st = false ->
    (output (state (whileQueue fuel scope st)) = []
     /\ shouldBreak (state (whileQueue fuel scope st)) = false)
    \/ (exists m st',
          whileQueue fuel scope st = Finished st'
          /\ output st' = [m] /\ queue st' = [] /\ shouldBreak st' = true
          /\ last (messages st') = Some (Item (m_Path m))).
Proof.
  intros Hb. induction fuel as [| fuel IH]; intros st Ho Hs.
  - left. cbn. by destruct (queue st).
  - destruct (queue st) as [| d rest] eqn:Hq.
    + left. by rewrite whileQueue_nil.
    + rewrite (whileQueue_step _ _ _ _ _ Hq).
      destruct (End_whileBody scope d
                  {| queue := rest; shouldBreak := shouldBreak st;
                     output := output st; messages := messages st |} Hb Ho Hs)
        as [[Ho' Hs'] | (m & Ho' & Hq' & Hs' & Hm')].
      * by apply IH.
      * right. rewrite whileQueue_nil by done. eauto 10.
Qed.

(** A run under End either writes nothing, or is over right after the one
    match it wrote. *)
Lemma End_writes_one_match_and_ends fuel scopes :
  MatchBehavior_ p = End_ ->
  forall st,
    output st = [] ->
    output (state (forEachScope fuel scopes st)) = []
    \/ (exists m st',
          forEachScope fuel scopes st = Finished st'
          /\ output st' = [m] /\ queue st' = [] /\ shouldBreak st' = true
          /\ last (messages st') = Some (Item (m_Path m))).
Proof.
  intros Hb. induction scopes as [| s later IH]; intros st Ho.
  - left. exact Ho.
  - cbn [Script.forEachScope].
    destruct (End_whileQueue s fuel Hb (enterScope s st) Ho eq_refl)
      as [[Ho' Hs'] | (m & st' & -> & Ho' & Hq' & Hs' & Hm')].
    + destruct (whileQueue fuel s (enterScope s st)) as [st' | st'];
        cbn [state] in *.
      * rewrite Hs'. by apply IH.
      * by left.
    + right. rewrite Hs'. eauto 10.
Qed.

(** C3. Under End, when the engine enumerates a directory whose listing
    holds the target, it writes the first such item and stops: the items
    after it are not looked at, the queue is emptied, no directory and no
    later scope is enumerated, and the run is over. A whole run under End
    writes at most one match, and the line of that match is the last thing
    it writes. *)
Theorem End_stops_at_the_first_match fuel scope later d rest pre item post st :
  MatchBehavior_ p = End_ ->
  queue st = d :: rest ->
  listing scope d = pre ++ item :: post ->
  existsb isTarget pre = false ->
  isTarget item = true ->
  resume (S fuel) scope later st
  = Finished
      {| queue := [];
         shouldBreak := true;
         output := output st ++ [matchAt p scope (itemPath d item)];
         messages :=
           messages st
           ++ EnumeratingDirectory (currentUri (Share.Uri scope) d)
              :: map (fun i => Item (itemPath d i)) (pre ++ [item]) |}
  /\ (forall fuel' scopes,
        output (state (forEachScope fuel' scopes start)) = []
        \/ (exists m st',
              forEachScope fuel' scopes start = Finished st'
              /\ output st' = [m] /\ queue st' = [] /\ shouldBreak st' = true
              /\ last (messages st') = Some (Item (m_Path m)))).
Proof.
  intros Hb Hq Hl Hpre Hitem. split.
  - unfold Script.resume. rewrite (whileQueue_step _ _ _ _ _ Hq).
    rewrite (whileBody_first_match _ _ _ _ _ _ Hb Hl Hpre Hitem).
    by rewrite whileQueue_nil.
  - intros fuel' scopes. by apply End_writes_one_match_and_ends.
Qed.

(** *** Enough fuel *)

Lemma list_sum_filter {A} (f : A -> bool) (g : A -> nat) l :
  list_sum (map (fun i => if f i then g i else O) l)
  = list_sum (map g (List.filter f l)).
Proof.
  induction l as [| a l IH]; [done |]. cbn [map List.filter].
  destruct (f a); cbn [map]; change (list_sum (?x :: ?r)) with (x + list_sum r)%nat;
    by rewrite IH.
Qed.

Lemma cost_app scope l1 l2 :
  cost az scope (l1 ++ l2) = (cost az scope l1 + cost az scope l2)%nat.
Proof. unfold cost. by rewrite map_app, list_sum_app. Qed.

Lemma cost_cons scope h d l :
  cost az scope ((S h, d) :: l)
  = S (list_sum
         (map (directoryCount az h scope)
            (subdirectories d (listing scope d)))
       + cost az scope l).
Proof.
  unfold cost, subdirectories. cbn [map fst snd directoryCount].
  rewrite list_sum_filter, map_map. reflexivity.
Qed.

Lemma End_or_whole items :
  (MatchBehavior_ p = End_ /\ existsb isTarget items = true)
  \/ (MatchBehavior_ p = End_ -> existsb isTarget items = false).
Proof.
  destruct (MatchBehavior_ p), (existsb isTarget items); auto;
    right; discriminate.
Qed.

Lemma whileQueue_finishes scope fuel :
  forall l st,
    queue st = map snd l ->
    fits az scope l ->
    (cost az scope l <= fuel)%nat ->
    exists st', whileQueue fuel scope st = Finished st'.
Proof.
  induction fuel as [| fuel IH]; intros l st Hq Hfit Hcost;
    (destruct l as [| [h d] l]; [exists st; by apply whileQueue_nil |]);
    apply Forall_cons in Hfit as [Hh Hfit]; cbn [fst snd] in Hh;
    (destruct h as [| h]; [done |]);
    rewrite cost_cons in Hcost; [lia |].
  cbn in Hq. rewrite (whileQueue_step _ _ _ _ _ Hq).
  destruct (End_or_whole (listing scope d)) as [[Hb E] | Hwhole].
  - destruct (first_match _ _ E) as (pre & x & post & Hl & Hpre & Hx).
    rewrite (whileBody_first_match _ _ _ _ _ _ Hb Hl Hpre Hx).
    eexists. by apply whileQueue_nil.
  - apply (IH (l ++ map (fun c => (h, c))
                        (subdirectories d (listing scope d)))).
    + rewrite whileBody_whole by done. cbn.
      rewrite map_app, map_map, map_id. reflexivity.
    + apply Forall_app. split; [done |].
      apply Forall_map. unfold subdirectories. apply Forall_map.
      apply List.Forall_forall. intros i Hi.
      apply filter_In in Hi as [Hi Hd]. cbn [fst snd].
      cbn in Hh. rewrite List.Forall_forall in Hh. by apply Hh.
    + rewrite cost_app. unfold cost at 2. rewrite map_map. cbn [fst snd].
      apply le_S_n in Hcost. rewrite Nat.add_comm in Hcost. exact Hcost.
Qed.

(** *** Match behaviors ScopeEnd and Continue *)

Lemma flagAfter_false flag : flagAfter flag false = flag.
Proof. unfold Script.flagAfter. destruct (MatchBehavior_ p), flag; reflexivity. Qed.

Lemma flagAfter_twice flag a b :
  flagAfter (flagAfter flag a) b = flagAfter flag (a || b).
Proof.
  unfold Script.flagAfter. destruct (MatchBehavior_ p), flag, a, b; reflexivity.
Qed.

Lemma existsb_matchesIn scope d items :
  existsb isTarget items = (0 <? length (matchesIn scope d items))%nat.
Proof.
  unfold Script.matchesIn. induction items as [| i items IH]; [done |].
  cbn. unfold Script.isTarget in *. by destruct (eq _ _).
Qed.

Lemma in_matchesIn scope d items m :
  In m (matchesIn scope d items) <->
  exists i, In i items /\ isTarget i = true
            /\ m = matchAt p scope (itemPath d i).
Proof.
  unfold Script.matchesIn. rewrite in_map_iff. split.
  - intros (i & <- & Hi). apply filter_In in Hi as [Hi Ht]. eauto.
  - intros (i & Hi & Ht & ->). exists i. split; [done |].
    apply filter_In. by split.
Qed.

Lemma in_subdirectories d items c :
  In c (subdirectories d items) <->
  exists i, In i items /\ DirItem.IsDirectory i = true
            /\ c = directoryPath d i.
Proof.
  unfold subdirectories. rewrite in_map_iff. split.
  - intros (i & <- & Hi). apply filter_In in Hi as [Hi Ht]. eauto.
  - intros (i & Hi & Ht & ->). exists i. split; [done |].
    apply filter_In. by split.
Qed.

Lemma whileQueue_collects scope fuel :
  MatchBehavior_ p <> End_ ->
  forall st st',
    whileQueue fuel scope st = Finished st' ->
    exists new,
      output st' = output st ++ new
      /\ shouldBreak st' = flagAfter (shouldBreak st) (0 <? length new)%nat
      /\ (forall m, In m new <->
                    exists d, In d (queue st)
                              /\ OccursBelow eq az p scope d m).
Proof.
  intros Hb.
  induction fuel as [| fuel IH]; intros st st' H;
    destruct (queue st) as [| d0 rest] eqn:Hq;
    try (rewrite whileQueue_nil in H by done;
         injection H as <-; exists []; rewrite app_nil_r; cbn;
         rewrite flagAfter_false; split; [done |]; split; [done |];
         intros m; split; [done |]; by intros (d & [] & _)).
  - cbn in H. rewrite Hq in H. discriminate.
  - rewrite (whileQueue_step _ _ _ _ _ Hq) in H.
    rewrite whileBody_whole in H by done.
    apply IH in H as (new1 & Ho & Hs & Hin). cbn in Ho, Hs, Hin.
    exists (matchesIn scope d0 (listing scope d0) ++ new1).
    split; [by rewrite app_assoc |]. split.
    { rewrite Hs, flagAfter_twice, length_app, (existsb_matchesIn scope d0).
      f_equal. destruct (length (matchesIn _ _ _)), (length new1); reflexivity. }
    intros m. rewrite in_app_iff, Hin, in_matchesIn. split.
    + intros [(i & Hi & Ht & ->) | (d & Hd & Hm)].
      * exists d0. split; [by left |]. exists d0, i.
        split; [constructor | done].
      * apply in_app_iff in Hd as [Hd | Hd].
        -- exists d. split; [by right | done].
        -- apply in_subdirectories in Hd as (c & Hc & Hdir & ->).
           exists d0. split; [by left |].
           destruct Hm as (dir & i & Hbelow & Hm).
           exists dir, i. split; [| done].
           by apply below_step with c.
    + intros (d & [<- | Hd] & Hm).
      * destruct Hm as (dir & i & Hbelow & Hi & Ht & ->).
        inversion Hbelow as [| ? c ? Hc Hdir Hbelow']; subst.
        -- left. eauto.
        -- right. exists (directoryPath d0 c). split.
           ++ apply in_app_iff. right. apply in_subdirectories. eauto.
           ++ exists dir, i. eauto.
      * right. exists d. split; [| done]. apply in_app_iff. by left.
Qed.

(** C4. Under ScopeEnd, for a scope whose tree is finite and with fuel for
    its directories, the queue of the scope is drained; what the scope adds to
    the output is exactly the occurrences of the target anywhere in it; and
    when there is one, the run ends with that state, whatever scopes come
    later. *)
Theorem ScopeEnd_searches_the_scope_and_stops h fuel scope later st :
  MatchBehavior_ p = ScopeEnd ->
  heightBelow az h scope "/" ->
  (directoryCount az h scope "/" <= fuel)%nat ->
  exists st' new,
    whileQueue fuel scope (enterScope scope st) = Finished st'
    /\ output st' = output st ++ new
    /\ (forall m, In m new <-> Occurs eq az p scope m)
    /\ (new <> [] ->
        forEachScope fuel (scope :: later) st = Finished st')
    /\ (new = [] ->
        forEachScope fuel (scope :: later) st = forEachScope fuel later st').
Proof.
  intros Hb Hh Hfuel.
  destruct (whileQueue_finishes scope fuel [(h, "/")] (enterScope scope st))
    as [st' Hst'].
  { reflexivity. }
  { by constructor. }
  { unfold cost. cbn. lia. }
  destruct (whileQueue_collects scope fuel ltac:(congruence) _ _ Hst')
    as (new & Ho & Hs & Hin).
  exists st', new. split; [done |]. split; [done |]. split.
  { intros m. rewrite Hin. cbn. split.
    - by intros (d & [<- | []] & Hm).
    - intros Hm. exists "/". by split; [left |]. }
  cbn in Hs. unfold Script.flagAfter in Hs. rewrite Hb in Hs. cbn in Hs.
  split; intros Hnew; cbn [Script.forEachScope]; rewrite Hst', Hs.
  - by destruct new.
  - by rewrite Hnew.
Qed.

(** *** Enqueuing *)

(** C9, amended. Under ScopeEnd and Continue, and under End for a listing
    without the target, every directory of the listing is enqueued, in
    order, with a slash at the end, whether or not its name is the target.
    Under End a listing that holds the target leaves the queue empty. *)
Theorem directories_are_enqueued_unless_End_stops scope d items st :
  ((MatchBehavior_ p = End_ -> existsb isTarget items = false) ->
   queue (forEachDirItem scope d items st)
   = queue st ++ subdirectories d items)
  /\ (MatchBehavior_ p = End_ -> existsb isTarget items = true ->
      queue (forEachDirItem scope d items st) = []).
Proof.
  split.
  - intros H. by rewrite forEachDirItem_whole.
  - intros Hb E.
    destruct (first_match _ _ E) as (pre & x & post & -> & Hpre & Hx).
    by rewrite forEachDirItem_first_match.
Qed.

(** *** The shape of paths *)

Lemma append_nonempty a b : b <> EmptyString -> a +:+ b <> EmptyString.
Proof. by destruct a, b. Qed.

Lemma startsWithSlash_append a b :
  a <> EmptyString -> startsWithSlash (a +:+ b) = startsWithSlash a.
Proof. by destruct a. Qed.

Lemma endsWithSlash_cons c s :
  s <> EmptyString -> endsWithSlash (String c s) = endsWithSlash s.
Proof. by destruct s. Qed.

Lemma endsWithSlash_append a b :
  b <> EmptyString -> endsWithSlash (a +:+ b) = endsWithSlash b.
Proof.
  intros Hb. induction a as [| c a IH]; [done |].
  change (String c a +:+ b) with (String c (a +:+ b)).
  rewrite endsWithSlash_cons by (by apply append_nonempty). exact IH.
Qed.

Lemma noDoubleSlash_append a b :
  noDoubleSlash a = true -> noDoubleSlash b = true ->
  endsWithSlash a && startsWithSlash b = false ->
  noDoubleSlash (a +:+ b) = true.
Proof.
  induction a as [| c a IH]; [done |]. cbn [noDoubleSlash].
  intros Ha Hb Hab. apply andb_true_iff in Ha as [Hc Ha].
  change (String c a +:+ b) with (String c (a +:+ b)). cbn [noDoubleSlash].
  destruct a as [| c' a].
  - change (EmptyString +:+ b) with b. cbn in Hab. by rewrite Hab, Hb.
  - rewrite IH, startsWithSlash_append, Hc by done. done.
Qed.

Lemma validName_shape n :
  validName n = true ->
  n <> EmptyString /\ startsWithSlash n = false
  /\ endsWithSlash n = false /\ noDoubleSlash n = true.
Proof.
  unfold validName. intros H. apply andb_true_iff in H as [Hn Hs].
  apply negb_true_iff in Hn, Hs. split; [by destruct n |].
  clear Hn. induction n as [| c n IH]; [done |].
  cbn in Hs. apply orb_false_elim in Hs as [Hc Hs].
  destruct (IH Hs) as (Hst & Hen & Hno). cbn.
  rewrite Hc, Hno. split; [done |]. split; [| done].
  by destruct n.
Qed.

Lemma itemPath_shape d i :
  directoryShaped d = true ->
  validName (DirItem.Name i) = true ->
  wellFormed (itemPath d i) = true
  /\ directoryShaped (directoryPath d i) = true.
Proof.
  unfold directoryShaped, wellFormed, directoryPath, itemPath.
  intros Hd Hn.
  apply andb_true_iff in Hd as [Hd He]. apply andb_true_iff in Hd as [Hs Hd].
  apply validName_shape in Hn as (Hne & Hns & Hnend & Hnd).
  assert (Hd0 : d <> EmptyString) by (by destruct d).
  assert (Hp : noDoubleSlash (d +:+ DirItem.Name i) = true).
  { apply noDoubleSlash_append; [done .. |]. by rewrite Hns, andb_false_r. }
  assert (Hpe : endsWithSlash (d +:+ DirItem.Name i) = false).
  { by rewrite endsWithSlash_append. }
  assert (Hp0 : d +:+ DirItem.Name i <> EmptyString)
    by (by apply append_nonempty).
  rewrite !startsWithSlash_append, Hs, Hp by done.
  split; [done |].
  rewrite noDoubleSlash_append, endsWithSlash_append; try done.
  by rewrite Hpe.
Qed.

Lemma itemPaths_app a b : itemPaths (a ++ b) = itemPaths a ++ itemPaths b.
Proof. apply flat_map_app. Qed.

Lemma forEachDirItem_paths scope d items :
  directoryShaped d = true ->
  Forall (fun i => validName (DirItem.Name i) = true) items ->
  forall st, PathsOk st -> PathsOk (forEachDirItem scope d items st).
Proof.
  intros Hd. induction 1 as [| i items Hi _ IH]; intros st (Hq & Ho & Hm);
    [done |].
  destruct (itemPath_shape d i Hd Hi) as [Hp Hdp].
  assert (Hm' : Forall (fun path => wellFormed path = true)
                  (itemPaths (messages st ++ [Item (d +:+ DirItem.Name i)]))).
  { rewrite itemPaths_app. apply Forall_app. split; [done |].
    by repeat constructor. }
  assert (Hq' : Forall (fun d => directoryShaped d = true)
                  (queue st ++ [(d +:+ DirItem.Name i) +:+ "/"])).
  { apply Forall_app. split; [done |]. by repeat constructor. }
  assert (Ho' : Forall (fun m => wellFormed (m_Path m) = true)
                  (output st ++ [matchAt p scope (d +:+ DirItem.Name i)])).
  { apply Forall_app. split; [done |]. by repeat constructor. }
  cbn [Script.forEachDirItem].
  destruct (eq (DirItem.Name i) (TargetItemName p));
    [destruct (MatchBehavior_ p) |];
    try (split; [constructor | by split]);
    apply IH; destruct (DirItem.IsDirectory i); by repeat split.
Qed.

Section ValidNames.

Hypothesis names :
  forall uri i, In i (GetFilesAndDirectories az uri) ->
                validName (DirItem.Name i) = true.

Lemma whileQueue_paths scope fuel :
  forall st, PathsOk st -> PathsOk (state (whileQueue fuel scope st)).
Proof.
  induction fuel as [| fuel IH]; intros st Hst.
  - cbn. by destruct (queue st).
  - destruct (queue st) as [| d rest] eqn:Hq.
    + by rewrite whileQueue_nil.
    + rewrite (whileQueue_step _ _ _ _ _ Hq). apply IH.
      destruct Hst as (Hqs & Ho & Hm). rewrite Hq in Hqs.
      apply Forall_cons in Hqs as [Hd Hrest].
      apply forEachDirItem_paths; [done | |].
      * apply List.Forall_forall. intros i Hi. by eapply names.
      * split; [done |]. split; [done |]. cbn.
        rewrite itemPaths_app. cbn. by rewrite app_nil_r.
Qed.

Lemma forEachScope_paths fuel scopes :
  forall st, PathsOk st -> PathsOk (state (forEachScope fuel scopes st)).
Proof.
  induction scopes as [| s later IH]; intros st Hst; [done |].
  cbn [Script.forEachScope].
  assert (H : PathsOk (state (whileQueue fuel s (enterScope s st)))).
  { apply whileQueue_paths. destruct Hst as (_ & Ho & Hm).
    split; [by repeat constructor |]. split; [done |]. cbn.
    rewrite itemPaths_app. cbn. by rewrite app_nil_r. }
  destruct (whileQueue fuel s (enterScope s st)) as [st' | st'];
    cbn [state] in *; [| done].
  destruct (shouldBreak st'); [done | by apply IH].
Qed.

End ValidNames.

End Traversal.

(** *** The sample share *)

Lemma tree_names uri i :
  In i (tree uri) -> validName (DirItem.Name i) = true.
Proof.
  unfold tree. repeat destruct (String.eqb _ _); cbn; intuition (by subst).
Qed.

(** The scopes of the sample with search scope Both. *)
Lemma Both_on_the_sample :
  exists first rest,
    [live; snapshot3; snapshot2; snapshot1] = first ++ rest
    /\ first = fileShare ieq testsa (request Both Continue)
    /\ first <> []
    /\ Forall (fun s => Share.IsSnapshot s = false) first
    /\ Forall (fun s => Share.IsSnapshot s = true) rest
    /\ Permutation rest
         (List.filter Share.IsSnapshot
            (fileSharesMatchingName ieq testsa (request Both Continue)))
    /\ StronglySorted after rest.
Proof.
  apply (Both_puts_live_before_snapshots ieq testsa (request Both Continue)).
  - reflexivity.
  - vm_compute. reflexivity.
  - vm_compute. repeat (constructor; [cbn; intuition discriminate |]).
    constructor.
Defined.

(** The same request for the accounts testsa and testsb. *)
Lemma credential_on_the_sample :
  AccountName
    (snd ([live; snapshot3; snapshot2; snapshot1],
          sharedKeyCred "a2V5LW9mLXRlc3RzYQ=="))
  = "wgriesmfsressa2"
  /\ AccountName (snd ([live], sharedKeyCred "a2V5LW9mLXRlc3RzYg=="))
     = AccountName
         (snd ([live; snapshot3; snapshot2; snapshot1],
               sharedKeyCred "a2V5LW9mLXRlc3RzYQ==")).
Proof.
  apply (credential_account_is_constant ieq azure (request Both Continue)
           "testsb").
  - vm_compute. reflexivity.
  - vm_compute. reflexivity.
Defined.

(** Under End, with directory A at the head of the queue and B behind it. *)
Lemma End_on_the_sample :
  resume ieq azure (request Both End_) 1 live [snapshot3; snapshot2; snapshot1]
    atA
  = Finished
      {| queue := [];
         shouldBreak := true;
         output := output atA
                   ++ [matchAt (request Both End_) live
                         (itemPath "/A/" (DirItem.mk "report" true))];
         messages :=
           messages atA
           ++ EnumeratingDirectory (currentUri (Share.Uri live) "/A/")
              :: map (fun i => Item (itemPath "/A/" i))
                   ([DirItem.mk "notes.txt" false] ++ [DirItem.mk "report" true]) |}
  /\ (forall fuel' scopes,
        output (state (forEachScope ieq azure (request Both End_) fuel' scopes
                         start)) = []
        \/ (exists m st',
              forEachScope ieq azure (request Both End_) fuel' scopes start
              = Finished st'
              /\ output st' = [m] /\ queue st' = [] /\ shouldBreak st' = true
              /\ last (messages st') = Some (Item (m_Path m)))).
Proof.
  apply (End_stops_at_the_first_match ieq azure (request Both End_) 0 live
           [snapshot3; snapshot2; snapshot1] "/A/" ["/B/"]
           [DirItem.mk "notes.txt" false] (DirItem.mk "report" true)
           [DirItem.mk "zeta" true] atA); reflexivity.
Defined.

(** Under ScopeEnd, from the start, with the snapshots behind the live
    share. *)
Lemma ScopeEnd_on_the_sample :
  exists st' new,
    whileQueue ieq azure (request Both ScopeEnd) 5 live (enterScope live start)
    = Finished st'
    /\ output st' = output start ++ new
    /\ (forall m, In m new <-> Occurs ieq azure (request Both ScopeEnd) live m)
    /\ (new <> [] ->
        forEachScope ieq azure (request Both ScopeEnd) 5
          (live :: [snapshot3; snapshot2; snapshot1]) start
        = Finished st')
    /\ (new = [] ->
        forEachScope ieq azure (request Both ScopeEnd) 5
          (live :: [snapshot3; snapshot2; snapshot1]) start
        = forEachScope ieq azure (request Both ScopeEnd) 5
            [snapshot3; snapshot2; snapshot1] st').
Proof.
  apply (ScopeEnd_searches_the_scope_and_stops ieq azure
           (request Both ScopeEnd) 3 5 live [snapshot3; snapshot2; snapshot1]
           start).
  - reflexivity.
  - cbn. repeat (constructor; cbn; intros; try discriminate).
  - vm_compute. lia.
Defined.

(** The whole script on the sample, under each match behavior: End writes the
    first match, ScopeEnd the three of the live share, Continue the three of
    each of the four scopes. *)
Example runs_on_the_sample :
  (exists st,
     recursiveSearch ieq 20 azure (request Both End_) = inr (Finished st)
     /\ map m_Path (output st) = ["/A/report"]
     /\ map m_SnapshotTime (output st) = [None])
  /\ (exists st,
        recursiveSearch ieq 20 azure (request Both ScopeEnd) = inr (Finished st)
        /\ map m_Path (output st)
           = ["/A/report"; "/B/report"; "/A/report/report"]
        /\ map m_SnapshotTime (output st) = [None; None; None])
  /\ (exists st,
        recursiveSearch ieq 20 azure (request Both Continue) = inr (Finished st)
        /\ map m_Path (output st)
           = [ "/A/report"; "/B/report"; "/A/report/report";
               "/A/report"; "/B/report"; "/A/report/report";
               "/A/report"; "/B/report"; "/A/report/report";
               "/A/report"; "/B/report"; "/A/report/report" ]
        /\ map m_SnapshotTime (output st)
           = [ None; None; None; Some 300; Some 300; Some 300;
               Some 200; Some 200; Some 200; Some 100; Some 100; Some 100 ]%Z).
Proof.
  repeat split; eexists; (split; [vm_compute; reflexivity |]);
    split; vm_compute; reflexivity.
Qed.

(** C9, as stated, fails: under End the directory report of A, whose name
    is the target, is not enqueued, and the run never enumerates it. *)
Lemma End_does_not_enqueue_the_matched_directory :
  In (DirItem.mk "report" true) (listing azure live "/A/")
  /\ queue (forEachDirItem ieq (request FileShare End_) live "/A/"
              (listing azure live "/A/")
              insideA)
     = []
  /\ (exists st,
        recursiveSearch ieq 10 azure (request FileShare End_)
        = inr (Finished st)
        /\ enumerated (messages st)
           = [currentUri liveUri "/"; currentUri liveUri "/A/"]).
Proof.
  split; [| split].
  - vm_compute. auto.
  - reflexivity.
  - eexists. split; vm_compute; reflexivity.
Qed.

(** The listing of A under ScopeEnd and under End. *)
Lemma enqueuing_on_the_sample :
  queue (forEachDirItem ieq (request Both ScopeEnd) live "/A/"
           (listing azure live "/A/") insideA)
  = ["/B/"; "/A/report/"; "/A/zeta/"]
  /\ queue (forEachDirItem ieq (request Both End_) live "/A/"
              (listing azure live "/A/") insideA)
     = [].
Proof.
  split.
  - apply (directories_are_enqueued_unless_End_stops ieq
             (request Both ScopeEnd) live "/A/" (listing azure live "/A/") insideA).
    discriminate.
  - apply (directories_are_enqueued_unless_End_stops ieq
             (request Both End_) live "/A/" (listing azure live "/A/") insideA);
      reflexivity.
Defined.

End ScriptFacts.

(** ** The cache store: every row of a table *)

Module ColumnFacts.

Import Js Sqlite CacheDb Samples CacheDbFacts.

Lemma differs_ignores_key e f g : sameButKey f g -> differs e f = differs e g.
Proof. intros (_ & Ht & Hn). unfold differs. by rewrite Ht, Hn. Qed.

Lemma collectFound_ignores_key expected (pk : SchemaRow -> Z) a :
  forall f f' : gmap string SqliteColumn,
    (forall n, option_Forall2 sameButKey (f !! n) (f' !! n)) ->
    option_Forall2
      (fun g g' : gmap string SqliteColumn =>
         forall n, option_Forall2 sameButKey (g !! n) (g' !! n))
      (collectFound expected a f)
      (collectFound expected (map (fun r => withPk (pk r) r) a) f').
Proof.
  induction a as [| row a IH]; intros f f' Hf; [by constructor |].
  cbn [map collectFound withPk row_type row_name row_notnull row_pk].
  destruct (row_type row) as [ty |]; [| constructor].
  cbn [name nullable].
  destruct (get expected (row_name row)) as [e |].
  - rewrite (differs_ignores_key e _
               {| name := row_name row; type := ty;
                  nullable := negb (row_notnull row);
                  primaryKey := toBoolean (Number (pk row)) |})
      by done.
    destruct (differs e _); [constructor |].
    apply IH. intros n. destruct (decide (row_name row = n)) as [<- | Hne].
    + rewrite !lookup_insert_eq. by constructor.
    + by rewrite !lookup_insert_ne.
  - destruct (negb (negb (row_notnull row))); [constructor | by apply IH].
Qed.

Lemma forallb_pointwise {A} (f g : A -> bool) l :
  (forall x, f x = g x) -> forallb f l = forallb g l.
Proof. intros H. induction l as [| a l IH]; [done |]. cbn. by rewrite H, IH. Qed.

Lemma eq_bool_iff (a b : bool) : (a = true <-> b = true) -> a = b.
Proof. destruct a, b; intuition congruence. Qed.

(** X1. What [columnsMatch] decides for the two tables of the store: it
    holds exactly when every row of the introspection has a type and, if an
    expected column bears its name, the type and nullability of that column,
    and is nullable otherwise, and every expected column has a row of its
    name. *)
Theorem columnsMatch_on_the_expected_tables a :
  (columnsMatch fileSharesColumns a = true <->
   Forall (accepted fileSharesColumns) a
   /\ Forall (fun e => exists row, In row a /\ row_name row = name e)
        (values fileSharesColumns))
  /\ (columnsMatch fileSystemEntriesColumns a = true <->
      Forall (accepted fileSystemEntriesColumns) a
      /\ Forall (fun e => exists row, In row a /\ row_name row = name e)
           (values fileSystemEntriesColumns)).
Proof.
  split.
  - apply columnsMatch_characterisation, fileSharesColumns_keyed.
  - apply columnsMatch_characterisation, fileSystemEntriesColumns_keyed.
Qed.

(** X2. [columnsMatch] never reads the [pk] of a row: whatever values are
    put there, for whatever expected columns, the result is the same. *)
Theorem columnsMatch_never_reads_pk expected (pk : SchemaRow -> Z) a :
  columnsMatch expected (map (fun r => withPk (pk r) r) a)
  = columnsMatch expected a.
Proof.
  unfold columnsMatch.
  destruct (collectFound_ignores_key expected pk a ∅ ∅) as [g g' Hg |].
  { intros n. rewrite lookup_empty. constructor. }
  - unfold allExpectedFound. apply forallb_pointwise. intros e.
    destruct (Hg (name e)) as [c c' Hc |]; [| done].
    by rewrite (differs_ignores_key e c c').
  - done.
Qed.

(** X3. The order of the rows of the introspection plays no part in
    [columnsMatch], for expected columns keyed by their names. *)
Theorem columnsMatch_ignores_row_order expected a a' :
  keyedByName expected ->
  Permutation a a' ->
  columnsMatch expected a = columnsMatch expected a'.
Proof.
  intros Hk Hp. apply eq_bool_iff.
  rewrite !columnsMatch_characterisation by done.
  split; intros [Hacc Hpres]; (split;
    [ eapply Permutation_Forall; [| exact Hacc]; by (try symmetry)
    | eapply Forall_impl; [exact Hpres |]; cbn;
      intros e (row & Hrow & Hn); exists row; split; [| done];
      eapply Permutation_in; [| exact Hrow]; by (try symmetry) ]).
Qed.

(** The rows of a FileShares table read from the last to the first. *)
Lemma row_order_on_the_sample :
  columnsMatch fileSharesColumns fileSharesWithoutKey
  = columnsMatch fileSharesColumns (rev fileSharesWithoutKey).
Proof.
  apply (columnsMatch_ignores_row_order fileSharesColumns
           fileSharesWithoutKey (rev fileSharesWithoutKey)).
  - split; [by repeat constructor |].
    vm_compute. repeat (constructor; [cbn; intuition discriminate |]).
    constructor.
  - apply Permutation_rev.
Defined.

(** *** The text of a [CREATE TABLE] statement *)

Lemma append_assoc (a b c : string) : (a +:+ b) +:+ c = a +:+ (b +:+ c).
Proof.
  induction a as [| x a IH]; [done |].
  change (String x ((a +:+ b) +:+ c) = String x (a +:+ (b +:+ c))).
  by f_equal.
Qed.

Lemma append_empty (a : string) : a +:+ EmptyString = a.
Proof.
  induction a as [| x a IH]; [done |].
  change (String x (a +:+ EmptyString) = String x a). by f_equal.
Qed.

(** The texts of a list, each after a comma. *)
Local Abbreviation prefixed l :=
  (String.concat EmptyString (map (String.append ", ") l)).

Lemma concat_empty_cons x l :
  String.concat EmptyString (x :: l) = x +:+ String.concat EmptyString l.
Proof. destruct l; cbn; [by rewrite append_empty | done]. Qed.

Lemma concat_prefixed x l :
  String.concat ", " (x :: l) = x +:+ prefixed l.
Proof.
  revert x. induction l as [| y l IH]; intros x; [by rewrite append_empty |].
  change (String.concat ", " (x :: y :: l))
    with (x +:+ ", " +:+ String.concat ", " (y :: l)).
  rewrite IH. cbn [map]. rewrite concat_empty_cons.
  by rewrite <- !append_assoc.
Qed.

Lemma prefixed_app l l' : prefixed (l ++ l') = prefixed l +:+ prefixed l'.
Proof.
  induction l as [| x l IH]; [done |]. cbn [app map].
  by rewrite !concat_empty_cons, IH, !append_assoc.
Qed.

Lemma appendColumns_later columns : forall q keys i,
  appendColumns columns q keys (S i)
  = (q +:+ prefixed (map columnText columns),
     keys ++ map name (List.filter primaryKey columns)).
Proof.
  induction columns as [| c columns IH]; intros q keys i.
  - cbn. by rewrite append_empty, app_nil_r.
  - cbn [appendColumns]. rewrite IH. cbn [map List.filter].
    rewrite concat_empty_cons. unfold columnText. f_equal.
    + destruct (nullable c); cbn [negb Nat.ltb Nat.leb];
        rewrite ?append_assoc; reflexivity.
    + destruct (primaryKey c); [by rewrite <- app_assoc | done].
Qed.

Lemma appendColumns_first columns q :
  appendColumns columns q [] 0
  = (q +:+ String.concat ", " (map columnText columns),
     map name (List.filter primaryKey columns)).
Proof.
  destruct columns as [| c columns]; [cbn; by rewrite append_empty |].
  cbn [appendColumns]. rewrite appendColumns_later. cbn [map List.filter].
  rewrite concat_prefixed. unfold columnText. f_equal.
  - destruct (nullable c); cbn [negb Nat.ltb Nat.leb];
      rewrite ?append_assoc; reflexivity.
  - by destruct (primaryKey c).
Qed.

Lemma appendKeys_later keys : forall q j,
  appendKeys keys q (S j)
  = q +:+ prefixed (map (fun k => dquote +:+ k +:+ dquote) keys).
Proof.
  induction keys as [| k keys IH]; intros q j; [by rewrite append_empty |].
  cbn [appendKeys]. rewrite IH. cbn [map]. rewrite concat_empty_cons.
  cbn [Nat.ltb Nat.leb]. by rewrite ?append_assoc.
Qed.

Lemma appendKeys_first keys q :
  appendKeys keys q 0
  = q +:+ String.concat ", " (map (fun k => dquote +:+ k +:+ dquote) keys).
Proof.
  destruct keys as [| k keys]; [by rewrite append_empty |].
  cbn [appendKeys]. rewrite appendKeys_later. cbn [map].
  rewrite concat_prefixed. cbn [Nat.ltb Nat.leb]. by rewrite ?append_assoc.
Qed.

(** X22. The text [buildCreateTableQuery] builds: the columns in the order of
    the map, separated by commas, each with its name in double quotes, its
    type and NOT NULL unless nullable; then, when some column is marked
    primary, one clause with the names of those columns in the order of the
    map; no comma in front or at the end, and empty parentheses for an empty
    map. *)
Theorem buildCreateTableQuery_text tableName columns :
  buildCreateTableQuery tableName columns
  = "CREATE TABLE " +:+ dquote +:+ tableName +:+ dquote +:+ " ("
    +:+ String.concat ", "
          (map columnText (values columns) ++ keyClause (Spec.keyOf columns))
    +:+ ") STRICT".
Proof.
  unfold buildCreateTableQuery, Spec.keyOf.
  rewrite appendColumns_first, appendKeys_first.
  set (cols := values columns).
  destruct (map name (List.filter primaryKey cols)) as [| k keys] eqn:Hk.
  - cbn [length Nat.ltb Nat.leb keyClause map String.concat].
    rewrite app_nil_r, append_empty. by rewrite !append_assoc.
  - destruct cols as [| c cols]; [done |].
    cbn [length Nat.ltb Nat.leb keyClause].
    cbn [map app]. rewrite !concat_prefixed, prefixed_app.
    cbn [map]. rewrite (concat_empty_cons _ []). cbn [String.concat].
    rewrite append_empty. by rewrite !append_assoc.
Qed.

End ColumnFacts.

(** ** The cache store: every path of [init] *)

Module InitFacts.

Import Js Sqlite CacheDb Samples CacheDbFacts.

(** *** Rules for the triples *)

Section Rules.
Context {R A B : Type}.
Implicit Types (P : DefaultCacheDb * World -> Prop).

Lemma hoare_bind P (m : M R A) (k : A -> M R B) QN1 QN QR QT :
  hoare P m QN1 QR QT ->
  (forall a, hoare (QN1 a) (k a) QN QR QT) ->
  hoare P (m ≫= k) QN QR QT.
Proof.
  intros Hm Hk s Hs. specialize (Hm s Hs).
  unfold mbind, M_bind, bind. destruct (m s) as [[a | r | e] s']; [| done ..].
  by apply Hk.
Qed.

Lemma hoare_tryCatch P (body : M R A) h QN QR QT1 QT :
  hoare P body QN QR QT1 ->
  (forall e, hoare (QT1 e) (h e) QN QR QT) ->
  hoare P (tryCatch body h) QN QR QT.
Proof.
  intros Hm Hh s Hs. specialize (Hm s Hs).
  unfold tryCatch. destruct (body s) as [[a | r | e] s']; [done .. |].
  by apply Hh.
Qed.

Lemma hoare_pure P (a : A) (QN : A -> _ -> Prop) (QR : R -> _ -> Prop) QT :
  (forall s, P s -> QN a s) -> hoare P (pure a) QN QR QT.
Proof. intros H s Hs. by apply H. Qed.

Lemma hoare_return P (r : R) (QN : A -> _ -> Prop) (QR : R -> _ -> Prop) QT :
  (forall s, P s -> QR r s) -> hoare P (return_ r) QN QR QT.
Proof. intros H s Hs. by apply H. Qed.

End Rules.

Lemma Frame_refl w : Frame w w.
Proof. by repeat split. Qed.

Lemma last_submitted q db : last (history (submitted q db)) = Some q.
Proof. cbn. apply last_snoc. Qed.

Lemma apply_own st db db' :
  ownStatement st ->
  Sqlite.apply st db = inr db' ->
  rejects db' = rejects db /\ history db' = history db
  /\ forall t, t <> "FileShares" -> t <> "FileSystemEntries" ->
               tables db' !! t = tables db !! t.
Proof.
  destruct st as [m | t | t | t cols key strict]; cbn; intros Hown H.
  - by injection H as <-.
  - by injection H as <-.
  - injection H as <-. cbn. repeat split. intros t' H1 H2.
    apply lookup_delete_ne. destruct Hown; congruence.
  - destruct (tables db !! t); [done |].
    destruct (strict && _); [done |]. destruct (negb _); [done |].
    injection H as <-. cbn. repeat split. intros t' H1 H2.
    apply lookup_insert_ne. destruct Hown; congruence.
Qed.

Lemma Frame_submitted w0 w q db' :
  Frame w0 w ->
  rejects db' = rejects (database w) ->
  history db' = history (database w) ++ [q] ->
  (forall t, t <> "FileShares" -> t <> "FileSystemEntries" ->
             tables db' !! t = tables (database w) !! t) ->
  Frame w0 (withDatabase db' w).
Proof.
  intros (Hm & Ho & Hr & Hh & Ht) Hr' Hh' Ht'. repeat split; cbn; try done.
  - congruence.
  - rewrite Hh'. by apply prefix_app_r.
  - intros t H1 H2. rewrite Ht' by done. by apply Ht.
Qed.

Lemma Clean_same_table expected t db db' :
  tables db' !! t = tables db !! t ->
  Clean expected t db -> Clean expected t db'.
Proof.
  intros Ht (schema & Hp & H). exists schema. unfold tableInfo in *.
  by rewrite Ht.
Qed.

Lemma apply_drop t db db' :
  Sqlite.apply (DropTableIfExists t) db = inr db' ->
  tables db' = delete t (tables db).
Proof. cbn. by intros [= <-]. Qed.

Lemma apply_created t cols key strict db db' :
  Sqlite.apply (CreateTable t cols key strict) db = inr db' ->
  tables db' = <[t := newTable cols key strict]> (tables db).
Proof.
  cbn. destruct (tables db !! t); [done |].
  destruct (strict && _); [done |]. destruct (negb _); [done |].
  by intros [= <-].
Qed.

Lemma Clean_created_FileShares db :
  tables db !! "FileShares"
  = Some (newTable
            [ ("fileShareId", "TEXT", true); ("dataPlaneUri", "TEXT", true);
              ("resourceName", "TEXT", true); ("resourceType", "TEXT", true);
              ("resourceCreateDate", "INTEGER", true);
              ("fileShareName", "TEXT", true); ("isSnapshot", "INTEGER", true);
              ("snapshotTime", "INTEGER", true) ]
            [ "fileShareId"; "dataPlaneUri" ] true) ->
  Clean fileSharesColumns "FileShares" db.
Proof.
  intros H. unfold Clean, tableInfo. rewrite H. eexists.
  split; [vm_compute; reflexivity |]. split; [done |]. vm_compute. reflexivity.
Qed.

Lemma Clean_created_FileSystemEntries db :
  tables db !! "FileSystemEntries"
  = Some (newTable
            [ ("fileShareId", "TEXT", true); ("dataPlaneUri", "TEXT", true);
              ("path", "TEXT", true); ("entryName", "TEXT", true) ]
            [ "fileShareId"; "dataPlaneUri"; "path" ] true) ->
  Clean fileSystemEntriesColumns "FileSystemEntries" db.
Proof.
  intros H. unfold Clean, tableInfo. rewrite H. eexists.
  split; [vm_compute; reflexivity |]. split; [done |]. vm_compute. reflexivity.
Qed.

Lemma Clean_kept expected t rows schema db :
  rows = tableInfo t db ->
  safeParse rows = Success schema ->
  createTable expected schema = false ->
  Clean expected t db.
Proof.
  intros -> Hp Hc. exists schema. split; [done |]. unfold createTable in Hc.
  destruct schema; [done |]. cbn in Hc. split; [done |].
  by apply negb_false_iff.
Qed.

Section Engine.
Context {R : Type} (this0 : DefaultCacheDb) (w0 : World).
Implicit Types (P : DefaultCacheDb * World -> Prop).

Lemma Opened_submitted this w q db' :
  Opened this0 w0 (this, w) ->
  rejects db' = rejects (database w) ->
  history db' = history (database w) ++ [q] ->
  (forall t, t <> "FileShares" -> t <> "FileSystemEntries" ->
             tables db' !! t = tables (database w) !! t) ->
  Opened this0 w0 (this, withDatabase db' w) /\
  lastQuery (this, withDatabase db' w) = Some q.
Proof.
  intros (Hc & Hd & Hf) Hr Hh Ht. split.
  - split; [done |]. split; [done |]. by apply (Frame_submitted w0 w q).
  - unfold lastQuery. cbn. rewrite Hh. apply last_snoc.
Qed.

Lemma hoare_connectionRun P query st (J : Database -> Prop)
    (QR : R -> _ -> Prop) :
  Sqlite.parse query = Some st ->
  ownStatement st ->
  (forall s, P s -> Opened this0 w0 s) ->
  (forall s db', P s ->
     rejects (database w0) query = false ->
     Sqlite.apply st (submitted query (database (snd s))) = inr db' ->
     J db') ->
  hoare P (connectionRun query)
    (fun _ s => Opened this0 w0 s /\ J (database (snd s)))
    QR
    (fun _ s => Opened this0 w0 s /\ lastQuery s = Some query).
Proof.
  intros Hp Hown HP HJ [this w] Hs. pose proof (HP _ Hs) as Ho.
  destruct Ho as (Hc & Hd & Hf). cbn [fst snd] in Hc, Hd, Hf.
  assert (Ho : Opened this0 w0 (this, w)) by done.
  unfold connectionRun. cbn [fst snd]. rewrite Hc.
  unfold Sqlite.run. rewrite Hp.
  destruct (rejects (database w) query) eqn:Hrej.
  { by apply Opened_submitted. }
  destruct (Sqlite.apply st _) as [e | db2] eqn:Ha.
  { by apply Opened_submitted. }
  destruct (apply_own _ _ _ Hown Ha) as (Hr2 & Hh2 & Ht2).
  split.
  - by apply (Opened_submitted this w query db2).
  - cbn. apply (HJ _ _ Hs); [| exact Ha].
    destruct Hf as (_ & _ & <- & _). exact Hrej.
Qed.

Lemma hoare_connectionAll P query t (J : list RawRow -> Database -> Prop)
    (QR : R -> _ -> Prop) :
  Sqlite.parse query = Some (PragmaTableInfo t) ->
  (forall s, P s -> Opened this0 w0 s) ->
  (forall s, P s ->
     rejects (database w0) query = false ->
     J (tableInfo t (database (snd s)))
       (submitted query (database (snd s)))) ->
  hoare P (connectionAll query)
    (fun rows s => Opened this0 w0 s /\ lastQuery s = Some query
                   /\ J rows (database (snd s)))
    QR
    (fun _ s => Opened this0 w0 s /\ lastQuery s = Some query).
Proof.
  intros Hp HP HJ [this w] Hs. pose proof (HP _ Hs) as Ho.
  destruct Ho as (Hc & Hd & Hf). cbn [fst snd] in Hc, Hd, Hf.
  assert (Ho : Opened this0 w0 (this, w)) by done.
  unfold connectionAll. cbn [fst snd]. rewrite Hc.
  unfold Sqlite.all. rewrite Hp.
  destruct (rejects (database w) query) eqn:Hrej.
  { by apply Opened_submitted. }
  destruct (Opened_submitted this w query (submitted query (database w)) Ho)
    as [H1 H2]; try done.
  split; [done |]. split; [done |]. cbn.
  apply (HJ _ Hs). destruct Hf as (_ & _ & <- & _). exact Hrej.
Qed.

End Engine.

Section InitSteps.
Context (this0 : DefaultCacheDb) (w0 : World).
Implicit Types (P : DefaultCacheDb * World -> Prop).

Local Abbreviation R := (Result unit CacheDbInitFailure).
Local Abbreviation Inv := (Opened this0 w0).
Local Abbreviation Rep :=
  (fun (r : R) s => Opened this0 w0 s /\ Reported this0 w0 r s).

Lemma hoare_run_reported P query reported st (J : Database -> Prop)
    (QT : Error -> _ -> Prop) :
  Sqlite.parse query = Some st ->
  ownStatement st ->
  (reported = query
   \/ (reported = "DROP TABLE IF EXISTS FileShares"
       /\ query = "DROP TABLE IF EXISTS FileSystemEntries")) ->
  (forall s, P s -> Inv s) ->
  (forall s db', P s ->
     rejects (database w0) query = false ->
     Sqlite.apply st (submitted query (database (snd s))) = inr db' ->
     J db') ->
  hoare P (tryCatch (connectionRun query)
             (queryFailure (dbPath this0) reported))
    (fun _ s => Inv s /\ J (database (snd s))) Rep QT.
Proof.
  intros Hp Hown Hq HP HJ s Hs.
  pose proof (hoare_connectionRun (R := R) this0 w0 P query st J
                (fun _ _ => False) Hp Hown HP HJ s Hs) as H.
  unfold tryCatch. destruct (connectionRun query s) as [[a | r | e] s'].
  - done.
  - done.
  - destruct H as [Ho Hl]. cbn. split; [done |]. split; [apply Ho |].
    split; [done |]. destruct Hq as [-> | [-> ->]]; [by left | by right].
Qed.

Lemma hoare_all_reported P query t (J : list RawRow -> Database -> Prop)
    (QT : Error -> _ -> Prop) :
  Sqlite.parse query = Some (PragmaTableInfo t) ->
  (forall s, P s -> Inv s) ->
  (forall s, P s ->
     rejects (database w0) query = false ->
     J (tableInfo t (database (snd s)))
       (submitted query (database (snd s)))) ->
  hoare P (tryCatch (connectionAll query)
             (queryFailure (dbPath this0) query))
    (fun rows s => Inv s /\ lastQuery s = Some query
                   /\ J rows (database (snd s))) Rep QT.
Proof.
  intros Hp HP HJ s Hs.
  pose proof (hoare_connectionAll (R := R) this0 w0 P query t J
                (fun _ _ => False) Hp HP HJ s Hs) as H.
  unfold tryCatch. destruct (connectionAll query s) as [[a | r | e] s'].
  - done.
  - done.
  - destruct H as [Ho Hl]. cbn. split; [done |]. split; [apply Ho |].
    split; [done |]. by left.
Qed.

Lemma hoare_parsed P rows (J : SqliteSchema -> Database -> Prop)
    (QT : Error -> _ -> Prop) :
  (forall s, P s ->
     Inv s /\ (lastQuery s = Some "PRAGMA table_info(FileShares)"
               \/ lastQuery s = Some "PRAGMA table_info(FileSystemEntries)")) ->
  (forall s data, P s -> safeParse rows = Success data ->
                  J data (database (snd s))) ->
  hoare P
    (match safeParse rows with
     | Failure error => schemaFailure (dbPath this0) error
     | Success data => pure data
     end)
    (fun data s => Inv s /\ J data (database (snd s))) Rep QT.
Proof.
  intros HP HJ s Hs. destruct (HP s Hs) as [Ho Hl].
  destruct (safeParse rows) eqn:E; cbn.
  - split; [done |]. by apply HJ.
  - split; [done |]. split; [apply Ho |]. by split.
Qed.

End InitSteps.

Lemma hoare_apply {R A} P (m : M R A) QN QR QT s :
  hoare P m QN QR QT -> P s ->
  match m s with
  | (Next a, s') => QN a s'
  | (Return r, s') => QR r s'
  | (Throw e, s') => QT e s'
  end.
Proof. intros H Hs. by apply H. Qed.

Lemma lookup_other_statement st q db db' t :
  match st with
  | DropTableIfExists t' | CreateTable t' _ _ _ => t' <> t
  | _ => True
  end ->
  Sqlite.apply st (submitted q db) = inr db' ->
  tables db' !! t = tables db !! t.
Proof.
  destruct st as [m | t' | t' | t' cols key strict]; intros Hne H.
  - cbn in H. by injection H as <-.
  - cbn in H. by injection H as <-.
  - rewrite (apply_drop _ _ _ H). cbn. by apply lookup_delete_ne.
  - rewrite (apply_created _ _ _ _ _ _ H). cbn. by apply lookup_insert_ne.
Qed.

(** Every way [init] can end on an object that has no connection yet. *)
Lemma init_cases this w :
  connection this = None ->
  let '(outcome, this', w') := init this w in
  dbPath this' = dbPath this
  /\ Frame w w'
  /\ match outcome with
     | Thrown _ =>
         connection this' = Some (Handle (dbPath this))
         /\ lastQuery (this', w') = Some "PRAGMA journal_mode=WAL"
     | Returned r => Reported this w r (this', w')
     end.
Proof.
  intros Hc. unfold init, initBody.
  do 3 (erewrite bind_next; [| reflexivity]).
  erewrite bind_next;
    [| unfold thisConnection; cbn [fst]; rewrite Hc; reflexivity].
  destruct (openError w) as [e |] eqn:Ho.
  { unfold mbind, M_bind, bind, tryCatch, newDatabase. cbn [fst snd].
    rewrite Ho. cbn. split; [done |]. split; [apply Frame_refl |].
    by rewrite Ho. }
  erewrite bind_next;
    [| apply tryCatch_next; unfold mbind, M_bind, bind, newDatabase;
       cbn [fst snd]; rewrite Ho; reflexivity].
  cbn [fst snd].
  set (s1 := (_, w)).
  assert (Hs1 : Opened this w s1).
  { split; [done |]. split; [done |]. apply Frame_refl. }
  set (wal := rejects (database w) "PRAGMA journal_mode=WAL" = false).
  set (fs := rejects (database w) "PRAGMA table_info(FileShares)" = false).
  set (en := rejects (database w) "PRAGMA table_info(FileSystemEntries)"
             = false).
  match goal with
  | |- context [@mbind _ _ _ _ ?k ?m s1] =>
      pose proof (hoare_apply (Opened this w) (m ≫= k)
                    (fun r s => Opened this w s /\ Reported this w r s)
                    (fun r s => Opened this w s /\ Reported this w r s)
                    (fun _ s => Opened this w s
                                /\ lastQuery s = Some "PRAGMA journal_mode=WAL")
                    s1) as H
  end.
  match type of H with ?A -> _ -> _ => assert (Hh : A) end.
  { eapply hoare_bind.
    { eapply (hoare_connectionRun _ _ _ _ _ (fun _ => wal));
        [by vm_compute | exact I | done | done]. }
    intros ?.
    eapply hoare_bind.
    { eapply (hoare_all_reported _ _ _ _ _
                (fun rows db =>
                   wal /\ fs /\ rows = tableInfo "FileShares" db));
        [by vm_compute | by intros s [? _] | by intros s [_ ?] ?]. }
    intros rows1.
    eapply hoare_bind.
    { eapply (hoare_parsed _ _ _ _
                (fun schema db =>
                   wal /\ fs
                   /\ rows1 = tableInfo "FileShares" db
                   /\ safeParse rows1 = Success schema)).
      - intros s (? & ? & _). split; [done | by left].
      - by intros s data (_ & _ & ? & ? & ?) ?. }
    intros schema1.
    eapply hoare_bind.
    { instantiate
        (1 := fun _ s =>
                Opened this w s
                /\ (wal /\ fs
                    /\ Clean fileSharesColumns "FileShares"
                         (database (snd s)))).
      destruct (createTable fileSharesColumns schema1) eqn:Hcreate.
      - eapply hoare_bind.
        { eapply (hoare_run_reported _ _ _ _ _ _ (fun _ => wal /\ fs));
            [by vm_compute | by left | by left | by intros s [? _] |].
          by intros s db' (_ & ? & ? & _) _ _. }
        intros ?. eapply hoare_bind.
        { eapply (hoare_run_reported _ _ _ _ _ _ (fun _ => wal /\ fs));
            [by vm_compute | by right | by right | by intros s [? _] |].
          by intros s db' (_ & ? & ?) _ _. }
        intros ?.
        eapply (hoare_run_reported _ _ _ _ _ _
                  (fun db => wal /\ fs
                             /\ Clean fileSharesColumns "FileShares" db));
          [apply FileShares_query_parses | by left | by left
          | by intros s [? _] |].
        intros s db' (_ & ? & ?) _ Ha. split; [done |]. split; [done |].
        apply Clean_created_FileShares.
        rewrite (apply_created _ _ _ _ _ _ Ha). apply lookup_insert_eq.
      - apply hoare_pure. intros s (? & ? & ? & Hrows & Hp).
        split; [done |]. split; [done |]. split; [done |].
        by apply (Clean_kept _ _ rows1 schema1). }
    intros ?.
    eapply hoare_bind.
    { eapply (hoare_all_reported _ _ _ _ _
                (fun rows db =>
                   wal /\ fs /\ en
                   /\ Clean fileSharesColumns "FileShares" db
                   /\ rows = tableInfo "FileSystemEntries" db));
        [by vm_compute | by intros s [? _] |].
      by intros s (_ & ? & ? & ?) ?. }
    intros rows2.
    eapply hoare_bind.
    { eapply (hoare_parsed _ _ _ _
                (fun schema db =>
                   wal /\ fs /\ en
                   /\ Clean fileSharesColumns "FileShares" db
                   /\ rows2 = tableInfo "FileSystemEntries" db
                   /\ safeParse rows2 = Success schema)).
      - intros s (? & ? & _). split; [done | by right].
      - by intros s data (_ & _ & ? & ? & ? & ? & ?) ?. }
    intros schema2.
    eapply hoare_bind.
    { instantiate
        (1 := fun _ s =>
                Opened this w s
                /\ (wal /\ fs /\ en
                    /\ Clean fileSharesColumns "FileShares"
                         (database (snd s))
                    /\ Clean fileSystemEntriesColumns "FileSystemEntries"
                         (database (snd s)))).
      destruct (createTable fileSystemEntriesColumns schema2) eqn:Hcreate.
      - eapply hoare_bind.
        { eapply (hoare_run_reported _ _ _ _ _ _
                    (fun db => wal /\ fs /\ en
                               /\ Clean fileSharesColumns "FileShares" db));
            [by vm_compute | by right | by left | by intros s [? _] |].
          intros s db' (_ & ? & ? & ? & Hclean & _) _ Ha.
          split; [done |]. split; [done |]. split; [done |].
          revert Hclean. apply Clean_same_table.
          eapply lookup_other_statement; [| exact Ha]. done. }
        intros ?.
        eapply (hoare_run_reported _ _ _ _ _ _
                  (fun db =>
                     wal /\ fs /\ en
                     /\ Clean fileSharesColumns "FileShares" db
                     /\ Clean fileSystemEntriesColumns "FileSystemEntries"
                          db));
          [apply FileSystemEntries_query_parses | by right | by left
          | by intros s [? _] |].
        intros s db' (_ & ? & ? & ? & Hclean) _ Ha.
        split; [done |]. split; [done |]. split; [done |]. split.
        + revert Hclean. apply Clean_same_table.
          eapply lookup_other_statement; [| exact Ha]. done.
        + apply Clean_created_FileSystemEntries.
          rewrite (apply_created _ _ _ _ _ _ Ha). apply lookup_insert_eq.
      - apply hoare_pure. intros s (? & ? & ? & ? & ? & Hrows & Hp).
        split; [done |]. do 4 (split; [done |]).
        by apply (Clean_kept _ _ rows2 schema2). }
    intros ?. apply hoare_pure. intros s (Hopened & ? & ? & ? & ? & ?).
    split; [done |]. split; [apply Hopened |]. by repeat split. }
  specialize (H Hh Hs1). clear Hh.
  match type of H with
  | match ?x with _ => _ end => destruct x as [[r | r | e] [this' w']]
  end.
  - by destruct H as ((Hc' & Hd & Hf) & Hr).
  - by destruct H as ((Hc' & Hd & Hf) & Hr).
  - by destruct H as ((Hc' & Hd & Hf) & Hl).
Qed.

(** Opening a store whose two tables are clean, when the three statements
    that look at it are accepted. *)
Lemma init_looks_at_clean_tables this w :
  connection this = None ->
  openError w = None ->
  rejects (database w) "PRAGMA journal_mode=WAL" = false ->
  rejects (database w) "PRAGMA table_info(FileShares)" = false ->
  rejects (database w) "PRAGMA table_info(FileSystemEntries)" = false ->
  Clean fileSharesColumns "FileShares" (database w) ->
  Clean fileSystemEntriesColumns "FileSystemEntries" (database w) ->
  let '(outcome, this', w') := init this w in
  outcome = Returned (Success tt)
  /\ connection this' = Some (Handle (dbPath this))
  /\ tables (database w') = tables (database w)
  /\ history (database w')
     = history (database w)
       ++ [ "PRAGMA journal_mode=WAL"; "PRAGMA table_info(FileShares)";
            "PRAGMA table_info(FileSystemEntries)" ].
Proof.
  intros Hc Ho Hwal Hfs Hen (fs & Hfsp & Hfs0 & Hfsm) (en & Henp & Hen0 & Henm).
  assert (Hcreate : forall e schema,
            schema <> [] -> columnsMatch e schema = true ->
            createTable e schema = false).
  { intros e [| r schema] H0 Hm; [done |]. unfold createTable. by rewrite Hm. }
  unfold init, initBody.
  do 3 (erewrite bind_next; [| reflexivity]).
  erewrite bind_next;
    [| unfold thisConnection; cbn [fst]; rewrite Hc; reflexivity].
  erewrite bind_next;
    [| apply tryCatch_next;
       unfold newDatabase, setConnection, mbind, M_bind, bind; cbn [fst snd];
       rewrite Ho; reflexivity].
  cbn [fst snd].
  erewrite bind_next;
    [| eapply connectionRun_accepted;
       [reflexivity | exact Hwal | vm_compute; reflexivity | reflexivity] ].
  erewrite bind_next;
    [| apply tryCatch_next; eapply connectionAll_tableInfo;
       [reflexivity | exact Hfs | vm_compute; reflexivity] ].
  cbn [database withDatabase].
  replace (tableInfo "FileShares" _)
    with (tableInfo "FileShares" (database w)) by reflexivity.
  rewrite Hfsp.
  erewrite bind_next; [| reflexivity].
  rewrite (Hcreate _ _ Hfs0 Hfsm).
  erewrite bind_next; [| reflexivity].
  erewrite bind_next;
    [| apply tryCatch_next; eapply connectionAll_tableInfo;
       [reflexivity | exact Hen | vm_compute; reflexivity] ].
  cbn [database withDatabase].
  replace (tableInfo "FileSystemEntries" _)
    with (tableInfo "FileSystemEntries" (database w)) by reflexivity.
  rewrite Henp.
  erewrite bind_next; [| reflexivity].
  rewrite (Hcreate _ _ Hen0 Henm).
  erewrite bind_next; [| reflexivity].
  normalize_database.
  split; [reflexivity |]. split; [reflexivity |]. split; [reflexivity |].
  rewrite <- !app_assoc. reflexivity.
Qed.

Lemma init_initialized this w c :
  connection this = Some c ->
  init this w
  = (Thrown (MkError ("CacheDb has already been initialized (db path: "
                      +:+ dbPath this +:+ ").")),
     this, w).
Proof.
  intros Hc. unfold init, initBody.
  do 3 (erewrite bind_next; [| reflexivity]).
  unfold mbind at 1, M_bind at 1, bind at 1. cbn [fst snd]. rewrite Hc.
  cbn. by destruct this, w.
Qed.


(** *** Introspections that do not validate *)

Lemma parseRows_foreign_type c columns :
  In c columns ->
  parseDataType (col_type c) = None ->
  forall i cid, snd (parseRows i (tableInfoRows cid columns)) <> [].
Proof.
  intros Hin Hty. induction columns as [| x columns IH]; [done |].
  intros i cid. cbn [tableInfoRows parseRows].
  destruct (parseRows (S i) (tableInfoRows (cid + 1) columns)) as [ok bad] eqn:E.
  destruct Hin as [-> | Hin].
  - unfold parseRow. cbn. rewrite Hty. by destruct (0 <=? cid)%Z.
  - specialize (IH Hin (S i) (cid + 1)%Z). rewrite E in IH. cbn in IH.
    by destruct (parseRow _).
Qed.

Lemma safeParse_foreign_type c columns :
  In c columns ->
  parseDataType (col_type c) = None ->
  exists error,
    safeParse (tableInfoRows 0 columns) = Failure error /\ error <> [].
Proof.
  intros Hin Hty. pose proof (parseRows_foreign_type c columns Hin Hty 0%nat 0%Z) as H.
  unfold safeParse. destruct (parseRows 0 (tableInfoRows 0 columns)) as [ok bad].
  cbn in H. destruct bad as [| b bad]; [done |]. by eexists.
Qed.

(** *** What [init] hands back *)

(** X4. What [init] hands back is true of what it did, on every path. A
    success means that the store opened, that the three statements that
    look at it were accepted and that both tables are clean afterwards. A
    query failure carries the path of the store and the statement submitted
    last, but for one branch: when the drop of FileSystemEntries fails in
    the reset of FileShares, the failure names the drop of FileShares. A
    failure of the schema of a result follows one of the two introspections.
    A connection failure carries the error of opening, and nothing was
    submitted. No path failure is ever returned, and [init] throws only
    right after the journal mode pragma. *)
Theorem init_outcome_is_truthful this w :
  connection this = None ->
  let '(outcome, this', w') := init this w in
  match outcome with
  | Thrown _ => lastQuery (this', w') = Some "PRAGMA journal_mode=WAL"
  | Returned r => Reported this w r (this', w')
  end.
Proof.
  intros Hc. pose proof (init_cases this w Hc) as H.
  destruct (init this w) as [[o this'] w']. destruct H as (_ & _ & H).
  destruct o; [done | by destruct H].
Qed.

(** The engine that refuses to drop FileSystemEntries: the failure returned
    is one the statement allows for. *)
Lemma init_outcome_on_the_sample :
  let '(outcome, this', w') := init fresh (world entriesCannotBeDropped) in
  match outcome with
  | Thrown _ => lastQuery (this', w') = Some "PRAGMA journal_mode=WAL"
  | Returned r => Reported fresh (world entriesCannotBeDropped) r (this', w')
  end.
Proof.
  apply (init_outcome_is_truthful fresh (world entriesCannotBeDropped)).
  reflexivity.
Defined.

(** X5. Whatever happens, [init] leaves alone the path of the object, how
    the world answers, the statements submitted before, and every table but
    FileShares and FileSystemEntries. *)
Theorem init_leaves_the_rest_alone this w :
  let '(_, this', w') := init this w in
  dbPath this' = dbPath this /\ Frame w w'.
Proof.
  destruct (connection this) as [c |] eqn:Hc.
  - rewrite (init_initialized this w c Hc). split; [done | apply Frame_refl].
  - pose proof (init_cases this w Hc) as H.
    destruct (init this w) as [[o this'] w']. by destruct H as (? & ? & _).
Qed.

(** X6. When the store cannot be opened, [init] returns the connection
    failure with the path and the error of the engine; the object stays
    without a connection and no statement is submitted. *)
Theorem init_reports_open_failure this w e :
  connection this = None ->
  openError w = Some e ->
  init this w
  = (Returned (Failure (MkCacheDbInitFailure
                          (CacheDbConnectionFailure (dbPath this) e))),
     this, w).
Proof.
  intros Hc Ho. unfold init, initBody.
  do 3 (erewrite bind_next; [| reflexivity]).
  erewrite bind_next;
    [| unfold thisConnection; cbn [fst]; rewrite Hc; reflexivity].
  unfold mbind, M_bind, bind, tryCatch, newDatabase. cbn [fst snd].
  rewrite Ho. cbn. by destruct this, w.
Qed.

Lemma init_cannot_open_the_sample :
  init fresh cannotOpen
  = (Returned (Failure (MkCacheDbInitFailure
                          (CacheDbConnectionFailure cachePath
                             (MkError "SQLITE_CANTOPEN")))),
     fresh, cannotOpen).
Proof.
  apply (init_reports_open_failure fresh cannotOpen
           (MkError "SQLITE_CANTOPEN")); reflexivity.
Defined.

(** X7. A FileShares table with a column whose declared type is none of
    INTEGER, REAL, TEXT and BLOB is not reset: [init] returns the failure of
    the schema of the result, and every table stays as it was. *)
Theorem init_fails_on_a_foreign_column_type this w tbl c :
  connection this = None ->
  openError w = None ->
  rejects (database w) "PRAGMA journal_mode=WAL" = false ->
  rejects (database w) "PRAGMA table_info(FileShares)" = false ->
  tables (database w) !! "FileShares" = Some tbl ->
  In c (tbl_columns tbl) ->
  parseDataType (col_type c) = None ->
  let '(outcome, _, w') := init this w in
  (exists error,
     outcome = Returned (Failure (MkCacheDbInitFailure
                                    (CacheDbResultSchemaFailure (dbPath this)
                                       error)))
     /\ error <> [])
  /\ tables (database w') = tables (database w).
Proof.
  intros Hc Ho Hwal Hfs Htbl Hin Hty.
  destruct (safeParse_foreign_type c _ Hin Hty) as (error & Herr & Hne).
  unfold init, initBody.
  do 3 (erewrite bind_next; [| reflexivity]).
  erewrite bind_next;
    [| unfold thisConnection; cbn [fst]; rewrite Hc; reflexivity].
  erewrite bind_next;
    [| apply tryCatch_next;
       unfold newDatabase, setConnection, mbind, M_bind, bind; cbn [fst snd];
       rewrite Ho; reflexivity].
  cbn [fst snd].
  erewrite bind_next;
    [| eapply connectionRun_accepted;
       [reflexivity | exact Hwal | vm_compute; reflexivity | reflexivity] ].
  erewrite bind_next;
    [| apply tryCatch_next; eapply connectionAll_tableInfo;
       [reflexivity | exact Hfs | vm_compute; reflexivity] ].
  cbn [database withDatabase].
  replace (tableInfo "FileShares" _)
    with (tableInfo "FileShares" (database w)) by reflexivity.
  unfold tableInfo. rewrite Htbl, Herr.
  unfold mbind, M_bind, bind, schemaFailure, return_. cbn.
  split; [by exists error | done].
Qed.

(** The cache file whose FileShares table declares a VARCHAR column. *)
Lemma init_fails_on_foreignLayout :
  let '(outcome, _, w') := init fresh (world foreignLayout) in
  (exists error,
     outcome = Returned (Failure (MkCacheDbInitFailure
                                    (CacheDbResultSchemaFailure (dbPath fresh)
                                       error)))
     /\ error <> [])
  /\ tables (database w') = tables (database (world foreignLayout)).
Proof.
  eapply (init_fails_on_a_foreign_column_type fresh (world foreignLayout));
    try reflexivity.
  - left. reflexivity.
  - reflexivity.
Defined.

(** *** One [init] after another *)

(** X8. Once [init] has returned success, opening the store again from a new
    object returns success, changes no table and submits nothing but the
    three statements that look at the store. *)
Theorem init_again_changes_nothing this this2 w :
  connection this = None ->
  connection this2 = None ->
  let '(outcome, _, w1) := init this w in
  outcome = Returned (Success tt) ->
  let '(outcome2, _, w2) := init this2 w1 in
  outcome2 = Returned (Success tt)
  /\ tables (database w2) = tables (database w1)
  /\ history (database w2)
     = history (database w1)
       ++ [ "PRAGMA journal_mode=WAL"; "PRAGMA table_info(FileShares)";
            "PRAGMA table_info(FileSystemEntries)" ].
Proof.
  intros Hc Hc2. pose proof (init_cases this w Hc) as H.
  destruct (init this w) as [[o this'] w1]. intros ->.
  destruct H as (_ & (_ & Ho & Hr & _)
                 & (_ & Hopen & Hwal & Hfs & Hen & C1 & C2)).
  cbn [snd] in C1, C2.
  pose proof (init_looks_at_clean_tables this2 w1 Hc2) as H.
  destruct (init this2 w1) as [[o2 this2'] w2].
  rewrite Ho, !Hr in H.
  by destruct (H Hopen Hwal Hfs Hen C1 C2) as (? & _ & ? & ?).
Qed.

(** The cache file of the earlier layout, opened twice: the first [init]
    resets it, the second finds it clean. *)
Lemma init_again_on_the_sample :
  let '(outcome, _, w1) := init fresh (world olderLayout) in
  outcome = Returned (Success tt) /\
  let '(outcome2, _, w2) := init fresh w1 in
  outcome2 = Returned (Success tt)
  /\ tables (database w2) = tables (database w1)
  /\ history (database w2)
     = history (database w1)
       ++ [ "PRAGMA journal_mode=WAL"; "PRAGMA table_info(FileShares)";
            "PRAGMA table_info(FileSystemEntries)" ].
Proof.
  pose proof (init_again_changes_nothing fresh fresh (world olderLayout)
                eq_refl eq_refl) as H.
  destruct (init fresh (world olderLayout)) as [[o t] w1] eqn:E.
  assert (Ho : o = Returned (Success tt)).
  { apply (f_equal (fun x => fst (fst x))) in E. vm_compute in E. congruence. }
  split; [exact Ho | exact (H Ho)].
Defined.

(** X9. A second [init] on an object whose first [init] got past opening the
    store throws, whatever the first one returned, and changes nothing: an
    object cannot be initialised again, not even after a failure. *)
Theorem init_twice_on_one_object_throws this w :
  connection this = None ->
  openError w = None ->
  let '(_, this', w') := init this w in
  init this' w'
  = (Thrown (MkError ("CacheDb has already been initialized (db path: "
                      +:+ dbPath this +:+ ").")),
     this', w').
Proof.
  intros Hc Ho. pose proof (init_cases this w Hc) as H.
  destruct (init this w) as [[o this'] w'].
  destruct H as (Hd & _ & H). rewrite <- Hd.
  apply init_initialized with (Handle (dbPath this)).
  destruct o as [[u | [[p e | p e | p q e | p z]]] | e]; cbn in H;
    try tauto.
  destruct H as (_ & _ & H & _). congruence.
Qed.

Lemma init_twice_on_the_sample :
  let '(_, this', w') := init fresh (world olderLayout) in
  init this' w'
  = (Thrown (MkError ("CacheDb has already been initialized (db path: "
                      +:+ dbPath fresh +:+ ").")),
     this', w').
Proof.
  by apply (init_twice_on_one_object_throws fresh (world olderLayout)).
Defined.

End InitFacts.

(** ** The command line: the patterns and the action *)

Module PatternFacts.

Import Js Sqlite CacheDb Cli Samples CliFacts.

(** *** Repetition of a step that reads one character *)

Section SingleStep.
Variable step : ascii -> string -> bool.
Variable m : string -> (string -> bool) -> bool.
Hypothesis m_step :
  forall s k, m s k = match s with
                      | String c rest => if step c rest then k rest else false
                      | EmptyString => false
                      end.

Lemma exactly_steps n : forall s k,
  exactly m n s k = match steps step n s with
                    | Some r => k r
                    | None => false
                    end.
Proof.
  induction n as [| n IH]; intros s k; [done |].
  cbn. rewrite m_step. destruct s as [| c rest]; [done |].
  destruct (step c rest); [apply IH | done].
Qed.

Lemma upTo_steps n : forall s k,
  upTo m n s k = true <->
  exists j r, (j <= n)%nat /\ steps step j s = Some r /\ k r = true.
Proof.
  induction n as [| n IH]; intros s k.
  - cbn. split.
    + intros H. exists O, s. by split.
    + intros (j & r & Hj & Hs & Hk). assert (j = O) as -> by lia.
      cbn in Hs. by injection Hs as ->.
  - cbn [upTo]. rewrite m_step. split.
    + destruct s as [| c rest].
      * intros H. exists O, EmptyString. split; [lia | by split].
      * destruct (step c rest) eqn:Hc.
        -- destruct (upTo m n rest k) eqn:Hu.
           ++ intros _. apply IH in Hu as (j & r & Hj & Hs & Hk).
              exists (S j), r. split; [lia |]. cbn. by rewrite Hc.
           ++ intros H. exists O, (String c rest). split; [lia | by split].
        -- intros H. exists O, (String c rest). split; [lia | by split].
    + intros (j & r & Hj & Hs & Hk). destruct j as [| j].
      * cbn in Hs. injection Hs as <-. rewrite Hk.
        destruct s as [| c rest]; [done |].
        by destruct (step c rest), (upTo m n rest k).
      * cbn in Hs. destruct s as [| c rest]; [done |].
        destruct (step c rest); [| done].
        assert (Hu : upTo m n rest k = true).
        { apply IH. exists j, r. split; [lia | by split]. }
        by rewrite Hu.
Qed.

Lemma steps_add a : forall b s,
  steps step (a + b) s
  = match steps step a s with
    | Some r => steps step b r
    | None => None
    end.
Proof.
  induction a as [| a IH]; intros b s; [done |]. cbn.
  destruct s as [| c rest]; [done |]. destruct (step c rest); [apply IH | done].
Qed.

Lemma repeat_steps a b s k :
  exactly m a s (fun s' => upTo m b s' k) = true <->
  exists j r, (a <= j <= a + b)%nat /\ steps step j s = Some r /\ k r = true.
Proof.
  rewrite exactly_steps. split.
  - destruct (steps step a s) as [r0 |] eqn:Ha; [| done].
    intros H. apply upTo_steps in H as (j & r & Hj & Hs & Hk).
    exists (a + j)%nat, r. split; [lia |]. split; [| done].
    by rewrite steps_add, Ha.
  - intros (j & r & Hj & Hs & Hk).
    replace j with (a + (j - a))%nat in Hs by lia.
    rewrite steps_add in Hs. destruct (steps step a s) as [r0 |]; [| done].
    apply upTo_steps. exists (j - a)%nat, r. split; [lia | by split].
Qed.

End SingleStep.

Lemma steps_all f n : forall s r,
  steps (fun c _ => f c) n s = Some r ->
  String.length s = (n + String.length r)%nat
  /\ (allChars f r = true -> allChars f s = true).
Proof.
  induction n as [| n IH]; intros s r H.
  - cbn in H. by injection H as ->.
  - cbn in H. destruct s as [| c rest]; [done |].
    destruct (f c) eqn:Hc; [| done].
    destruct (IH _ _ H) as [Hl Ha]. cbn. rewrite Hc. split; [lia | done].
Qed.

Lemma all_steps f : forall s,
  allChars f s = true ->
  steps (fun c _ => f c) (String.length s) s = Some EmptyString.
Proof.
  induction s as [| c rest IH]; [done |]. cbn.
  destruct (f c); [exact IH | done].
Qed.

Lemma same_truth (a b : bool) : (a = true <-> b = true) -> a = b.
Proof. destruct a, b; intuition congruence. Qed.

(** X11. The pattern of [storageAccount] accepts the strings of 3 to 24 lower
    case letters and digits, and no other. *)
Theorem storageAccountRegex_accepts s :
  test storageAccountRegex s = accountNameShape s.
Proof.
  apply same_truth. unfold test, storageAccountRegex, accountNameShape.
  cbn [matchHere].
  rewrite (repeat_steps (fun c _ => lowerOrDigit c)
             (matchHere (Class [("a", "z"); ("0", "9")]%char))) by done.
  rewrite !andb_true_iff, !Nat.leb_le. split.
  - intros (j & r & Hj & Hs & Hk). destruct r; [| done].
    destruct (steps_all _ _ _ _ Hs) as [Hl Ha]. cbn in Hl.
    split; [lia | by apply Ha].
  - intros [Hl Ha]. exists (String.length s), EmptyString.
    split; [lia |]. split; [by apply all_steps | done].
Qed.

Lemma hyphen_ahead rest :
  matchHere (Lit "-") rest (fun _ => true) = firstIs isHyphen rest.
Proof.
  destruct rest as [| c rest]; [done |]. unfold isHyphen. cbn [matchHere firstIs].
  by destruct (Ascii.eqb "-" c).
Qed.

Lemma middle_step s k :
  matchHere
    (Alt lower (Alt digit (Seq (Lit "-") (NotFollowedBy (Lit "-"))))) s k
  = match s with
    | String c rest => if middle c rest then k rest else false
    | EmptyString => false
    end.
Proof.
  destruct s as [| c rest]; [done |].
  unfold middle, lowerOrDigit, isHyphen, lower, digit.
  cbn [existsb]. 
  change (matchHere (Alt ?a ?b) ?s ?k)
    with (if matchHere a s k then true else matchHere b s k).
  change (matchHere (Alt ?a ?b) ?s ?k)
    with (if matchHere a s k then true else matchHere b s k).
  change (matchHere (Seq (Lit "-") (NotFollowedBy (Lit "-"))) (String c rest) k)
    with (if Ascii.eqb "-" c
          then (if matchHere (Lit "-") rest (fun _ => true)
                then false else k rest)
          else false).
  rewrite hyphen_ahead.
  change (matchHere (Class ?r) (String c rest) k)
    with (if existsb (inRange c) r then k rest else false).
  cbn [existsb].
  destruct (inRange c ("a", "z")%char), (inRange c ("0", "9")%char),
    (Ascii.eqb "-" c), (firstIs _ rest), (k rest); reflexivity.
Qed.

Lemma ending_step r :
  matchHere (Seq (Alt lower digit) Eos) r (fun _ => true)
  = match r with
    | String c EmptyString => lowerOrDigit c
    | _ => false
    end.
Proof.
  destruct r as [| c rest]; [done |].
  unfold lowerOrDigit, lower, digit. cbn [matchHere existsb].
  destruct (inRange c ("a", "z")%char), (inRange c ("0", "9")%char),
    rest; reflexivity.
Qed.

Lemma opening_step s k :
  matchHere (Alt lower digit) s k
  = match s with
    | String c rest => if lowerOrDigit c then k rest else false
    | EmptyString => false
    end.
Proof.
  destruct s as [| c rest]; [done |].
  unfold lowerOrDigit, lower, digit. cbn [matchHere existsb].
  destruct (inRange c ("a", "z")%char), (inRange c ("0", "9")%char),
    (k rest); reflexivity.
Qed.

Lemma hyphen_is_no_letter c : isHyphen c = true -> lowerOrDigit c = false.
Proof. unfold isHyphen. intros H. apply Ascii.eqb_eq in H. by subst c. Qed.

(** The middle part and the last character, read off a string. *)
Lemma middle_shape n : forall s c,
  steps middle n s = Some (String c EmptyString) ->
  lowerOrDigit c = true ->
  String.length s = S n
  /\ lastIs lowerOrDigit s = true
  /\ allChars (fun c => lowerOrDigit c || isHyphen c) s = true
  /\ noDoubleHyphen s = true.
Proof.
  induction n as [| n IH]; intros s c H Hc.
  - cbn in H. injection H as ->. cbn [String.length lastIs allChars noDoubleHyphen firstIs].
    rewrite Hc. cbn. by rewrite andb_false_r.
  - cbn in H. destruct s as [| c0 rest]; [done |].
    destruct (middle c0 rest) eqn:Hm; [| done].
    destruct (IH _ _ H Hc) as (Hl & Hlast & Hall & Hno).
    split; [cbn; lia |]. split.
    { destruct rest; [done | exact Hlast]. }
    unfold middle in Hm. cbn [allChars noDoubleHyphen]. rewrite Hall, Hno.
    pose proof (hyphen_is_no_letter c0) as Hx.
    destruct (lowerOrDigit c0), (isHyphen c0), (firstIs isHyphen rest);
      try done. by specialize (Hx eq_refl).
Qed.

Lemma shape_middle : forall s,
  lastIs lowerOrDigit s = true ->
  allChars (fun c => lowerOrDigit c || isHyphen c) s = true ->
  noDoubleHyphen s = true ->
  exists c,
    steps middle (String.length s - 1) s = Some (String c EmptyString)
    /\ lowerOrDigit c = true.
Proof.
  induction s as [| c0 rest IH]; [done |]. intros Hlast Hall Hno.
  destruct rest as [| c1 rest].
  { exists c0. by split. }
  cbn [allChars] in Hall. cbn [noDoubleHyphen] in Hno.
  destruct (lowerOrDigit c0 || isHyphen c0) eqn:Hok; [| done].
  destruct (isHyphen c0 && firstIs isHyphen (String c1 rest)) eqn:Hh; [done |].
  destruct (IH Hlast Hall Hno) as (c & Hs & Hc).
  exists c. split; [| done].
  replace (String.length (String c0 (String c1 rest)) - 1)%nat
    with (S (String.length (String c1 rest) - 1)) by (cbn; lia).
  cbn [steps]. 
  assert (Hm : middle c0 (String c1 rest) = true).
  { unfold middle.
    destruct (lowerOrDigit c0), (isHyphen c0),
      (firstIs isHyphen (String c1 rest)); done. }
  by rewrite Hm.
Qed.

(** X10. The pattern of [fileShare] accepts the strings of 3 to 63 lower case
    letters, digits and hyphens that start and end with a letter or digit
    and have no two hyphens in a row, and no other. *)
Theorem fileShareRegex_accepts s :
  test fileShareRegex s = shareNameShape s.
Proof.
  apply same_truth. unfold shareNameShape.
  change (test fileShareRegex s)
    with (matchHere (Alt lower digit) s
            (fun s1 =>
               exactly
                 (matchHere
                    (Alt lower
                       (Alt digit (Seq (Lit "-") (NotFollowedBy (Lit "-"))))))
                 1 s1
                 (fun s2 =>
                    upTo
                      (matchHere
                         (Alt lower
                            (Alt digit
                               (Seq (Lit "-") (NotFollowedBy (Lit "-"))))))
                      60 s2
                      (fun r =>
                         matchHere (Seq (Alt lower digit) Eos) r
                           (fun _ => true))))).
  rewrite opening_step.
  destruct s as [| c0 s1]; [done |].
  cbn [firstIs String.length]. destruct (lowerOrDigit c0) eqn:Hc0.
  2:{ split; [done |]. rewrite !andb_true_iff. by intros [[[[[_ _] ?] _] _] _]. }
  rewrite (repeat_steps middle _ middle_step).
  rewrite !andb_true_iff, !Nat.leb_le. split.
  - intros (j & r & Hj & Hs & Hk). rewrite ending_step in Hk.
    destruct r as [| c [| ? ?]]; try done.
    destruct (middle_shape _ _ _ Hs Hk) as (Hl & Hlast & Hall & Hno).
    rewrite Hl. repeat split; try lia.
    + destruct s1; [done | exact Hlast].
    + cbn [allChars]. by rewrite Hc0.
    + cbn [noDoubleHyphen]. rewrite Hno. pose proof (hyphen_is_no_letter c0) as Hx.
      destruct (isHyphen c0); [| done]. rewrite Hx in Hc0; done.
  - intros [[[[[Hmin Hmax] _] Hlast] Hall] Hno].
    destruct s1 as [| c1 rest]; [cbn in Hmin; lia |].
    cbn [allChars] in Hall. rewrite Hc0 in Hall. cbn [orb] in Hall.
    cbn [noDoubleHyphen] in Hno.
    destruct (isHyphen c0 && _) eqn:Hh; [done |].
    destruct (shape_middle (String c1 rest) Hlast Hall Hno) as (c & Hs & Hc).
    exists (String.length (String c1 rest) - 1)%nat, (String c EmptyString).
    split; [cbn in *; lia |]. split; [done |]. by rewrite ending_step.
Qed.

(** *** The action *)

(** X12. The search command does not use the request: with arguments that
    validate, how the action ends and what it does to the store are the same
    whatever the arguments are. *)
Theorem action_ignores_the_request isUuid os args args' w :
  issues isUuid args = [] ->
  issues isUuid args' = [] ->
  action isUuid os args w = action isUuid os args' w.
Proof.
  intros H H'. unfold action, safeParseArgs. rewrite H, H'.
  apply issues_nil in H as (_ & _ & _ & _ & Hs & Hb).
  apply issues_nil in H' as (_ & _ & _ & _ & Hs' & Hb').
  destruct (parseSearchScope (opt_searchScope args)); [| done].
  destruct (parseMatchBehavior (opt_matchBehavior args)); [| done].
  destruct (parseSearchScope (opt_searchScope args')); [| done].
  destruct (parseMatchBehavior (opt_matchBehavior args')); [| done].
  reflexivity.
Qed.

(** Two requests for different accounts, shares, items, scopes and
    behaviors. *)
Lemma action_on_two_requests :
  action uuidShape linux testRequest (world noTables)
  = action uuidShape linux otherRequest (world noTables).
Proof.
  apply (action_ignores_the_request uuidShape linux testRequest otherRequest);
    vm_compute; reflexivity.
Defined.

End PatternFacts.

(** ** The script: the checks and the scopes *)

Module ScopeFacts.

Import Script Samples ScriptFacts.

Lemma filter_filter {A} (f g : A -> bool) l :
  List.filter f (List.filter g l) = List.filter (fun x => g x && f x) l.
Proof.
  induction l as [| a l IH]; [done |]. cbn.
  destruct (g a); cbn; [| done]. destruct (f a); by rewrite IH.
Qed.

Lemma filter_split {A} (f : A -> bool) l :
  Permutation (List.filter (fun x => negb (f x)) l ++ List.filter f l) l.
Proof.
  induction l as [| a l IH]; [done |]. cbn. destruct (f a); cbn.
  - rewrite <- Permutation_middle. by constructor.
  - by constructor.
Qed.

Lemma filter_pointwise {A} (f g : A -> bool) l :
  (forall x, f x = g x) -> List.filter f l = List.filter g l.
Proof.
  intros H. induction l as [| a l IH]; [done |]. cbn. by rewrite H, IH.
Qed.

Section WithEq.
Variable eq : string -> string -> bool.

Lemma fileSharesMatchingName_named account p :
  fileSharesMatchingName eq account p
  = List.filter (named eq p) (Shares account).
Proof.
  unfold fileSharesMatchingName, GetAzStorageShare. rewrite filter_filter.
  apply filter_pointwise. intros s. unfold named. by rewrite andb_assoc.
Qed.

Lemma live_before_snapshots live snapshots :
  Forall (fun s => Share.IsSnapshot s = false) live ->
  Forall (fun s => Share.IsSnapshot s = true) snapshots ->
  StronglySorted notBefore snapshots ->
  StronglySorted searchedBefore (live ++ snapshots).
Proof.
  intros Hl Hs Hsorted. induction Hl as [| a live Ha Hl IH]; cbn.
  - induction Hsorted as [| a l Hsorted IH Hall]; [constructor |].
    apply Forall_cons in Hs as [Ha Hs].
    constructor; [by apply IH |].
    rewrite List.Forall_forall in Hall, Hs |- *. intros b Hb. right.
    split; [by apply Hs | by apply Hall].
  - constructor; [exact IH |]. apply List.Forall_forall. intros b _. by left.
Qed.

(** X13. The scopes the script searches are the shares of the account that
    bear the requested name, are not deleted and are of the kind the search
    scope asks for: each of them once, never none, the live share before the
    snapshots and the snapshots from the latest to the earliest. *)
Theorem targetScopes_are_the_selected_shares account p scopes :
  targetScopes eq account p = inr scopes ->
  scopes <> []
  /\ Permutation scopes (List.filter (selected eq p) (Shares account))
  /\ StronglySorted searchedBefore scopes.
Proof.
  unfold targetScopes, fileShare, fileShareSnapshots.
  rewrite fileSharesMatchingName_named.
  set (M := List.filter (named eq p) (Shares account)).
  assert (Hsel : forall f,
            List.filter f M
            = List.filter (fun s => named eq p s && f s) (Shares account)).
  { intros f. unfold M. apply filter_filter. }
  assert (Hlive : Forall (fun s => Share.IsSnapshot s = false)
                    (List.filter (fun s => negb (Share.IsSnapshot s)) M)).
  { apply List.Forall_forall. intros s Hs. apply filter_In in Hs as [_ Hs].
    by destruct (Share.IsSnapshot s). }
  assert (Hsnap : Forall (fun s => Share.IsSnapshot s = true)
                    (sortDescending (List.filter Share.IsSnapshot M))).
  { eapply Permutation_Forall; [symmetry; apply sortDescending_perm |].
    apply List.Forall_forall. intros s Hs. by apply filter_In in Hs as [_ Hs]. }
  pose proof (sortDescending_sorted (List.filter Share.IsSnapshot M)) as Hsorted.
  pose proof (sortDescending_perm (List.filter Share.IsSnapshot M)) as Hperm.
  pose proof (live_before_snapshots _ _ Hlive Hsnap Hsorted) as Horder.
  unfold selected.
  destruct (List.filter (fun s => negb (Share.IsSnapshot s)) M)
    as [| l0 live] eqn:El; [done |].
  destruct (SearchScope_ p) eqn:Es.
  - intros [= <-]. split; [done |]. split.
    + rewrite <- El, Hsel. done.
    + rewrite <- (app_nil_r (l0 :: live)).
      apply live_before_snapshots; [done | constructor | constructor].
  - destruct (sortDescending (List.filter Share.IsSnapshot M))
      as [| s0 snaps] eqn:Esn; [done |].
    intros [= <-]. split; [done |]. split.
    + cbn [app]. rewrite Hperm, Hsel. done.
    + apply (live_before_snapshots []); [constructor | done | done].
  - assert (Hboth : Permutation
                      ((l0 :: live)
                       ++ sortDescending (List.filter Share.IsSnapshot M))
                      (List.filter (fun s => named eq p s && true)
                         (Shares account))).
    { rewrite Hperm, <- El, filter_split. unfold M.
      rewrite (filter_pointwise (fun s => named eq p s && true) (named eq p));
        [done |]. intros s. apply andb_true_r. }
    destruct (sortDescending (List.filter Share.IsSnapshot M))
      as [| s0 snaps] eqn:Esn; intros [= <-]; cbn [app] in *.
    + rewrite app_nil_r in Hboth, Horder. done.
    + done.
Qed.

(** X14. The two errors of scope resolution. The share is reported as not
    found exactly when the account has no live share of that name, even
    when only the snapshots are asked for and some exist; the lack of
    snapshots is an error only when the snapshots alone are asked for. *)
Theorem targetScopes_errors account p e :
  targetScopes eq account p = inl e <->
  (e = FileShareNotFound
   /\ forall s, In s (Shares account) -> named eq p s = true ->
                Share.IsSnapshot s = true)
  \/ (e = NoFileShareSnapshots
      /\ SearchScope_ p = FileShareSnapshots
      /\ (exists s, In s (Shares account) /\ named eq p s = true
                    /\ Share.IsSnapshot s = false)
      /\ forall s, In s (Shares account) -> named eq p s = true ->
                   Share.IsSnapshot s = false).
Proof.
  unfold targetScopes, fileShare, fileShareSnapshots.
  rewrite fileSharesMatchingName_named.
  set (M := List.filter (named eq p) (Shares account)).
  assert (HM : forall s, In s M <-> In s (Shares account) /\ named eq p s = true).
  { intros s. apply filter_In. }
  assert (Hnil : forall f, List.filter f M = [] <->
                           forall s, In s (Shares account) ->
                                     named eq p s = true -> f s = false).
  { intros f. split.
    - intros H s Hs Hn. destruct (f s) eqn:E; [| done].
      assert (Hin : In s (List.filter f M)).
      { apply filter_In. split; [by apply HM | done]. }
      by rewrite H in Hin.
    - intros H. destruct (List.filter f M) as [| s l] eqn:E; [done |].
      assert (Hin : In s (List.filter f M)) by (rewrite E; by left).
      apply filter_In in Hin as [Hin Hf]. apply HM in Hin as [Hin Hn].
      by rewrite (H s Hin Hn) in Hf. }
  assert (Hsn : sortDescending (List.filter Share.IsSnapshot M) = [] <->
                List.filter Share.IsSnapshot M = []).
  { split; intros H.
    - apply Permutation_nil. rewrite <- H at 1. apply sortDescending_perm.
    - by rewrite H. }
  destruct (List.filter (fun s => negb (Share.IsSnapshot s)) M)
    as [| l0 live] eqn:El.
  - split.
    + intros [= <-]. left. split; [done |]. intros s Hs Hn.
      pose proof (proj1 (Hnil _) El s Hs Hn) as El'. cbn in El'.
      by destruct (Share.IsSnapshot s).
    + intros [[-> _] | (_ & _ & (s & Hs & Hn & Hsnap) & _)]; [done |].
      pose proof (proj1 (Hnil _) El s Hs Hn) as El'. cbn in El'.
      by rewrite Hsnap in El'.
  - assert (Hl0 : In l0 (Shares account) /\ named eq p l0 = true
                  /\ Share.IsSnapshot l0 = false).
    { assert (Hin : In l0 (List.filter (fun s => negb (Share.IsSnapshot s)) M))
        by (rewrite El; by left).
      apply filter_In in Hin as [Hin Hf]. apply HM in Hin as [Hin Hn].
      by destruct (Share.IsSnapshot l0). }
    split.
    + destruct (SearchScope_ p) eqn:Es; [done | |].
      * destruct (sortDescending _) as [| s0 snaps] eqn:Esn; [| done].
        intros [= <-]. right. split; [done |]. split; [done |].
        split; [by exists l0 |]. apply (Hnil Share.IsSnapshot). by apply Hsn.
      * by destruct (sortDescending _).
    + intros [[-> Hnone] | (-> & Es & _ & Hnone)].
      * destruct Hl0 as (Hin & Hn & Hsnap). by rewrite (Hnone _ Hin Hn) in Hsnap.
      * rewrite Es. apply (Hnil Share.IsSnapshot) in Hnone.
        apply Hsn in Hnone. by rewrite Hnone.
Qed.

(** X15. What has passed when the traversal starts: the session is signed in;
    a resource group and a storage account of the subscription bear the
    requested names; that account has shared key access switched on (left
    unset does not pass); the key of the credential is the value of a key
    of that account named key1; and the scopes are those resolved in that
    account. *)
Theorem prepare_passes_the_checks az p scopes cred :
  prepare eq az p = inr (scopes, cred) ->
  Context az <> None
  /\ (exists g, In g (ResourceGroups az) /\ eq g (ResourceGroupName p) = true)
  /\ exists account,
       In account (StorageAccounts az)
       /\ eq (AccountResourceGroup account) (ResourceGroupName p) = true
       /\ eq (Account account) (StorageAccountName p) = true
       /\ AllowSharedKeyAccess account = Some true
       /\ (exists keys k,
             Keys account = Some keys /\ In (k, AccountKey cred) keys
             /\ eq k "key1" = true)
       /\ targetScopes eq account p = inr scopes.
Proof.
  unfold prepare. intros H.
  destruct (Context az) as [c |]; [| done]. split; [done |].
  destruct (List.filter _ (ResourceGroups az)) as [| g gs] eqn:Hg; [done |].
  split.
  { exists g.
    assert (Hin : In g (List.filter (fun g => eq g (ResourceGroupName p))
                          (ResourceGroups az))) by (rewrite Hg; by left).
    by apply filter_In in Hin. }
  destruct (List.filter _ (StorageAccounts az)) as [| a accounts] eqn:Ha;
    [done |].
  assert (Hin : In a (List.filter
                        (fun a => eq (AccountResourceGroup a) (ResourceGroupName p)
                                  && eq (Account a) (StorageAccountName p))
                        (StorageAccounts az))) by (rewrite Ha; by left).
  apply filter_In in Hin as [Hin Hnames].
  apply andb_true_iff in Hnames as [Hrg Hname].
  destruct (AllowSharedKeyAccess a) as [[|] |] eqn:Hallow; try done.
  destruct (key1 eq a) as [key |] eqn:Hkey; [| done].
  destruct (targetScopes eq a p) as [e | scopes'] eqn:Hscopes; [done |].
  injection H as <- <-. exists a. do 4 (split; [done |]). split; [| done].
  unfold key1 in Hkey. destruct (Keys a) as [keys |]; [| done].
  destruct (List.filter _ keys) as [| [k v] kvs] eqn:Hk; [done |].
  injection Hkey as <-. exists keys, k. split; [done |].
  assert (Hkv : In (k, v) (List.filter (fun kv => eq (fst kv) "key1") keys))
    by (rewrite Hk; by left).
  by apply filter_In in Hkv as [? ?].
Qed.

End WithEq.

(** The snapshots of the sample account alone. *)
Lemma snapshots_of_the_sample :
  [snapshot3; snapshot2; snapshot1] <> []
  /\ Permutation [snapshot3; snapshot2; snapshot1]
       (List.filter (selected ieq (request FileShareSnapshots Continue))
          (Shares testsa))
  /\ StronglySorted searchedBefore [snapshot3; snapshot2; snapshot1].
Proof.
  apply (targetScopes_are_the_selected_shares ieq testsa
           (request FileShareSnapshots Continue)
           [snapshot3; snapshot2; snapshot1]).
  vm_compute. reflexivity.
Defined.

(** The checks on the sample subscription. *)
Lemma prepare_on_the_sample :
  Context azure <> None
  /\ (exists g, In g (ResourceGroups azure) /\ ieq g "testrg" = true)
  /\ exists account,
       In account (StorageAccounts azure)
       /\ ieq (AccountResourceGroup account) "testrg" = true
       /\ ieq (Account account) "testsa" = true
       /\ AllowSharedKeyAccess account = Some true
       /\ (exists keys k,
             Keys account = Some keys
             /\ In (k, "a2V5LW9mLXRlc3RzYQ==") keys
             /\ ieq k "key1" = true)
       /\ targetScopes ieq account (request Both Continue)
          = inr [live; snapshot3; snapshot2; snapshot1].
Proof.
  apply (prepare_passes_the_checks ieq azure (request Both Continue)
           [live; snapshot3; snapshot2; snapshot1]
           (sharedKeyCred "a2V5LW9mLXRlc3RzYQ==")).
  vm_compute. reflexivity.
Defined.

End ScopeFacts.

(** ** The script: whole runs *)

Module SearchFacts.

Import Script Samples ScriptFacts.

Section Traversal.
Variable eq : string -> string -> bool.
Variable az : Azure.
Variable p : Params.

Local Abbreviation isTarget := (isTarget eq p).
Local Abbreviation matchesIn := (matchesIn eq p).
Local Abbreviation forEachDirItem := (forEachDirItem eq p).
Local Abbreviation whileBody := (whileBody eq az p).
Local Abbreviation whileQueue := (whileQueue eq az p).
Local Abbreviation forEachScope := (forEachScope eq az p).
Local Abbreviation listing := (listing az).
Local Abbreviation Occurs := (Occurs eq az p).
Local Abbreviation OccursBelow := (OccursBelow eq az p).

Lemma Below_snoc scope a d i :
  Below az scope a d ->
  In i (listing scope d) -> DirItem.IsDirectory i = true ->
  Below az scope a (directoryPath d i).
Proof.
  induction 1 as [d | a c d Hc Hdir Hbelow IH]; intros Hi Hd.
  - apply below_step with i; [done | done | constructor].
  - apply below_step with c; [done | done | by apply IH].
Qed.

(** What one turn of the loop adds, under any match behavior. *)
Lemma whileBody_grows scope d st :
  exists new,
    output (whileBody scope d st) = output st ++ new
    /\ (forall m, In m new -> In m (matchesIn scope d (listing scope d)))
    /\ (forall c, In c (queue (whileBody scope d st)) ->
                  In c (queue st)
                  \/ In c (subdirectories d (listing scope d))).
Proof.
  destruct (End_or_whole eq p (listing scope d)) as [[Hb E] | Hwhole].
  - destruct (first_match _ _ E) as (pre & x & post & Hl & Hpre & Hx).
    rewrite (whileBody_first_match eq az p _ _ _ _ _ _ Hb Hl Hpre Hx). cbn.
    eexists. split; [reflexivity |]. split; [| done].
    intros m [<- | []]. apply in_matchesIn. exists x. split; [| done].
    rewrite Hl. apply in_app_iff. right. by left.
  - rewrite whileBody_whole by done. cbn.
    eexists. split; [reflexivity |]. split; [done |].
    intros c Hc. by apply in_app_iff in Hc.
Qed.

Lemma whileQueue_sound scope fuel :
  forall st,
    (forall d, In d (queue st) -> Below az scope "/" d) ->
    exists new,
      output (state (whileQueue fuel scope st)) = output st ++ new
      /\ forall m, In m new -> Occurs scope m.
Proof.
  induction fuel as [| fuel IH]; intros st Hq.
  - exists []. rewrite app_nil_r. split; [| done]. cbn. by destruct (queue st).
  - destruct (queue st) as [| d rest] eqn:E.
    { exists []. rewrite app_nil_r, whileQueue_nil by done. by split. }
    rewrite (whileQueue_step eq az p _ _ _ _ _ E).
    set (st1 := {| queue := rest; shouldBreak := shouldBreak st;
                   output := output st; messages := messages st |}).
    destruct (whileBody_grows scope d st1) as (new1 & Ho1 & Hnew1 & Hq1).
    destruct (IH (whileBody scope d st1)) as (new2 & Ho2 & Hnew2).
    { intros c Hc. destruct (Hq1 c Hc) as [Hc' | Hc'].
      - apply Hq. by right.
      - apply in_subdirectories in Hc' as (i & Hi & Hd & ->).
        apply Below_snoc; [| done | done]. apply Hq. by left. }
    exists (new1 ++ new2). split.
    { rewrite Ho2, Ho1. cbn. by rewrite app_assoc. }
    intros m Hm. apply in_app_iff in Hm as [Hm | Hm]; [| by apply Hnew2].
    apply Hnew1, in_matchesIn in Hm as (i & Hi & Ht & ->).
    exists d, i. split; [| done]. apply Hq. by left.
Qed.

(** X16. What a run writes, under any match behavior and whether it is cut or
    not: what was written before stays, and every object added is the object
    of an item that bears the target name in one of the scopes. *)
Theorem every_match_written_occurs fuel scopes :
  forall st,
    exists new,
      output (state (forEachScope fuel scopes st)) = output st ++ new
      /\ forall m, In m new ->
                   exists scope, In scope scopes /\ Occurs scope m.
Proof.
  induction scopes as [| s later IH]; intros st.
  - exists []. by rewrite app_nil_r.
  - cbn [Script.forEachScope].
    destruct (whileQueue_sound s fuel (enterScope s st)) as (new1 & Ho1 & Hnew1).
    { intros d [<- | []]. constructor. }
    cbn in Ho1.
    destruct (whileQueue fuel s (enterScope s st)) as [st' | st'];
      cbn [state] in *.
    + destruct (shouldBreak st').
      * exists new1. split; [done |]. intros m Hm. exists s.
        split; [by left | by apply Hnew1].
      * destruct (IH st') as (new2 & Ho2 & Hnew2).
        exists (new1 ++ new2). split; [by rewrite Ho2, Ho1, app_assoc |].
        intros m Hm. apply in_app_iff in Hm as [Hm | Hm].
        -- exists s. split; [by left | by apply Hnew1].
        -- destruct (Hnew2 m Hm) as (s' & Hs' & Hm'). exists s'.
           split; [by right | done].
    + exists new1. split; [done |]. intros m Hm. exists s.
      split; [by left | by apply Hnew1].
Qed.

Lemma enumerated_app ms ms' :
  enumerated (ms ++ ms') = enumerated ms ++ enumerated ms'.
Proof. unfold enumerated. apply flat_map_app. Qed.

Lemma enumerated_items d (items : list DirItem.t) :
  enumerated (map (fun i => Item (itemPath d i)) items) = [].
Proof. induction items as [| i items IH]; [done |]. exact IH. Qed.

Lemma whileBody_enumerates scope d st :
  enumerated (messages (whileBody scope d st))
  = enumerated (messages st) ++ [currentUri (Share.Uri scope) d]
  /\ (forall c, In c (queue (whileBody scope d st)) ->
                In c (queue st)
                \/ In c (subdirectories d (listing scope d))).
Proof.
  destruct (End_or_whole eq p (listing scope d)) as [[Hb E] | Hwhole].
  - destruct (first_match _ _ E) as (pre & x & post & Hl & Hpre & Hx).
    rewrite (whileBody_first_match eq az p _ _ _ _ _ _ Hb Hl Hpre Hx). cbn.
    split; [| done]. rewrite enumerated_app. cbn.
    by rewrite enumerated_items.
  - rewrite whileBody_whole by done. cbn. split.
    + rewrite enumerated_app. cbn. by rewrite enumerated_items.
    + intros c Hc. by apply in_app_iff in Hc.
Qed.

Lemma whileQueue_enumerates scope fuel :
  forall st,
    (forall d, In d (queue st) -> Below az scope "/" d) ->
    exists dirs,
      enumerated (messages (state (whileQueue fuel scope st)))
      = enumerated (messages st) ++ map (currentUri (Share.Uri scope)) dirs
      /\ Forall (Below az scope "/") dirs.
Proof.
  induction fuel as [| fuel IH]; intros st Hq.
  - exists []. rewrite app_nil_r. split; [| done]. cbn. by destruct (queue st).
  - destruct (queue st) as [| d rest] eqn:E.
    { exists []. rewrite app_nil_r, whileQueue_nil by done. by split. }
    rewrite (whileQueue_step eq az p _ _ _ _ _ E).
    set (st1 := {| queue := rest; shouldBreak := shouldBreak st;
                   output := output st; messages := messages st |}).
    destruct (whileBody_enumerates scope d st1) as (Hm1 & Hq1).
    destruct (IH (whileBody scope d st1)) as (dirs & Hm2 & Hdirs).
    { intros c Hc. destruct (Hq1 c Hc) as [Hc' | Hc'].
      - apply Hq. by right.
      - apply in_subdirectories in Hc' as (i & Hi & Hd & ->).
        apply Below_snoc; [| done | done]. apply Hq. by left. }
    exists (d :: dirs). split.
    { rewrite Hm2, Hm1. cbn. by rewrite <- app_assoc. }
    constructor; [| done]. apply Hq. by left.
Qed.

(** X23. The directories a run asks the service for, under any match
    behavior and whether the run is cut or not: each is a directory
    reachable from the root of one of the scopes, addressed by the address of
    that scope with the path appended, so that the snapshot a scope stands
    for is kept. *)
Theorem directories_enumerated_are_within_the_scopes fuel scopes :
  forall st,
    exists uris,
      enumerated (messages (state (forEachScope fuel scopes st)))
      = enumerated (messages st) ++ uris
      /\ forall uri, In uri uris ->
           exists scope d,
             In scope scopes /\ Below az scope "/" d
             /\ uri = currentUri (Share.Uri scope) d.
Proof.
  induction scopes as [| s later IH]; intros st.
  - exists []. by rewrite app_nil_r.
  - cbn [Script.forEachScope].
    destruct (whileQueue_enumerates s fuel (enterScope s st))
      as (dirs & Hm1 & Hdirs).
    { intros d [<- | []]. constructor. }
    cbn [enterScope messages] in Hm1. rewrite enumerated_app in Hm1.
    cbn in Hm1. rewrite app_nil_r in Hm1.
    assert (Hin1 : forall uri, In uri (map (currentUri (Share.Uri s)) dirs) ->
              exists scope d, In scope (s :: later) /\ Below az scope "/" d
                              /\ uri = currentUri (Share.Uri scope) d).
    { intros uri Hu. apply in_map_iff in Hu as (d & <- & Hd).
      exists s, d. split; [by left |]. split; [| done].
      rewrite List.Forall_forall in Hdirs. by apply Hdirs. }
    destruct (whileQueue fuel s (enterScope s st)) as [st' | st'];
      cbn [state] in *.
    + destruct (shouldBreak st').
      * eexists. split; [exact Hm1 | exact Hin1].
      * destruct (IH st') as (uris & Hm2 & Hin2).
        exists (map (currentUri (Share.Uri s)) dirs ++ uris).
        split; [by rewrite Hm2, Hm1, app_assoc |].
        intros uri Hu. apply in_app_iff in Hu as [Hu | Hu]; [by apply Hin1 |].
        destruct (Hin2 uri Hu) as (scope & d & Hs & Hd & ->).
        exists scope, d. split; [by right | done].
    + eexists. split; [exact Hm1 | exact Hin1].
Qed.

(** X17. Under Continue, when the tree of every scope is finite and the fuel
    covers its directories, the run ends and writes, scope after scope in
    the order of the scopes, exactly the occurrences of the target in that
    scope. *)
Theorem Continue_searches_every_scope fuel scopes :
  MatchBehavior_ p = Continue ->
  Forall (fun scope =>
            exists h, heightBelow az h scope "/"
                      /\ (directoryCount az h scope "/" <= fuel)%nat)
    scopes ->
  forall st,
    exists st' parts,
      forEachScope fuel scopes st = Finished st'
      /\ output st' = output st ++ concat parts
      /\ Forall2 (fun scope part => forall m, In m part <-> Occurs scope m)
           scopes parts.
Proof.
  intros Hb. induction 1 as [| s later (h & Hh & Hfuel) _ IH]; intros st.
  - exists st, []. cbn. by rewrite app_nil_r.
  - destruct (whileQueue_finishes eq az p s fuel [(h, "/")] (enterScope s st))
      as [st1 Hst1].
    { reflexivity. }
    { by constructor. }
    { unfold cost. cbn. lia. }
    destruct (whileQueue_collects eq az p s fuel ltac:(congruence) _ _ Hst1)
      as (new & Ho & Hs & Hin).
    cbn in Ho, Hs. unfold flagAfter in Hs. rewrite Hb in Hs.
    destruct (IH st1) as (st' & parts & Hrun & Ho' & Hparts).
    exists st', (new :: parts). cbn [Script.forEachScope].
    rewrite Hst1, Hs. split; [done |]. split.
    { rewrite Ho', Ho. cbn. by rewrite app_assoc. }
    constructor; [| done]. intros m. rewrite Hin. cbn. split.
    + by intros (d & [<- | []] & Hm).
    + intros Hm. exists "/". split; [by left | done].
Qed.


(** *** Finite shares *)

(** X18. When the tree of every scope is finite and the fuel covers the
    directories of each, the run ends, under every match behavior. *)
Theorem search_of_finite_shares_ends fuel scopes :
  Forall (fun scope =>
            exists h, heightBelow az h scope "/"
                      /\ (directoryCount az h scope "/" <= fuel)%nat)
    scopes ->
  forall st, exists st', forEachScope fuel scopes st = Finished st'.
Proof.
  induction 1 as [| s later (h & Hh & Hfuel) _ IH]; intros st.
  - by exists st.
  - destruct (whileQueue_finishes eq az p s fuel [(h, "/")] (enterScope s st))
      as [st1 Hst1].
    { reflexivity. }
    { by constructor. }
    { unfold cost. cbn. lia. }
    cbn [Script.forEachScope]. rewrite Hst1.
    destruct (shouldBreak st1); [by exists st1 | apply IH].
Qed.

(** X19. Under ScopeEnd, when the tree of every scope is finite and the fuel
    covers its directories, the run ends; it writes nothing when no scope
    holds the target, and otherwise exactly the occurrences of the target in
    the first scope that holds it, and nothing of the scopes after it. *)
Theorem ScopeEnd_searches_up_to_the_first_scope_with_a_match fuel scopes :
  MatchBehavior_ p = ScopeEnd ->
  Forall (fun scope =>
            exists h, heightBelow az h scope "/"
                      /\ (directoryCount az h scope "/" <= fuel)%nat)
    scopes ->
  forall st,
    exists st',
      forEachScope fuel scopes st = Finished st'
      /\ ((output st' = output st
           /\ forall scope m, In scope scopes -> ~ Occurs scope m)
          \/ (exists before scope later new,
                scopes = before ++ scope :: later
                /\ output st' = output st ++ new
                /\ new <> []
                /\ (forall s m, In s before -> ~ Occurs s m)
                /\ forall m, In m new <-> Occurs scope m)).
Proof.
  intros Hb. induction 1 as [| s later (h & Hh & Hfuel) _ IH]; intros st.
  - exists st. split; [done |]. left. by split.
  - destruct (whileQueue_finishes eq az p s fuel [(h, "/")] (enterScope s st))
      as [st1 Hst1].
    { reflexivity. }
    { by constructor. }
    { unfold cost. cbn. lia. }
    destruct (whileQueue_collects eq az p s fuel ltac:(congruence) _ _ Hst1)
      as (new & Ho & Hs & Hin).
    cbn in Ho, Hs. unfold flagAfter in Hs. rewrite Hb in Hs. cbn in Hs.
    assert (Hnew : forall m, In m new <-> Occurs s m).
    { intros m. rewrite Hin. cbn. split.
      - by intros (d & [<- | []] & Hm).
      - intros Hm. exists "/". split; [by left | done]. }
    cbn [Script.forEachScope]. rewrite Hst1, Hs.
    destruct new as [| m0 new].
    + cbn. rewrite app_nil_r in Ho.
      destruct (IH st1) as (st' & Hrun & Hout). exists st'. split; [done |].
      rewrite Ho in Hout.
      destruct Hout as [[Ho' Hnone] | (before & scope & later' & new' & -> & Ho' & Hne & Hbefore & Hnew')].
      * left. split; [done |]. intros scope m [<- | Hscope].
        -- intros Hm. by apply Hnew in Hm.
        -- by apply Hnone.
      * right. exists (s :: before), scope, later', new'.
        split; [done |]. split; [done |]. split; [done |]. split; [| done].
        intros s' m [<- | Hs'].
        -- intros Hm. by apply Hnew in Hm.
        -- by apply Hbefore.
    + cbn. exists st1. split; [done |]. right.
      exists [], s, later, (m0 :: new).
      split; [done |]. split; [done |]. split; [done |]. split; [| done].
      by intros s' m [].
Qed.

(** *** Levels *)

Lemma Below_levels scope a d :
  Below az scope a d <-> exists n, BelowAt az scope n a d.
Proof.
  split.
  - induction 1 as [d | a c d Hc Hdir Hbelow [n IH]].
    + exists O. constructor.
    + exists (S n). by apply below_at_step with c.
  - intros [n H]. induction H as [d | n a c d Hc Hdir Hbelow IH].
    + constructor.
    + by apply below_step with c.
Qed.

Lemma Occurs_levels scope m :
  Occurs scope m <-> exists n, OccursAt eq az p scope n "/" m.
Proof.
  split.
  - intros (dir & i & Hb & H). apply Below_levels in Hb as [n Hb].
    exists n, dir, i. by split.
  - intros (n & dir & i & Hb & H). exists dir, i. split; [| done].
    apply Below_levels. by exists n.
Qed.

Lemma Leveled_step level d rest kids :
  Leveled ((level, d) :: rest) ->
  Leveled (rest ++ map (fun c => (S level, c)) kids).
Proof.
  intros [Hsorted Hspread]. cbn [map fst] in Hsorted, Hspread.
  apply StronglySorted_inv in Hsorted as [Hsorted Hmin].
  rewrite List.Forall_forall in Hmin.
  assert (Hlevels : forall a,
            In a (map fst (rest ++ map (fun c => (S level, c)) kids)) ->
            In a (map fst rest) \/ a = S level).
  { intros a. rewrite map_app, in_app_iff, map_map. cbn [fst].
    intros [Ha | Ha]; [by left | right].
    apply in_map_iff in Ha as (c & <- & _). reflexivity. }
  split.
  - rewrite map_app, map_map. cbn [fst].
    assert (Hle : Forall (fun a => a <= S level)%nat (map fst rest)).
    { apply List.Forall_forall. intros a Ha. apply Hspread; [by left | by right]. }
    clear Hlevels Hspread Hmin.
    induction Hsorted as [| a l Hsorted IH Hall]; cbn.
    + induction kids as [| c kids IHk]; cbn; constructor; [done |].
      apply List.Forall_forall. intros b Hb.
      apply in_map_iff in Hb as (c' & <- & _). done.
    + apply Forall_cons in Hle as [Ha Hle].
      constructor; [by apply IH |].
      apply Forall_app. split; [done |].
      apply List.Forall_forall. intros b Hb.
      apply in_map_iff in Hb as (c' & <- & _). done.
  - intros a b Ha Hb.
    destruct (Hlevels a Ha) as [Ha' | ->], (Hlevels b Hb) as [Hb' | ->].
    + apply Hspread; by right.
    + specialize (Hmin a Ha'). lia.
    + assert (b <= S level)%nat by (apply Hspread; [by left | by right]). lia.
    + lia.
Qed.

Lemma OccursFrom_step scope level d rest n m :
  existsb isTarget (listing scope d) = false ->
  OccursFrom eq az p scope ((level, d) :: rest) n m
  <-> OccursFrom eq az p scope
        (rest ++ map (fun c => (S level, c))
                   (subdirectories d (listing scope d))) n m.
Proof.
  intros Hnone. split.
  - intros (lv & a & j & [[= <- <-] | Hin] & (dir & i & Hb & Hi & Ht & ->) & ->).
    + inversion Hb as [| j' ? c ? Hc Hdir Hb']; subst.
      * exfalso. assert (E : existsb isTarget (listing scope dir) = true).
        { apply existsb_exists. by exists i. }
        by rewrite Hnone in E.
      * exists (S level), (directoryPath d c), j'. split.
        { apply in_app_iff. right. apply in_map_iff.
          exists (directoryPath d c). split; [done |].
          apply in_subdirectories. by exists c. }
        split; [by exists dir, i | lia].
    + exists lv, a, j. split; [apply in_app_iff; by left |].
      split; [by exists dir, i | done].
  - intros (lv & a & j & Hin & (dir & i & Hb & Hi & Ht & ->) & ->).
    apply in_app_iff in Hin as [Hin | Hin].
    + exists lv, a, j. split; [by right |]. split; [by exists dir, i | done].
    + apply in_map_iff in Hin as (c & [= <- <-] & Hc).
      apply in_subdirectories in Hc as (x & Hx & Hdir & ->).
      exists level, d, (S j). split; [by left |]. split; [| lia].
      exists dir, i. split; [| done]. by apply below_at_step with x.
Qed.

Lemma End_whileQueue_levels scope fuel :
  MatchBehavior_ p = End_ ->
  forall l st,
    queue st = map snd l ->
    Leveled l ->
    match whileQueue fuel scope st with
    | Cut st' => output st' = output st /\ shouldBreak st' = shouldBreak st
    | Finished st' =>
        (output st' = output st /\ shouldBreak st' = shouldBreak st
         /\ forall n m, ~ OccursFrom eq az p scope l n m)
        \/ (exists m n,
              output st' = output st ++ [m] /\ shouldBreak st' = true
              /\ OccursFrom eq az p scope l n m
              /\ forall n' m', OccursFrom eq az p scope l n' m' ->
                               (n <= n')%nat)
    end.
Proof.
  intros Hb. induction fuel as [| fuel IH]; intros l st Hq Hl.
  - cbn. destruct (queue st) as [| d rest] eqn:E; [| done].
    left. split; [done |]. split; [done |].
    destruct l; [| done]. by intros n m (? & ? & ? & [] & _).
  - destruct l as [| [level d] l].
    { rewrite whileQueue_nil by done. left. split; [done |]. split; [done |].
      by intros n m (? & ? & ? & [] & _). }
    cbn [map snd] in Hq. rewrite (whileQueue_step eq az p _ _ _ _ _ Hq).
    destruct (existsb isTarget (listing scope d)) eqn:E.
    + destruct (first_match _ _ E) as (pre & x & post & Hlist & Hpre & Hx).
      rewrite (whileBody_first_match eq az p _ _ _ _ _ _ Hb Hlist Hpre Hx).
      rewrite whileQueue_nil by done. right.
      exists (matchAt p scope (itemPath d x)), level. cbn.
      split; [done |]. split; [done |]. split.
      * exists level, d, O. split; [by left |]. split; [| lia].
        exists d, x. split; [constructor |]. split; [| done].
        rewrite Hlist. apply in_app_iff. right. by left.
      * intros n' m' (lv & a & j & Hin & _ & ->).
        destruct Hl as [Hsorted _]. cbn [map fst] in Hsorted.
        apply StronglySorted_inv in Hsorted as [_ Hmin].
        rewrite List.Forall_forall in Hmin.
        destruct Hin as [[= <- <-] | Hin]; [lia |].
        assert (level <= lv)%nat; [| lia].
        apply Hmin. apply in_map_iff. by exists (lv, a).
    + rewrite whileBody_whole by done.
      set (st1 := {| queue := _; shouldBreak := _; output := _; messages := _ |}).
      specialize (IH (l ++ map (fun c => (S level, c))
                             (subdirectories d (listing scope d))) st1).
      assert (Ho1 : output st1 = output st).
      { unfold st1. cbn. rewrite matchesIn_nil by done. apply app_nil_r. }
      assert (Hs1 : shouldBreak st1 = shouldBreak st).
      { unfold st1. cbn. unfold flagAfter. rewrite Hb, E. apply orb_false_r. }
      rewrite Ho1, Hs1 in IH.
      assert (Hq1 : queue st1
                    = map snd (l ++ map (fun c => (S level, c))
                                      (subdirectories d (listing scope d)))).
      { unfold st1. cbn. rewrite map_app, map_map. cbn [snd]. by rewrite map_id. }
      specialize (IH Hq1 (Leveled_step _ _ _ _ Hl)).
      destruct (whileQueue fuel scope st1) as [st' | st']; [| done].
      destruct IH as [(Ho & Hs & Hnone) | (m & n & Ho & Hs & Hm & Hmin)].
      * left. split; [done |]. split; [done |]. intros n m Hm.
        apply (Hnone n m). by apply OccursFrom_step.
      * right. exists m, n. split; [done |]. split; [done |]. split.
        -- by apply OccursFrom_step.
        -- intros n' m' Hm'. apply (Hmin n' m'). by apply OccursFrom_step.
Qed.

Lemma OccursFrom_root scope n m :
  OccursFrom eq az p scope [(O, "/")] n m <-> OccursAt eq az p scope n "/" m.
Proof.
  split.
  - by intros (lv & a & j & [[= <- <-] | []] & Hm & ->).
  - intros Hm. exists O, "/", n. split; [by left | by split].
Qed.

(** X20. Under End, a run that is not cut writes nothing when no scope holds
    the target; otherwise it writes one object, for an item of the first
    scope that holds the target, listed in a directory as few levels below the
    root as any directory of that scope that lists the target. A run that is
    cut has written nothing. *)
Theorem End_finds_a_shallowest_occurrence fuel scopes :
  MatchBehavior_ p = End_ ->
  match forEachScope fuel scopes start with
  | Cut st' => output st' = []
  | Finished st' =>
      (output st' = []
       /\ forall scope m, In scope scopes -> ~ Occurs scope m)
      \/ (exists before scope later m n,
            scopes = before ++ scope :: later
            /\ output st' = [m]
            /\ (forall s m', In s before -> ~ Occurs s m')
            /\ OccursAt eq az p scope n "/" m
            /\ forall n' m', OccursAt eq az p scope n' "/" m' ->
                             (n <= n')%nat)
  end.
Proof.
  intros Hb.
  assert (H : forall st, output st = [] ->
    match forEachScope fuel scopes st with
    | Cut st' => output st' = []
    | Finished st' =>
        (output st' = []
         /\ forall scope m, In scope scopes -> ~ Occurs scope m)
        \/ (exists before scope later m n,
              scopes = before ++ scope :: later
              /\ output st' = [m]
              /\ (forall s m', In s before -> ~ Occurs s m')
              /\ OccursAt eq az p scope n "/" m
              /\ forall n' m', OccursAt eq az p scope n' "/" m' ->
                               (n <= n')%nat)
    end); [| by apply H].
  induction scopes as [| s later IH]; intros st Hst.
  - left. by split.
  - cbn [Script.forEachScope].
    pose proof (End_whileQueue_levels s fuel Hb [(O, "/")] (enterScope s st)
                  eq_refl) as Hs.
    destruct (whileQueue fuel s (enterScope s st)) as [st1 | st1].
    + destruct Hs as [(Ho & Hflag & Hnone) | (m & n & Ho & Hflag & Hm & Hmin)].
      { split; [repeat constructor |]. intros a b [<- | []] [<- | []]. lia. }
      * cbn in Ho, Hflag. rewrite Hflag.
        assert (Hnot : forall m, ~ Occurs s m).
        { intros m Hm. apply Occurs_levels in Hm as [n Hm].
          apply (Hnone n m). by apply OccursFrom_root. }
        specialize (IH st1 ltac:(congruence)).
        destruct (forEachScope fuel later st1) as [st' | st']; [| done].
        destruct IH as [[Ho' Hnone'] | (before & scope & later' & m & n & -> & Ho' & Hb' & Hm & Hmin)].
        -- left. split; [done |]. intros scope m [<- | Hin]; [apply Hnot |].
           by apply Hnone'.
        -- right. exists (s :: before), scope, later', m, n.
           split; [done |]. split; [done |]. split; [| done].
           intros s' m' [<- | Hin]; [apply Hnot | by apply Hb'].
      * cbn in Ho. rewrite Hst in Ho. rewrite Hflag. right.
        exists [], s, later, m, n. split; [done |]. split; [done |].
        split; [done |]. split; [by apply OccursFrom_root |].
        intros n' m' Hm'. apply (Hmin n' m'). by apply OccursFrom_root.
    + destruct Hs as [Ho _].
      { split; [repeat constructor |]. intros a b [<- | []] [<- | []]. lia. }
      cbn in Ho. congruence.
Qed.

End Traversal.

(** *** The match behaviors against each other *)

Section Behaviors.
Variable eq : string -> string -> bool.
Variable az : Azure.
Variable p : Params.

Local Abbreviation run b := (forEachScope eq az (withMatchBehavior b p)).
Local Abbreviation loop b := (whileQueue eq az (withMatchBehavior b p)).
Local Abbreviation body b := (whileBody eq az (withMatchBehavior b p)).

Lemma whileQueue_grows b scope fuel :
  forall st, output st `prefix_of` output (state (loop b fuel scope st)).
Proof.
  induction fuel as [| fuel IH]; intros st.
  - cbn. by destruct (queue st).
  - destruct (queue st) as [| d rest] eqn:E.
    { by rewrite whileQueue_nil. }
    rewrite (whileQueue_step _ _ _ _ _ _ _ _ E).
    etrans; [| apply IH].
    destruct (whileBody_grows eq az (withMatchBehavior b p) scope d
                {| queue := rest; shouldBreak := shouldBreak st;
                   output := output st; messages := messages st |})
      as (new & Ho & _).
    rewrite Ho. cbn. by apply prefix_app_r.
Qed.

Lemma forEachScope_grows b fuel scopes :
  forall st, output st `prefix_of` output (state (run b fuel scopes st)).
Proof.
  induction scopes as [| s later IH]; intros st; [done |].
  cbn [forEachScope].
  pose proof (whileQueue_grows b s fuel (enterScope s st)) as H. cbn in H.
  destruct (loop b fuel s (enterScope s st)) as [st' | st']; cbn [state] in *;
    [| done].
  destruct (shouldBreak st'); [done |]. etrans; [exact H | apply IH].
Qed.

Lemma matchesIn_behavior b scope d items :
  matchesIn eq (withMatchBehavior b p) scope d items
  = matchesIn eq p scope d items.
Proof. reflexivity. Qed.

Lemma whileBody_sameButFlag b1 b2 scope d st1 st2 :
  b1 <> End_ -> b2 <> End_ ->
  sameButFlag st1 st2 ->
  sameButFlag (body b1 scope d st1) (body b2 scope d st2).
Proof.
  intros H1 H2 (Hq & Ho & Hm).
  rewrite !whileBody_whole by (intros H; cbn in H; congruence).
  split; [| split]; cbn; rewrite ?matchesIn_behavior; congruence.
Qed.

Lemma whileQueue_sameButFlag b1 b2 scope fuel :
  b1 <> End_ -> b2 <> End_ ->
  forall st1 st2,
    sameButFlag st1 st2 ->
    match loop b1 fuel scope st1, loop b2 fuel scope st2 with
    | Finished a, Finished b | Cut a, Cut b => sameButFlag a b
    | _, _ => False
    end.
Proof.
  intros H1 H2. induction fuel as [| fuel IH]; intros st1 st2 Hs.
  - pose proof Hs as (Hq & _). cbn. rewrite <- Hq. by destruct (queue st1).
  - pose proof Hs as (Hq & Ho & Hm).
    destruct (queue st1) as [| d rest] eqn:E.
    { rewrite !whileQueue_nil by congruence. done. }
    rewrite (whileQueue_step _ _ _ _ _ _ _ _ E).
    rewrite (whileQueue_step _ _ _ _ _ st2 d rest) by congruence.
    apply IH. apply whileBody_sameButFlag; [done | done |].
    split; [| split]; cbn; congruence.
Qed.

Lemma Continue_keeps_the_flag scope fuel :
  forall st,
    shouldBreak (state (loop Continue fuel scope st)) = shouldBreak st.
Proof.
  induction fuel as [| fuel IH]; intros st.
  - cbn. by destruct (queue st).
  - destruct (queue st) as [| d rest] eqn:E.
    { by rewrite whileQueue_nil. }
    rewrite (whileQueue_step _ _ _ _ _ _ _ _ E), IH.
    by rewrite whileBody_whole by (intros H; cbn in H; congruence).
Qed.

Lemma ScopeEnd_within_Continue fuel scopes :
  forall st1 st2,
    sameButFlag st1 st2 ->
    output (state (run ScopeEnd fuel scopes st1))
    `prefix_of` output (state (run Continue fuel scopes st2)).
Proof.
  induction scopes as [| s later IH]; intros st1 st2 Hs.
  - cbn. destruct Hs as (_ & -> & _). done.
  - cbn [forEachScope].
    assert (Henter : sameButFlag (enterScope s st1) (enterScope s st2)).
    { destruct Hs as (Hq & Ho & Hm). split; [| split]; cbn; congruence. }
    pose proof (whileQueue_sameButFlag ScopeEnd Continue s fuel
                  ltac:(done) ltac:(done) _ _ Henter) as H.
    pose proof (Continue_keeps_the_flag s fuel (enterScope s st2)) as Hflag.
    cbn in Hflag.
    destruct (loop ScopeEnd fuel s (enterScope s st1)) as [a | a],
             (loop Continue fuel s (enterScope s st2)) as [b | b];
      try done; cbn [state] in *.
    + rewrite Hflag. destruct (shouldBreak a); [| by apply IH].
      cbn [state]. destruct H as (_ & -> & _).
      apply forEachScope_grows.
    + by destruct H as (_ & -> & _).
Qed.

Lemma End_loop_within b scope fuel :
  b <> End_ ->
  forall st,
    loop End_ fuel scope st = loop b fuel scope st
    \/ (exists stE,
          loop End_ fuel scope st = Finished stE
          /\ shouldBreak stE = true
          /\ output stE `prefix_of` output (state (loop b fuel scope st))).
Proof.
  intros Hb. induction fuel as [| fuel IH]; intros st.
  - by left.
  - destruct (queue st) as [| d rest] eqn:E.
    { left. by rewrite !whileQueue_nil. }
    rewrite !(whileQueue_step _ _ _ _ _ _ _ _ E).
    set (st1 := {| queue := rest; shouldBreak := shouldBreak st;
                   output := output st; messages := messages st |}).
    destruct (existsb (isTarget eq p) (listing az scope d)) eqn:Ex.
    + right.
      destruct (first_match _ _ Ex) as (pre & x & post & Hl & Hpre & Hx).
      rewrite (whileBody_first_match eq az (withMatchBehavior End_ p)
                 scope d pre x post st1 eq_refl Hl Hpre Hx).
      rewrite whileQueue_nil by done. eexists. split; [reflexivity |].
      split; [done |]. cbn [output].
      etrans; [| apply whileQueue_grows].
      rewrite whileBody_whole by (intros H; cbn in H; congruence).
      cbn [output]. apply prefix_app.
      change (matchesIn eq (withMatchBehavior b p) scope d (listing az scope d))
        with (matchesIn eq p scope d (listing az scope d)).
      rewrite Hl. unfold matchesIn. rewrite List.filter_app. cbn [List.filter].
      rewrite Hx.
      assert (Hnone : List.filter (isTarget eq p) pre = []).
      { clear -Hpre. induction pre as [| i pre IH]; [done |]. cbn in *.
        apply orb_false_elim in Hpre as [-> Hpre]. by apply IH. }
      rewrite Hnone. cbn. eexists. reflexivity.
    + assert (Hsame : body End_ scope d st1 = body b scope d st1).
      { rewrite !whileBody_whole
          by (intros H; cbn in H; first [congruence | exact Ex]).
        f_equal; try reflexivity.
        change (isTarget eq (withMatchBehavior End_ p)) with (isTarget eq p).
        change (isTarget eq (withMatchBehavior b p)) with (isTarget eq p).
        rewrite Ex. unfold flagAfter. cbn.
        destruct b; [done | done | apply orb_false_r]. }
      rewrite Hsame. apply IH.
Qed.

Lemma End_within b fuel scopes :
  b <> End_ ->
  forall st,
    output (state (run End_ fuel scopes st))
    `prefix_of` output (state (run b fuel scopes st)).
Proof.
  intros Hb. induction scopes as [| s later IH]; intros st; [done |].
  cbn [forEachScope].
  destruct (End_loop_within b s fuel Hb (enterScope s st))
    as [-> | (stE & -> & Hflag & Hpre)].
  - destruct (loop b fuel s (enterScope s st)) as [st' | st']; [| done].
    destruct (shouldBreak st'); [done | apply IH].
  - rewrite Hflag. cbn [state]. etrans; [exact Hpre |].
    destruct (loop b fuel s (enterScope s st)) as [st' | st']; [| done].
    cbn [state]. destruct (shouldBreak st'); [done |].
    apply forEachScope_grows.
Qed.

(** X21. The match behaviors nest. On the same scopes, from the same state
    and with the same fuel, what a run writes under End is the beginning of
    what it writes under ScopeEnd, which is the beginning of what it writes
    under Continue. *)
Theorem match_behaviors_nest fuel scopes st :
  output (state (run End_ fuel scopes st))
  `prefix_of` output (state (run ScopeEnd fuel scopes st))
  /\ output (state (run ScopeEnd fuel scopes st))
     `prefix_of` output (state (run Continue fuel scopes st)).
Proof.
  split.
  - by apply End_within.
  - by apply ScopeEnd_within_Continue.
Qed.

End Behaviors.

(** *** The sample share *)

Ltac sample_is_finite :=
  repeat constructor; exists 3%nat;
  (split;
   [ cbn; repeat (constructor; cbn; intros; try discriminate)
   | vm_compute; lia ]).

Lemma finite_sample_ends :
  exists st',
    forEachScope ieq azure (request Both End_) 5 [live; snapshot3] start
    = Finished st'.
Proof.
  apply (search_of_finite_shares_ends ieq azure (request Both End_) 5
           [live; snapshot3]).
  sample_is_finite.
Defined.

Lemma Continue_on_the_sample :
  exists st' parts,
    forEachScope ieq azure (request Both Continue) 5 [live; snapshot3] start
    = Finished st'
    /\ output st' = output start ++ concat parts
    /\ Forall2 (fun scope part =>
                  forall m, In m part
                            <-> Occurs ieq azure (request Both Continue) scope m)
         [live; snapshot3] parts.
Proof.
  apply (Continue_searches_every_scope ieq azure (request Both Continue) 5
           [live; snapshot3]).
  - reflexivity.
  - sample_is_finite.
Defined.

Lemma ScopeEnd_run_on_the_sample :
  exists st',
    forEachScope ieq azure (request Both ScopeEnd) 5 [live; snapshot3] start
    = Finished st'
    /\ ((output st' = output start
         /\ forall scope m, In scope [live; snapshot3] ->
                            ~ Occurs ieq azure (request Both ScopeEnd) scope m)
        \/ (exists before scope later new,
              [live; snapshot3] = before ++ scope :: later
              /\ output st' = output start ++ new
              /\ new <> []
              /\ (forall s m, In s before ->
                              ~ Occurs ieq azure (request Both ScopeEnd) s m)
              /\ forall m, In m new
                           <-> Occurs ieq azure (request Both ScopeEnd) scope m)).
Proof.
  apply (ScopeEnd_searches_up_to_the_first_scope_with_a_match ieq azure
           (request Both ScopeEnd) 5 [live; snapshot3]).
  - reflexivity.
  - sample_is_finite.
Defined.

Lemma End_run_on_the_sample :
  match forEachScope ieq azure (request Both End_) 5 [live; snapshot3] start with
  | Cut st' => output st' = []
  | Finished st' =>
      (output st' = []
       /\ forall scope m, In scope [live; snapshot3] ->
                          ~ Occurs ieq azure (request Both End_) scope m)
      \/ (exists before scope later m n,
            [live; snapshot3] = before ++ scope :: later
            /\ output st' = [m]
            /\ (forall s m', In s before ->
                             ~ Occurs ieq azure (request Both End_) s m')
            /\ OccursAt ieq azure (request Both End_) scope n "/" m
            /\ forall n' m',
                 OccursAt ieq azure (request Both End_) scope n' "/" m' ->
                 (n <= n')%nat)
  end.
Proof.
  apply (End_finds_a_shallowest_occurrence ieq azure (request Both End_) 5
           [live; snapshot3]).
  reflexivity.
Defined.

End SearchFacts.

(** ** The script: the paths of a run *)

Module PathFacts.

Import Script Samples ScriptFacts SearchFacts.

Section Traversal.
Variable eq : string -> string -> bool.
Variable az : Azure.
Variable p : Params.

Local Abbreviation isTarget := (isTarget eq p).
Local Abbreviation whileBody := (whileBody eq az p).
Local Abbreviation whileQueue := (whileQueue eq az p).
Local Abbreviation forEachScope := (forEachScope eq az p).
Local Abbreviation listing := (listing az).
Local Abbreviation Listed := (Listed az).

Lemma Below_trans scope a b c :
  Below az scope a b -> Below az scope b c -> Below az scope a c.
Proof.
  induction 1 as [d | a i b Hi Hdir Hbelow IH]; [done |].
  intros Hc. apply below_step with i; [done | done | by apply IH].
Qed.

(** The lines of one turn of the loop, under any match behavior: the line
    of the directory, then the lines of its items, all of them or those up
    to the match that ends the run. *)
Lemma whileBody_lists scope d st :
  exists items,
    messages (whileBody scope d st)
    = messages st
      ++ EnumeratingDirectory (currentUri (Share.Uri scope) d)
         :: map (fun i => Item (itemPath d i)) items
    /\ (forall i, In i items -> In i (listing scope d))
    /\ (forall c, In c (queue (whileBody scope d st)) ->
                  In c (queue st)
                  \/ In c (subdirectories d (listing scope d))).
Proof.
  destruct (End_or_whole eq p (listing scope d)) as [[Hb E] | Hwhole].
  - destruct (first_match _ _ E) as (pre & x & post & Hl & Hpre & Hx).
    rewrite (whileBody_first_match eq az p _ _ _ _ _ _ Hb Hl Hpre Hx). cbn.
    exists (pre ++ [x]). split; [done |]. split; [| done].
    intros i Hi. rewrite Hl. apply in_app_iff in Hi as [Hi | [<- | []]].
    + apply in_app_iff. by left.
    + apply in_app_iff. right. by left.
  - rewrite whileBody_whole by done. cbn.
    exists (listing scope d). split; [done |]. split; [done |].
    intros c Hc. by apply in_app_iff in Hc.
Qed.

Lemma in_lines scope d items msg :
  (forall i, In i items -> In i (listing scope d)) ->
  In msg (EnumeratingDirectory (currentUri (Share.Uri scope) d)
            :: map (fun i => Item (itemPath d i)) items) ->
  Listed scope d msg.
Proof.
  intros Hitems [<- | Hm]; [by left |].
  apply in_map_iff in Hm as (i & <- & Hi). right. exists i.
  split; [by apply Hitems | done].
Qed.

Lemma whileQueue_lines scope fuel :
  forall st,
    (forall d, In d (queue st) -> Below az scope "/" d) ->
    exists new,
      messages (state (whileQueue fuel scope st)) = messages st ++ new
      /\ forall msg, In msg new ->
                     exists d, Below az scope "/" d /\ Listed scope d msg.
Proof.
  induction fuel as [| fuel IH]; intros st Hq.
  - exists []. rewrite app_nil_r. split; [| done]. cbn. by destruct (queue st).
  - destruct (queue st) as [| d rest] eqn:E.
    { exists []. rewrite app_nil_r, whileQueue_nil by done. by split. }
    rewrite (whileQueue_step eq az p _ _ _ _ _ E).
    set (st1 := {| queue := rest; shouldBreak := shouldBreak st;
                   output := output st; messages := messages st |}).
    destruct (whileBody_lists scope d st1) as (items & Hm1 & Hitems & Hq1).
    destruct (IH (whileBody scope d st1)) as (new & Hm2 & Hnew).
    { intros c Hc. destruct (Hq1 c Hc) as [Hc' | Hc'].
      - apply Hq. by right.
      - apply in_subdirectories in Hc' as (i & Hi & Hd & ->).
        apply Below_snoc; [| done | done]. apply Hq. by left. }
    eexists. split.
    { rewrite Hm2, Hm1. cbn [messages st1]. rewrite <- app_assoc. reflexivity. }
    intros msg Hmsg. apply in_app_iff in Hmsg as [Hmsg | Hmsg].
    + exists d. split; [apply Hq; by left |]. by apply (in_lines scope d items).
    + by apply Hnew.
Qed.

Lemma forEachScope_lines fuel scopes :
  forall st,
    exists new,
      messages (state (forEachScope fuel scopes st)) = messages st ++ new
      /\ forall msg, In msg new ->
           exists scope,
             In scope scopes
             /\ (msg = Enumerating (Share.Uri scope)
                 \/ exists d, Below az scope "/" d /\ Listed scope d msg).
Proof.
  induction scopes as [| s later IH]; intros st.
  - exists []. by rewrite app_nil_r.
  - cbn [Script.forEachScope].
    destruct (whileQueue_lines s fuel (enterScope s st)) as (new1 & Hm1 & Hnew1).
    { intros d [<- | []]. constructor. }
    cbn [enterScope messages] in Hm1. rewrite <- app_assoc in Hm1.
    assert (Hin1 : forall msg, In msg ([Enumerating (Share.Uri s)] ++ new1) ->
              exists scope,
                In scope (s :: later)
                /\ (msg = Enumerating (Share.Uri scope)
                    \/ exists d, Below az scope "/" d /\ Listed scope d msg)).
    { intros msg Hmsg. exists s. split; [by left |].
      destruct Hmsg as [<- | Hmsg]; [by left | right; by apply Hnew1]. }
    destruct (whileQueue fuel s (enterScope s st)) as [st' | st'];
      cbn [state] in *.
    + destruct (shouldBreak st').
      * eexists. split; [exact Hm1 | exact Hin1].
      * destruct (IH st') as (new2 & Hm2 & Hnew2).
        exists (([Enumerating (Share.Uri s)] ++ new1) ++ new2).
        split; [by rewrite Hm2, Hm1, <- !app_assoc |].
        intros msg Hmsg. apply in_app_iff in Hmsg as [Hmsg | Hmsg];
          [by apply Hin1 |].
        destruct (Hnew2 msg Hmsg) as (scope & Hs & H). exists scope.
        split; [by right | done].
    + eexists. split; [exact Hm1 | exact Hin1].
Qed.

(** The turn of a scope starts at the root, under any match behavior: the
    first directory listed is the root, and its items are written with a
    slash followed by their names, all of them or, under End, those up to
    the first that bears the target name. *)
Lemma whileQueue_starts_at_the_root scope fuel st :
  exists items post rest,
    listing scope "/" = items ++ post
    /\ (post = []
        \/ (MatchBehavior_ p = End_ /\ existsb isTarget items = true))
    /\ messages (state (whileQueue (S fuel) scope (enterScope scope st)))
       = messages st
         ++ Enumerating (Share.Uri scope)
            :: EnumeratingDirectory (currentUri (Share.Uri scope) "/")
            :: map (fun i => Item ("/" +:+ DirItem.Name i)) items
         ++ rest.
Proof.
  rewrite (whileQueue_step eq az p fuel scope (enterScope scope st) "/" [])
    by reflexivity.
  set (st0 := {| queue := []; shouldBreak := _; output := _; messages := _ |}).
  assert (Hlines : exists items post,
            listing scope "/" = items ++ post
            /\ (post = []
                \/ (MatchBehavior_ p = End_ /\ existsb isTarget items = true))
            /\ messages (whileBody scope "/" st0)
               = messages st0
                 ++ EnumeratingDirectory (currentUri (Share.Uri scope) "/")
                    :: map (fun i => Item (itemPath "/" i)) items
            /\ (forall c, In c (queue (whileBody scope "/" st0)) ->
                          Below az scope "/" c)).
  { destruct (End_or_whole eq p (listing scope "/")) as [[Hb E] | Hwhole].
    - destruct (first_match _ _ E) as (pre & x & post & Hl & Hpre & Hx).
      rewrite (whileBody_first_match eq az p _ _ _ _ _ _ Hb Hl Hpre Hx).
      exists (pre ++ [x]), post. split; [by rewrite <- app_assoc |].
      split; [| by split]. right. split; [done |].
      rewrite existsb_app. cbn. rewrite Hx. by rewrite orb_true_r.
    - rewrite whileBody_whole by done.
      exists (listing scope "/"), []. split; [by rewrite app_nil_r |].
      split; [by left |]. split; [done |]. cbn [queue st0 app].
      intros c Hc. apply in_subdirectories in Hc as (i & Hi & Hd & ->).
      apply below_step with i; [done | done | constructor]. }
  destruct Hlines as (items & post & Hl & Hpost & Hm & Hq).
  destruct (whileQueue_lines scope fuel (whileBody scope "/" st0) Hq)
    as (rest & Hrest & _).
  exists items, post, rest. split; [done |]. split; [done |].
  rewrite Hrest, Hm. cbn [messages st0 enterScope].
  rewrite <- !app_assoc. reflexivity.
Qed.

(** What a run of the loop that no match stops writes: the lines of every
    directory at or below the paths of its queue, and no other. *)
Lemma whileQueue_lists scope fuel :
  NoStop eq az p scope ->
  forall st st',
    (forall d, In d (queue st) -> Below az scope "/" d) ->
    whileQueue fuel scope st = Finished st' ->
    exists new,
      messages st' = messages st ++ new
      /\ forall msg, In msg new <->
                     exists d0 d, In d0 (queue st) /\ Below az scope d0 d
                                  /\ Listed scope d msg.
Proof.
  intros Hno.
  induction fuel as [| fuel IH]; intros st st' Hq H;
    destruct (queue st) as [| d0 rest] eqn:E;
    try (rewrite whileQueue_nil in H by done;
         injection H as <-; exists []; rewrite app_nil_r;
         split; [done |]; intros msg; split; [done |];
         by intros (? & ? & [] & _)).
  - cbn in H. rewrite E in H. discriminate.
  - rewrite (whileQueue_step eq az p _ _ _ _ _ E) in H.
    assert (Hd0 : Below az scope "/" d0) by (apply Hq; by left).
    rewrite whileBody_whole in H by (intros Hb; by apply Hno).
    apply IH in H as (new & Hm & Hnew).
    2:{ cbn [queue]. intros c Hc. apply in_app_iff in Hc as [Hc | Hc].
        - apply Hq. by right.
        - apply in_subdirectories in Hc as (i & Hi & Hd & ->).
          by apply Below_snoc. }
    cbn [messages queue] in Hm, Hnew.
    eexists. split; [rewrite Hm, <- app_assoc; reflexivity |].
    intros msg. rewrite in_app_iff, Hnew. split.
    + intros [Hmsg | (c & d & Hc & Hbelow & Hl)].
      * exists d0, d0. split; [by left |]. split; [constructor |].
        by apply (in_lines scope d0 (listing scope d0)).
      * apply in_app_iff in Hc as [Hc | Hc].
        -- exists c, d. split; [by right | done].
        -- apply in_subdirectories in Hc as (i & Hi & Hdir & ->).
           exists d0, d. split; [by left |]. split; [| done].
           by apply below_step with i.
    + intros (c & d & [<- | Hc] & Hbelow & Hl).
      * inversion Hbelow as [| ? i ? Hi Hdir Hbelow']; subst.
        -- left. destruct Hl as [-> | (i & Hi & ->)]; [by left |].
           right. apply in_map_iff. by exists i.
        -- right. exists (directoryPath d0 i), d. split; [| done].
           apply in_app_iff. right. apply in_subdirectories. by exists i.
      * right. exists c, d. split; [| done]. apply in_app_iff. by left.
Qed.

(** C10. When the names the service lists are not empty and hold no slash,
    every path written for a match, written on the debug stream or waiting in
    the queue starts with one slash and has no two slashes in a row, at any
    point of any run; and every line of a run is the line of a scope, of a
    directory reachable from the root of a scope, or of an item listed there,
    with the path made of the names from the root down. The turn of a scope
    starts at the root under every match behavior: the first directory
    listed is the root, and its items are written with a slash followed by
    their names, all of them or, under End, those up to the first match. A
    turn that no match stops under End, on a finite tree, writes the lines
    of every directory reachable from the root, and no other, and they are
    part of the run over the scopes. There, a child foo
    of the root is written with path /foo; when it is a directory, it is
    listed at the address of the scope followed by /foo/, and each of its
    children is written with path /foo/ followed by its name. *)
Theorem paths_have_one_leading_slash_and_no_double_slash :
  (forall uri i, In i (GetFilesAndDirectories az uri) ->
                 validName (DirItem.Name i) = true) ->
  (forall fuel scopes,
     Forall (fun m => wellFormed (m_Path m) = true)
       (output (state (forEachScope fuel scopes start)))
     /\ Forall (fun d => directoryShaped d = true)
          (queue (state (forEachScope fuel scopes start)))
     /\ Forall (fun path => wellFormed path = true)
          (itemPaths (messages (state (forEachScope fuel scopes start))))
     /\ forall msg,
          In msg (messages (state (forEachScope fuel scopes start))) ->
          exists scope,
            In scope scopes
            /\ (msg = Enumerating (Share.Uri scope)
                \/ exists d, Below az scope "/" d /\ Listed scope d msg))
  /\ (forall fuel scope st,
        exists items post rest,
          listing scope "/" = items ++ post
          /\ (post = []
              \/ (MatchBehavior_ p = End_ /\ existsb isTarget items = true))
          /\ messages (state (whileQueue (S fuel) scope (enterScope scope st)))
             = messages st
               ++ Enumerating (Share.Uri scope)
                  :: EnumeratingDirectory (currentUri (Share.Uri scope) "/")
                  :: map (fun i => Item ("/" +:+ DirItem.Name i)) items
               ++ rest)
  /\ (forall h fuel scope later st,
        heightBelow az h scope "/" ->
        (directoryCount az h scope "/" <= fuel)%nat ->
        NoStop eq az p scope ->
        exists st' new,
          whileQueue fuel scope (enterScope scope st) = Finished st'
          /\ messages st' = messages st ++ Enumerating (Share.Uri scope) :: new
          /\ messages st'
             `prefix_of` messages (state (forEachScope fuel (scope :: later) st))
          /\ (forall msg, In msg new <->
                          exists d, Below az scope "/" d /\ Listed scope d msg)
          /\ (forall foo,
                In foo (listing scope "/") ->
                DirItem.Name foo = "foo" ->
                In (Item "/foo") new
                /\ (DirItem.IsDirectory foo = true ->
                    In (EnumeratingDirectory
                          (currentUri (Share.Uri scope) "/foo/")) new
                    /\ forall c,
                         In c (listing scope "/foo/") ->
                         In (Item ("/foo/" +:+ DirItem.Name c)) new))).
Proof.
  intros names. split.
  - intros fuel scopes.
    assert (Hstart : PathsOk start) by (by repeat constructor).
    destruct (forEachScope_paths eq az p names fuel scopes start Hstart)
      as (Hq & Ho & Hm).
    split; [done |]. split; [done |]. split; [done |].
    destruct (forEachScope_lines fuel scopes start) as (new & Hnew & Hin).
    intros msg Hmsg. rewrite Hnew in Hmsg. by apply Hin.
  - split; [intros fuel scope st; apply whileQueue_starts_at_the_root |].
    intros h fuel scope later st Hh Hfuel Hno.
    destruct (whileQueue_finishes eq az p scope fuel [(h, "/")]
                (enterScope scope st)) as [st' Hst'].
    { reflexivity. }
    { by constructor. }
    { unfold cost. cbn. lia. }
    assert (Hq0 : forall d, In d (queue (enterScope scope st)) ->
                            Below az scope "/" d).
    { intros d [<- | []]. constructor. }
    destruct (whileQueue_lists scope fuel Hno _ _ Hq0 Hst')
      as (new & Hm & Hnew).
    cbn [enterScope messages queue] in Hm, Hnew.
    assert (Hroot : forall msg,
              In msg new <->
              exists d, Below az scope "/" d /\ Listed scope d msg).
    { intros msg. rewrite Hnew. split.
      - by intros (d0 & d & [<- | []] & Hb & Hl); exists d.
      - intros (d & Hb & Hl). exists "/", d. split; [by left | done]. }
    exists st', new. split; [done |]. split; [by rewrite Hm, <- app_assoc |].
    split.
    { cbn [Script.forEachScope]. rewrite Hst'.
      destruct (shouldBreak st'); [done |].
      destruct (forEachScope_lines fuel later st') as (more & -> & _).
      by apply prefix_app_r. }
    split; [exact Hroot |].
    intros foo Hfoo Hname. split.
    + apply Hroot. exists "/". split; [constructor |]. right. exists foo.
      split; [done |]. unfold itemPath. by rewrite Hname.
    + intros Hdir.
      assert (Hpath : directoryPath "/" foo = "/foo/").
      { unfold directoryPath, itemPath. by rewrite Hname. }
      assert (Hbelow : Below az scope "/" "/foo/").
      { rewrite <- Hpath. apply below_step with foo; [done | done | constructor]. }
      split.
      * apply Hroot. exists "/foo/". split; [done | by left].
      * intros c Hc. apply Hroot. exists "/foo/". split; [done |].
        right. by exists c.
Qed.

End Traversal.

(** *** The share with a directory foo *)

(** The lines of a run under Continue over the live share. *)
Example foo_is_written_as_slash_foo :
  messages (state (forEachScope ieq fooAzure (request Both Continue) 5 [live]
                     start))
  = [ Enumerating liveUri;
      EnumeratingDirectory (currentUri liveUri "/");
      Item "/foo"; Item "/readme.txt";
      EnumeratingDirectory (currentUri liveUri "/foo/");
      Item "/foo/bar.txt"; Item "/foo/baz";
      EnumeratingDirectory (currentUri liveUri "/foo/baz/") ].
Proof. vm_compute. reflexivity. Qed.

(** The paths of the share with a directory foo: every run, and the turn of
    the live share under Continue. *)
Lemma paths_on_the_sample :
  (forall fuel scopes,
     Forall (fun m => wellFormed (m_Path m) = true)
       (output (state (forEachScope ieq fooAzure (request Both Continue) fuel
                         scopes start)))
     /\ Forall (fun d => directoryShaped d = true)
          (queue (state (forEachScope ieq fooAzure (request Both Continue)
                           fuel scopes start)))
     /\ Forall (fun path => wellFormed path = true)
          (itemPaths (messages (state (forEachScope ieq fooAzure
                                         (request Both Continue) fuel scopes
                                         start))))
     /\ forall msg,
          In msg (messages (state (forEachScope ieq fooAzure
                                     (request Both Continue) fuel scopes
                                     start))) ->
          exists scope,
            In scope scopes
            /\ (msg = Enumerating (Share.Uri scope)
                \/ exists d, Below fooAzure scope "/" d
                             /\ Listed fooAzure scope d msg))
  /\ (forall fuel scope st,
        exists items post rest,
          listing fooAzure scope "/" = items ++ post
          /\ (post = []
              \/ (MatchBehavior_ (request Both Continue) = End_
                  /\ existsb (isTarget ieq (request Both Continue)) items
                     = true))
          /\ messages (state (whileQueue ieq fooAzure (request Both Continue)
                                (S fuel) scope (enterScope scope st)))
             = messages st
               ++ Enumerating (Share.Uri scope)
                  :: EnumeratingDirectory (currentUri (Share.Uri scope) "/")
                  :: map (fun i => Item ("/" +:+ DirItem.Name i)) items
               ++ rest)
  /\ (exists st' new,
        whileQueue ieq fooAzure (request Both Continue) 5 live
          (enterScope live start)
        = Finished st'
        /\ messages st' = messages start ++ Enumerating (Share.Uri live) :: new
        /\ messages st'
           `prefix_of`
           messages (state (forEachScope ieq fooAzure (request Both Continue)
                              5 (live :: [snapshot3]) start))
        /\ (forall msg,
              In msg new <->
              exists d, Below fooAzure live "/" d
                        /\ Listed fooAzure live d msg)
        /\ (forall foo,
              In foo (listing fooAzure live "/") ->
              DirItem.Name foo = "foo" ->
              In (Item "/foo") new
              /\ (DirItem.IsDirectory foo = true ->
                  In (EnumeratingDirectory
                        (currentUri (Share.Uri live) "/foo/")) new
                  /\ forall c,
                       In c (listing fooAzure live "/foo/") ->
                       In (Item ("/foo/" +:+ DirItem.Name c)) new))).
Proof.
  destruct (paths_have_one_leading_slash_and_no_double_slash ieq fooAzure
              (request Both Continue)) as (Hruns & Hroot & Hturn).
  { intros uri i. cbn [GetFilesAndDirectories fooAzure]. unfold fooTree.
    repeat destruct (String.eqb _ _); cbn; intuition (by subst). }
  split; [exact Hruns |]. split; [exact Hroot |].
  apply (Hturn 3%nat 5%nat live [snapshot3] start).
  - cbn. repeat (constructor; cbn; intros; try discriminate).
  - vm_compute. lia.
  - intros Hb. discriminate.
Defined.

End PathFacts.
